(** * Issued: the library index and its synchronisation with the filesystem

  A shallow embedding of the core of the Issued comic server
  (src/server/path_utils.py, archive.py, comicinfo.py, repository.py,
  scanner.py and monitor.py) together with the properties the
  specification states about it.

  Conventions.
  - A Python [str] is a [string] holding its UTF-8 bytes; the characters
    the code inspects ("/", ".", "_", "%", the ASCII letters) are single
    bytes, so byte-wise tests agree with the code-point tests of Python.
  - A [pathlib.Path] is a POSIX pure path: a flag telling whether it is
    anchored at "/" and the list of its components.
  - An exception is a value of [exn]; a call that may raise returns a
    [result]. *)

From Stdlib Require Import ZArith Ascii String List Bool Lia Permutation Sorted.
From Stdlib Require Import OrderedTypeEx.
From stdpp Require Import base option list strings gmap.

Local Open Scope string_scope.
Local Open Scope list_scope.

(** ** Exceptions *)

Inductive exn : Type :=
| FileNotFoundError
| PermissionError
| IsADirectoryError
| ValueError
| ImportError
| ArchiveError      (* zipfile.BadZipFile, rarfile.Error, a failed entry read *)
| XMLParseError     (* xml.etree.ElementTree.ParseError *)
| LookupError       (* an encoding Python does not know *)
| OverflowError     (* an int too large to convert to SQLite INTEGER *)
| IntegrityError.   (* sqlalchemy.exc.IntegrityError: a UNIQUE or a FOREIGN KEY
                       constraint failed *)

Inductive result (A : Type) : Type :=
| Ok (a : A)
| Raise (e : exn).
Arguments Ok {A} a.
Arguments Raise {A} e.


Definition bind {A B} (r : result A) (k : A -> result B) : result B :=
match r with Ok a => k a | Raise e => Raise e end.

(** ** Python strings *)

Module Py.

Definition slash : ascii := "/"%char.
Definition dot : ascii := "."%char.

(** [c.lower()] on one byte: only the ASCII capitals change. *)
Definition lower_ascii (c : ascii) : ascii :=
  let n := nat_of_ascii c in
  if (65 <=? n)%nat && (n <=? 90)%nat then ascii_of_nat (n + 32) else c.

(** [s.lower()]. *)
Fixpoint lower (s : string) : string :=
  match s with
  | EmptyString => EmptyString
  | String c s' => String (lower_ascii c) (lower s')
  end.

(** [s.startswith(p)]. *)
Fixpoint startswith (p s : string) : bool :=
  match p, s with
  | EmptyString, _ => true
  | String a p', String b s' => if Ascii.eqb a b then startswith p' s' else false
  | String _ _, EmptyString => false
  end.

(** [s[n:]]. *)
Fixpoint drop (n : nat) (s : string) : string :=
  match n, s with
  | O, _ => s
  | S n', String _ s' => drop n' s'
  | S _, EmptyString => EmptyString
  end.

(** [s.split(sep)] for a one-character separator: never the empty list. *)
Fixpoint split (sep : ascii) (s : string) : list string :=
  match s with
  | EmptyString => [EmptyString]
  | String c s' =>
      if Ascii.eqb c sep then EmptyString :: split sep s'
      else match split sep s' with
           | x :: xs => String c x :: xs
           | [] => [String c EmptyString]
           end
  end.

(** [sep.join(l)]. *)
Fixpoint join (sep : string) (l : list string) : string :=
  match l with
  | [] => EmptyString
  | [x] => x
  | x :: xs => x ++ sep ++ join sep xs
  end.

(** [c in s] for a character. *)
Fixpoint contains (c : ascii) (s : string) : bool :=
  match s with
  | EmptyString => false
  | String a s' => Ascii.eqb a c || contains c s'
  end.

(** [s.rstrip("/")]: the trailing slashes go. *)
Fixpoint rstrip_slash (s : string) : string :=
  match s with
  | EmptyString => EmptyString
  | String c s' =>
      match rstrip_slash s' with
      | EmptyString => if Ascii.eqb c slash then EmptyString else String c EmptyString
      | r => String c r
      end
  end.

(** [s.lstrip(".")]: the leading dots go. *)
Fixpoint lstrip_dot (s : string) : string :=
  match s with
  | String c s' => if Ascii.eqb c dot then lstrip_dot s' else s
  | EmptyString => EmptyString
  end.

(** [s.replace(old, new, 1)]: the leftmost occurrence of [old] is
    replaced; an empty [old] occurs at position 0. *)
Fixpoint replace1 (old new s : string) : string :=
  if startswith old s then new ++ drop (String.length old) s
  else match s with
       | EmptyString => EmptyString
       | String c s' => String c (replace1 old new s')
       end.

(** [s.rfind(".")]: the index of the last dot, if any. *)
Fixpoint rfind_dot (s : string) : option nat :=
  match s with
  | EmptyString => None
  | String c s' =>
      match rfind_dot s' with
      | Some i => Some (S i)
      | None => if Ascii.eqb c dot then Some O else None
      end
  end.

(** [s.count(c)] for a character. *)
Fixpoint count (c : ascii) (s : string) : nat :=
  match s with
  | EmptyString => 0
  | String a s' => (if Ascii.eqb a c then 1 else 0) + count c s'
  end.

End Py.

(** ** pathlib *)

Module PathLib.

(** A pure POSIX path. [parts] leaves the anchor out. *)
Record Path : Type := mkPath { absolute : bool; parts : list string }.

(** What the parser of pathlib leaves in a component: it is not empty,
    it is not ".", and it holds no separator. *)
Definition valid_part (s : string) : bool :=
  negb (String.eqb s "") && negb (String.eqb s ".") && negb (Py.contains Py.slash s).

Definition wf (p : Path) : Prop := Forall (fun s => valid_part s = true) (parts p).

(** [Path(s)]: split on "/", drop the empty and the "." components. *)
Definition parse_parts (s : string) : list string :=
  List.filter (fun x => negb (String.eqb x "") && negb (String.eqb x "."))
              (Py.split Py.slash s).

Definition of_str (s : string) : Path :=
  mkPath (Py.startswith "/" s) (parse_parts s).

(** [str(p)]. *)
Definition to_str (p : Path) : string :=
  if absolute p then "/" ++ Py.join "/" (parts p)
  else match parts p with
       | [] => "."
       | l => Py.join "/" l
       end.

(** [p / s] for a string [s]: an anchored right operand wins. *)
Definition joinpath (p : Path) (s : string) : Path :=
  let q := of_str s in
  if absolute q then q else mkPath (absolute p) (parts p ++ parts q).

(** [p / name] for another path's final component. *)
Definition child (p : Path) (name : string) : Path :=
  mkPath (absolute p) (parts p ++ [name]).

(** [p.name]: the final component, "" for the anchor or ".". *)
Definition name (p : Path) : string := List.last (parts p) "".

(** [p.parent]: the anchor and "." are their own parents. *)
Definition parent (p : Path) : Path :=
  mkPath (absolute p) (List.removelast (parts p)).

(** [p.suffix]: from the last dot of the name on, unless that dot opens
    or closes the name. *)
Definition suffix (p : Path) : string :=
  let n := name p in
  match Py.rfind_dot n with
  | Some i =>
      if (0 <? i)%nat && (i <? String.length n - 1)%nat then Py.drop i n else ""
  | None => ""
  end.

Fixpoint is_prefix (l1 l2 : list string) : bool :=
  match l1, l2 with
  | [], _ => true
  | x :: l1', y :: l2' => String.eqb x y && is_prefix l1' l2'
  | _ :: _, [] => false
  end.

(** [p.is_relative_to(other)]. *)
Definition is_relative_to (p other : Path) : bool :=
  Bool.eqb (absolute p) (absolute other) && is_prefix (parts other) (parts p).

(** [p.relative_to(other)], which raises [ValueError] when [p] does not
    lie under [other]. *)
Definition relative_to (p other : Path) : result Path :=
  if is_relative_to p other
  then Ok (mkPath false (List.skipn (List.length (parts other)) (parts p)))
  else Raise ValueError.

Definition eqb (p q : Path) : bool :=
  Bool.eqb (absolute p) (absolute q) &&
  bool_decide (parts p = parts q).

#[global] Instance Path_eq_dec : EqDecision Path.
Proof. solve_decision. Defined.

#[global] Instance Path_countable : Countable Path.
Proof.
  apply (inj_countable' (fun p => (absolute p, parts p))
                        (fun x => mkPath (fst x) (snd x))).
  intros []; reflexivity.
Defined.

End PathLib.

Import PathLib.

(** ** path_utils.py *)

(** [to_relative(absolute_path, library_root)]. *)
Definition to_relative (absolute_path library_root : Path) : string :=
match relative_to absolute_path library_root with
| Ok rel_path => to_str rel_path
| Raise _ => to_str absolute_path
end.

(** [to_absolute(relative_path, library_root)]. *)
Definition to_absolute (relative_path : string) (library_root : Path) : Path :=
joinpath library_root relative_path.

(** ** The filesystem

    A tree of directories and files, rooted at "/". The order of the
    entries of a directory is the order [os.scandir] reports them in.
    There are no symbolic links, so [Path.resolve] is the identity on the
    normalised paths used here. A file is described by what [stat] reports
    and by what each archive library makes of its bytes. *)

(** An opened archive: the entry names in archive order and the bytes (or
    the failure) [read(name)] gives. *)
Record ArchiveFile : Type := mkArchive {
  namelist : list string;
  read : string -> result string
}.

Record file_info : Type := mkFile {
  st_mtime : Z;                       (* datetime.fromtimestamp(stat.st_mtime) *)
  st_size : Z;
  as_zip : result ArchiveFile;        (* zipfile.ZipFile(path, mode="r") *)
  as_rar : result ArchiveFile         (* rarfile.RarFile(path, mode="r") *)
}.

Inductive node : Type :=
| File (i : file_info)
| Dir (st : Z * Z) (es : entries)      (* its own mtime and size, its entries *)
with entries : Type :=
| ENil
| ECons (name : string) (n : node) (rest : entries).

Fixpoint find_entry (nm : string) (es : entries) : option node :=
  match es with
  | ENil => None
  | ECons nm' n rest => if String.eqb nm nm' then Some n else find_entry nm rest
  end.

Fixpoint lookup_parts (n : node) (ps : list string) : option node :=
  match ps with
  | [] => Some n
  | nm :: ps' =>
      match n with
      | File _ => None
      | Dir _ es =>
          match find_entry nm es with
          | Some n' => lookup_parts n' ps'
          | None => None
          end
      end
  end.

(** The node at a path; the working directory is "/". *)
Definition lookup_path (fs : node) (p : Path) : option node :=
  lookup_parts fs (parts p).

(** [path.exists()]. *)
Definition exists_ (fs : node) (p : Path) : bool :=
  match lookup_path fs p with Some _ => true | None => false end.

(** [path.is_dir()]. *)
Definition is_dir (fs : node) (p : Path) : bool :=
  match lookup_path fs p with Some (Dir _ _) => true | _ => false end.

(** [path.stat()], as far as the scanner reads it. *)
Definition stat (fs : node) (p : Path) : result (Z * Z) :=
  match lookup_path fs p with
  | Some (File i) => Ok (st_mtime i, st_size i)
  | Some (Dir st _) => Ok st
  | None => Raise FileNotFoundError
  end.

(** A filesystem as the operating system keeps it: the names of a
    directory are pairwise distinct and each is a valid component. *)
Fixpoint entry_names (es : entries) : list string :=
  match es with
  | ENil => []
  | ECons nm _ rest => nm :: entry_names rest
  end.

(** [(nm, n)] is an entry of the directory listing [es]. *)
Fixpoint entry_in (nm : string) (n : node) (es : entries) : Prop :=
  match es with
  | ENil => False
  | ECons nm' n' rest => (nm = nm' /\ n = n') \/ entry_in nm n rest
  end.

Fixpoint fs_ok (n : node) : Prop :=
  match n with
  | File _ => True
  | Dir _ es =>
      List.NoDup (entry_names es)
      /\ List.Forall (fun nm => valid_part nm = true) (entry_names es)
      /\ entries_ok es
  end
with entries_ok (es : entries) : Prop :=
  match es with
  | ENil => True
  | ECons _ n rest => fs_ok n /\ entries_ok rest
  end.

(** ** archive.py *)

Module Archive.

Definition IMAGE_EXTENSIONS : list string := [".jpg"; ".jpeg"; ".png"; ".webp"].

Definition str_in (s : string) (l : list string) : bool :=
  List.existsb (String.eqb s) l.

(** [is_image(filename)]. *)
Definition is_image (filename : string) : bool :=
  str_in (Py.lower (suffix (of_str filename))) IMAGE_EXTENSIONS.

(** [archive.list_images()], the same in both wrappers. *)
Definition list_images (a : ArchiveFile) : list string :=
  List.filter is_image (namelist a).

(** [archive.list_names()]. *)
Definition list_names (a : ArchiveFile) : list string := namelist a.

(** [ZipArchiveWrapper(path)]. *)
Definition ZipArchiveWrapper (fs : node) (path : Path) : result ArchiveFile :=
  match lookup_path fs path with
  | Some (File i) => as_zip i
  | Some (Dir _ _) => Raise IsADirectoryError
  | None => Raise FileNotFoundError
  end.

(** [RarArchiveWrapper(path)]; [rarfile] tells whether the optional module
    was imported. *)
Definition RarArchiveWrapper (rarfile : bool) (fs : node) (path : Path)
  : result ArchiveFile :=
  if negb rarfile then Raise ImportError
  else match lookup_path fs path with
       | Some (File i) => as_rar i
       | Some (Dir _ _) => Raise IsADirectoryError
       | None => Raise FileNotFoundError
       end.

(** [get_archive(path)]. *)
Definition get_archive (rarfile : bool) (fs : node) (path : Path)
  : result ArchiveFile :=
  if negb (exists_ fs path) then Raise FileNotFoundError
  else
    let sfx := Py.lower (suffix path) in
    if String.eqb sfx ".cbz" then
      match ZipArchiveWrapper fs path with
      | Ok a => Ok a
      | Raise _ => RarArchiveWrapper rarfile fs path
      end
    else if String.eqb sfx ".cbr" then
      match RarArchiveWrapper rarfile fs path with
      | Ok a => Ok a
      | Raise _ => ZipArchiveWrapper fs path
      end
    else Raise ValueError.

End Archive.

(** ** SQL

    [col LIKE pattern] as SQLite evaluates it with no ESCAPE clause: "%"
    stands for any run of characters, "_" for any one character, and an
    ASCII letter matches in either case. *)

Module Sql.

(** A byte that continues a UTF-8 character. *)
Definition is_continuation (c : ascii) : bool :=
  let n := nat_of_ascii c in (128 <=? n)%nat && (n <? 192)%nat.

Fixpoint skip_continuation (s : string) : string :=
  match s with
  | String c s' => if is_continuation c then skip_continuation s' else s
  | EmptyString => EmptyString
  end.

Fixpoint like (pat s : string) : bool :=
  match pat with
  | EmptyString => match s with EmptyString => true | _ => false end
  | String p pat' =>
      if Ascii.eqb p "%" then
        (fix any (t : string) : bool :=
           like pat' t ||
           match t with
           | EmptyString => false
           | String _ t' => any t'
           end) s
      else if Ascii.eqb p "_" then
        match s with
        | EmptyString => false
        | String _ s' => like pat' (skip_continuation s')
        end
      else
        match s with
        | EmptyString => false
        | String c s' =>
            Ascii.eqb (Py.lower_ascii p) (Py.lower_ascii c) && like pat' s'
        end
  end.

(** The well-formedness of UTF-8 that matters to ["_"]: every underscore
    of [s] is followed by the first byte of a character or by nothing. *)
Definition starts_char (s : string) : bool :=
  match s with
  | String c _ => negb (is_continuation c)
  | EmptyString => true
  end.

Fixpoint underscore_ok (s : string) : bool :=
  match s with
  | EmptyString => true
  | String c s' =>
      (if Ascii.eqb c "_" then starts_char s' else true) && underscore_ok s'
  end.

End Sql.

(** ** monitor.py: the optimisation of a batch *)

Module Monitor.

(** [MonitorTask(action, path, dest_path)]. *)
Record MonitorTask : Type := mkTask {
  action : string;
  path : Path;
  dest_path : option Path
}.

#[global] Instance MonitorTask_eq_dec : EqDecision MonitorTask.
Proof. solve_decision. Defined.

(** The order of lists of strings: the first difference decides, and a
    proper prefix comes first. Strings compare by code point, which is the
    order of their UTF-8 bytes. *)
Fixpoint parts_ltb (l1 l2 : list string) : bool :=
  match l1, l2 with
  | [], [] => false
  | [], _ :: _ => true
  | _ :: _, [] => false
  | x :: l1', y :: l2' =>
      match String.compare x y with
      | Lt => true
      | Gt => false
      | Eq => parts_ltb l1' l2'
      end
  end.

(** The components pathlib compares: the anchor counts as the first. *)
Definition cparts (p : Path) : list string :=
  if absolute p then "/" :: parts p else parts p.

(** [p < q] on paths. *)
Definition path_ltb (p q : Path) : bool := parts_ltb (cparts p) (cparts q).

(** [sorted(l)] by a key: a stable sort, here by insertion; an element goes
    in front of the first one whose key is greater than its own. *)
Fixpoint insert_sorted {A : Type} (key : A -> Path) (x : A) (l : list A) : list A :=
  match l with
  | [] => [x]
  | y :: l' =>
      if path_ltb (key x) (key y) then x :: y :: l'
      else y :: insert_sorted key x l'
  end.

Definition sorted {A : Type} (key : A -> Path) (l : list A) : list A :=
  List.fold_left (fun acc x => insert_sorted key x acc) l [].

(** A dict keyed by paths, in insertion order. *)
Definition taskdict : Type := list (Path * MonitorTask).

(** [d[k] = v]: a key that is there keeps its place and takes the value. *)
Fixpoint dict_set (k : Path) (v : MonitorTask) (d : taskdict) : taskdict :=
  match d with
  | [] => [(k, v)]
  | (k', v') :: d' =>
      if bool_decide (k = k') then (k', v) :: d'
      else (k', v') :: dict_set k v d'
  end.

Fixpoint dict_lookup (k : Path) (d : taskdict) : option MonitorTask :=
  match d with
  | [] => None
  | (k', v) :: d' => if bool_decide (k = k') then Some v else dict_lookup k d'
  end.

(** [{t.path: t for t in tasks if t.action == act}]. *)
Definition by_action (act : string) (tasks : list MonitorTask) : taskdict :=
  List.fold_left
    (fun d t => if String.eqb (action t) act then dict_set (path t) t d else d)
    tasks [].

Definition keys (d : taskdict) : list Path := List.map fst d.
Definition values (d : taskdict) : list MonitorTask := List.map snd d.

(** The test of the two pruning loops: some path already kept is a proper
    ancestor of [p]. *)
Definition has_kept_ancestor (p : Path) (kept : taskdict) : bool :=
  List.existsb (fun parent => negb (bool_decide (p = parent)) && is_relative_to p parent)
               (keys kept).

(** The pruning loop over the sorted keys of [d]. *)
Fixpoint prune (d : taskdict) (sorted_paths : list Path) (final : taskdict) : taskdict :=
  match sorted_paths with
  | [] => final
  | p :: rest =>
      if has_kept_ancestor p final then prune d rest final
      else match dict_lookup p d with
           | Some t => prune d rest (final ++ [(p, t)])
           | None => prune d rest final          (* KeyError: [p] is a key of [d] *)
           end
  end.

Definition final_of (d : taskdict) : taskdict :=
  prune d (sorted id (keys d)) [].

Definition final_scan_folders (tasks : list MonitorTask) : taskdict :=
  final_of (by_action "scan_folder" tasks).

Definition final_deletes (tasks : list MonitorTask) : taskdict :=
  final_of (by_action "delete" tasks).

Definition moves (tasks : list MonitorTask) : list MonitorTask :=
  List.filter (fun t => String.eqb (action t) "move") tasks.

(** The file scans no kept folder scan covers, in the order of the dict. *)
Definition final_scan_files (tasks : list MonitorTask) : list MonitorTask :=
  List.map snd
    (List.filter
       (fun kv => negb (List.existsb (fun folder_path => is_relative_to (fst kv) folder_path)
                                     (keys (final_scan_folders tasks))))
       (by_action "scan_file" tasks)).

(** [optimize_tasks(tasks)]. *)
Definition optimize_tasks (tasks : list MonitorTask) : list MonitorTask :=
  match tasks with
  | [] => []
  | _ =>
      values (final_deletes tasks)
        ++ moves tasks
        ++ sorted path (values (final_scan_folders tasks))
        ++ final_scan_files tasks
  end.

(** The last task of the batch with a given action and path: the one a
    dict comprehension keeps under that path. *)
Definition last_task (act : string) (p : Path) (tasks : list MonitorTask)
  : option MonitorTask :=
  List.find (fun t => String.eqb (action t) act && bool_decide (path t = p))
            (List.rev tasks).

(** [a] does not come after [b] in the order of paths. *)
Definition path_le (a b : Path) : Prop := path_ltb b a = false.

Definition key_le {A : Type} (key : A -> Path) (x y : A) : Prop :=
  path_le (key x) (key y).

(** [q] is a proper ancestor of [p]. *)
Definition covers (q p : Path) : Prop := p <> q /\ is_relative_to p q = true.

(** No path of the list is a proper ancestor of another. *)
Definition antichain (ks : list Path) : Prop :=
  forall p q, In p ks -> In q ks -> ~ covers q p.

End Monitor.

(** ** The libraries and the environment the code calls into

    What the code obtains from outside the repository is a variable of
    this section: the XML parser, the two string built-ins whose Unicode
    behaviour is not spelled out here, the image library, the clock and
    the UUID generator. *)

Section Environment.

Set Default Proof Using "Type".

(** [rarfile is not None]: the optional module was imported. *)
Variable rarfile : bool.

(** [ET.fromstring(xml_bytes)], as far as the parser reads the tree: the
    children of the root, each with its tag and its text. A malformed
    document raises [ET.ParseError]; a document that declares a multi-byte
    encoding such as shift_jis raises [ValueError] instead, and one that
    declares an encoding Python does not know raises [LookupError]. *)
Variable ET_fromstring : string -> result (list (string * option string)).

(** [s.strip()] on a [str]. *)
Variable str_strip : string -> string.

(** [int(s)], [None] standing for [ValueError]. *)
Variable py_int : string -> option Z.

(** [_save_thumbnail] on the bytes of an image: whether Pillow decodes,
    resizes and writes it without raising. *)
Variable save_thumbnail_ok : string -> bool.

(** [datetime.now(timezone.utc)] and [uuid.uuid4()] at the n-th call. *)
Variable now : nat -> Z.
Variable uuid4 : nat -> string.

(** ** comicinfo.py *)

(** A metadata value: the columns hold text, integers, flags and times. *)
Inductive pyval : Type :=
| VStr (s : string)
| VInt (z : Z)
| VBool (b : bool)
| VTime (t : Z).

Definition TAG_MAP : list (string * string) :=
  [ ("title", "title"); ("writer", "writer"); ("penciller", "penciller");
    ("issue", "issue_number"); ("month", "month"); ("year", "year");
    ("notes", "notes"); ("summary", "summary"); ("web", "web");
    ("languageiso", "language_iso"); ("genre", "genre");
    ("publisher", "publisher") ].

Record ComicInfoParsed : Type := mkComicInfoParsed {
  ci_title : option string;
  ci_issue_number : option Z;
  ci_publisher : option string;
  ci_year : option Z;
  ci_month : option Z;
  ci_writer : option string;
  ci_penciller : option string;
  ci_summary : option string;
  ci_notes : option string;
  ci_web : option string;
  ci_language_iso : option string;
  ci_genre : option string
}.

Record ComicMetadataUpdate : Type := mkComicMetadataUpdate {
  mu_series : option string;
  mu_title : option string;
  mu_issue_number : option Z;
  mu_publisher : option string;
  mu_year : option Z;
  mu_month : option Z;
  mu_writer : option string;
  mu_penciller : option string;
  mu_summary : option string;
  mu_notes : option string;
  mu_web : option string;
  mu_language_iso : option string;
  mu_genre : option string
}.

(** [ComicInfoParsed()]: every field absent. *)
Definition ComicInfoParsed_empty : ComicInfoParsed :=
  mkComicInfoParsed None None None None None None None None None None None None.

(** A Python dict with string keys, in insertion order. *)
Definition pydict : Type := list (string * pyval).

Fixpoint dict_get (k : string) (d : pydict) : option pyval :=
  match d with
  | [] => None
  | (k', v) :: d' => if String.eqb k k' then Some v else dict_get k d'
  end.

Definition get_str (k : string) (d : pydict) : option string :=
  match dict_get k d with Some (VStr s) => Some s | _ => None end.

Definition get_int (k : string) (d : pydict) : option Z :=
  match dict_get k d with Some (VInt z) => Some z | _ => None end.

(** [ComicInfoParsed.model_validate(raw)] on a dict whose values have the
    types of the fields. *)
Definition ComicInfoParsed_validate (raw : pydict) : ComicInfoParsed :=
  mkComicInfoParsed
    (get_str "title" raw) (get_int "issue_number" raw) (get_str "publisher" raw)
    (get_int "year" raw) (get_int "month" raw) (get_str "writer" raw)
    (get_str "penciller" raw) (get_str "summary" raw) (get_str "notes" raw)
    (get_str "web" raw) (get_str "language_iso" raw) (get_str "genre" raw).

Definition item_str (k : string) (o : option string) : pydict :=
  match o with Some s => [(k, VStr s)] | None => [] end.

Definition item_int (k : string) (o : option Z) : pydict :=
  match o with Some z => [(k, VInt z)] | None => [] end.

(** [comicinfo.model_dump(exclude_none=True)], in field order. *)
Definition ComicInfoParsed_dump (c : ComicInfoParsed) : pydict :=
  item_str "title" (ci_title c) ++ item_int "issue_number" (ci_issue_number c) ++
  item_str "publisher" (ci_publisher c) ++ item_int "year" (ci_year c) ++
  item_int "month" (ci_month c) ++ item_str "writer" (ci_writer c) ++
  item_str "penciller" (ci_penciller c) ++ item_str "summary" (ci_summary c) ++
  item_str "notes" (ci_notes c) ++ item_str "web" (ci_web c) ++
  item_str "language_iso" (ci_language_iso c) ++ item_str "genre" (ci_genre c).

(** [ComicMetadataUpdate(series=series, **fields)]. *)
Definition ComicMetadataUpdate_make (series : option string) (fields : pydict)
  : ComicMetadataUpdate :=
  mkComicMetadataUpdate series
    (get_str "title" fields) (get_int "issue_number" fields)
    (get_str "publisher" fields) (get_int "year" fields) (get_int "month" fields)
    (get_str "writer" fields) (get_str "penciller" fields)
    (get_str "summary" fields) (get_str "notes" fields) (get_str "web" fields)
    (get_str "language_iso" fields) (get_str "genre" fields).

(** [payload.model_dump(exclude_none=True)], in field order. *)
Definition ComicMetadataUpdate_dump (p : ComicMetadataUpdate) : pydict :=
  item_str "series" (mu_series p) ++
  item_str "title" (mu_title p) ++ item_int "issue_number" (mu_issue_number p) ++
  item_str "publisher" (mu_publisher p) ++ item_int "year" (mu_year p) ++
  item_int "month" (mu_month p) ++ item_str "writer" (mu_writer p) ++
  item_str "penciller" (mu_penciller p) ++ item_str "summary" (mu_summary p) ++
  item_str "notes" (mu_notes p) ++ item_str "web" (mu_web p) ++
  item_str "language_iso" (mu_language_iso p) ++ item_str "genre" (mu_genre p).

(** The value a payload supplies for the column [k], if it supplies one:
    the field of that name when it is not [None]. *)
Definition payload_field (p : ComicMetadataUpdate) (k : string) : option pyval :=
  if String.eqb k "series" then option_map VStr (mu_series p)
  else if String.eqb k "title" then option_map VStr (mu_title p)
  else if String.eqb k "issue_number" then option_map VInt (mu_issue_number p)
  else if String.eqb k "publisher" then option_map VStr (mu_publisher p)
  else if String.eqb k "year" then option_map VInt (mu_year p)
  else if String.eqb k "month" then option_map VInt (mu_month p)
  else if String.eqb k "writer" then option_map VStr (mu_writer p)
  else if String.eqb k "penciller" then option_map VStr (mu_penciller p)
  else if String.eqb k "summary" then option_map VStr (mu_summary p)
  else if String.eqb k "notes" then option_map VStr (mu_notes p)
  else if String.eqb k "web" then option_map VStr (mu_web p)
  else if String.eqb k "language_iso" then option_map VStr (mu_language_iso p)
  else if String.eqb k "genre" then option_map VStr (mu_genre p)
  else None.

(** [_text(elem)] for an element that is there. *)
Definition _text (text : option string) : option string :=
  match text with
  | None => None
  | Some t => let t' := str_strip t in if String.eqb t' "" then None else Some t'
  end.

(** [_int_or_none(s)]. *)
Definition _int_or_none (s : option string) : option Z :=
  match s with
  | None => None
  | Some s' => py_int (str_strip s')
  end.

(** [_local_name(tag)]. *)
Definition _local_name (tag : string) : string :=
  if Py.contains "}"%char tag
  then Py.lower (List.last (Py.split "}"%char tag) "")
  else Py.lower tag.

(** [by_lower.get(k)] for [by_lower = {_local_name(elem.tag): elem for elem
    in root}]: of several children with one local name the last stays. *)
Definition by_lower_get (k : string) (children : list (string * option string))
  : option (option string) :=
  match List.find (fun e => String.eqb (_local_name (fst e)) k) (List.rev children) with
  | Some e => Some (snd e)
  | None => None
  end.

Definition is_int_key (k : string) : bool :=
  String.eqb k "issue_number" || String.eqb k "month" || String.eqb k "year".

(** The loop of [parse_comicinfo_xml] over [TAG_MAP.items()]. *)
Fixpoint parse_loop (children : list (string * option string))
  (tags : list (string * string)) (raw : pydict) : pydict :=
  match tags with
  | [] => raw
  | (xml_tag_lower, our_key) :: tags' =>
      let text := match by_lower_get xml_tag_lower children with
                  | Some t => _text t
                  | None => None
                  end in
      match text with
      | None => parse_loop children tags' raw
      | Some t =>
          if is_int_key our_key then
            match _int_or_none (Some t) with
            | Some val => parse_loop children tags' (raw ++ [(our_key, VInt val)])
            | None => parse_loop children tags' raw
            end
          else parse_loop children tags' (raw ++ [(our_key, VStr t)])
      end
  end.

(** [parse_comicinfo_xml(xml_bytes)]. Only [ET.ParseError] is caught: any
    other exception of the parser escapes. *)
Definition parse_comicinfo_xml (xml_bytes : string) : result ComicInfoParsed :=
  match ET_fromstring xml_bytes with
  | Raise XMLParseError => Ok ComicInfoParsed_empty
  | Raise e => Raise e
  | Ok children => Ok (ComicInfoParsed_validate (parse_loop children TAG_MAP []))
  end.

(** A byte that [bytes.strip()] removes. *)
Definition is_space (c : ascii) : bool :=
  let n := nat_of_ascii c in
  (n =? 32)%nat || ((9 <=? n)%nat && (n <=? 13)%nat).

(** [not raw.strip()]: only white space, or nothing at all. *)
Fixpoint bytes_blank (raw : string) : bool :=
  match raw with
  | EmptyString => true
  | String c raw' => is_space c && bytes_blank raw'
  end.

(** [Path(n).name.lower() == "comicinfo.xml"]. *)
Definition is_comicinfo_name (n : string) : bool :=
  String.eqb (Py.lower (name (of_str n))) "comicinfo.xml".

(** [read_comicinfo_from_archive(archive_path)]; the [option] is Python's
    [Optional]: [None] is the value [None], not a record. The [try] ends
    with the read of the entry: every exception up to there gives [None],
    and the call of [parse_comicinfo_xml] comes after it, so what that
    raises escapes. *)
Definition read_comicinfo_from_archive (fs : node) (archive_path : Path)
  : result (option ComicInfoParsed) :=
  match Archive.get_archive rarfile fs archive_path with
  | Raise _ => Ok None
  | Ok archive =>
      match List.find is_comicinfo_name (Archive.list_names archive) with
      | None => Ok None
      | Some comicinfo_name =>
          match read archive comicinfo_name with
          | Raise _ => Ok None
          | Ok raw =>
              if bytes_blank raw then Ok None
              else bind (parse_comicinfo_xml raw) (fun parsed => Ok (Some parsed))
          end
      end
  end.

(** [comicinfo.model_dump(exclude_none=True) if comicinfo else {}], the
    fields [process_comic] hands to the metadata merge. *)
Definition comicinfo_fields_of (comicinfo : option ComicInfoParsed) : pydict :=
  match comicinfo with
  | Some ci => ComicInfoParsed_dump ci
  | None => []
  end.

(** ** models.py: the tables *)

Record Folder : Type := mkFolder {
  f_id : Z;
  f_name : string;
  f_path : string;                    (* unique *)
  f_parent_id : option Z;
  f_created_at : Z
}.

Record Comic : Type := mkComic {
  c_id : Z;
  c_uuid : string;
  c_filename : string;
  c_path : string;                    (* unique *)
  c_format : string;
  c_file_size : Z;
  c_page_count : Z;
  c_file_modified_at : Z;
  c_last_scanned_at : option Z;
  c_thumbnail_generated : bool;
  c_folder_id : option Z;
  c_created_at : Z
}.

(** A metadata row: its keys and its columns by name; a column that is not
    in the map holds NULL. *)
Record ComicMetadata : Type := mkComicMetadata {
  m_id : Z;
  m_comic_id : Z;
  m_attrs : gmap string pyval
}.

(** [ComicMetadata(comic_id=...)] before it has an id: [is_completed]
    defaults to [False], every other column to [None]. *)
Definition ComicMetadata_default_attrs : gmap string pyval :=
  {[ "is_completed" := VBool false ]}.

(** What a run changes: the three tables as the session sees them (rows in
    primary-key order), the thumbnail files by UUID, and the number of
    calls made so far to the clock and the UUID generator. *)
Record State : Type := mkState {
  folders : list Folder;
  comics : list Comic;
  metadata : list ComicMetadata;
  thumbnails : gset string;
  ticks : nat
}.

Definition set_folders (l : list Folder) (st : State) : State :=
  mkState l (comics st) (metadata st) (thumbnails st) (ticks st).

Definition set_comics (l : list Comic) (st : State) : State :=
  mkState (folders st) l (metadata st) (thumbnails st) (ticks st).

Definition set_metadata (l : list ComicMetadata) (st : State) : State :=
  mkState (folders st) (comics st) l (thumbnails st) (ticks st).

Definition set_thumbnails (t : gset string) (st : State) : State :=
  mkState (folders st) (comics st) (metadata st) t (ticks st).

Definition tick (st : State) : State :=
  mkState (folders st) (comics st) (metadata st) (thumbnails st) (S (ticks st)).

(** The id SQLite gives a new row of an INTEGER PRIMARY KEY table: one
    more than the largest in use. *)
Definition next_id (ids : list Z) : Z := (1 + List.fold_right Z.max 0 ids)%Z.

(** ** repository.py

    Every method takes the resolved library root the [Repository] was built
    with. [session.add], [flush] and [refresh] on rows the code has just
    read or built are the writes to the tables below; [commit] makes them
    durable and changes nothing a later read sees. *)

(** The stored paths of the items. *)
Definition comic_paths (st : State) : list string := List.map c_path (comics st).

(** The ids of the items are pairwise distinct, as the PRIMARY KEY of the
    table has them. *)
Definition comic_ids_unique (st : State) : Prop :=
  List.NoDup (List.map c_id (comics st)).

(** A stored path is canonical when it is the relative path of the file it
    names, as [to_relative] writes it. *)
Definition canonical (library_root : Path) (p : string) : Prop :=
  to_relative (to_absolute p library_root) library_root = p.

Section Repository.

Variable library_root : Path.

Definition folder_by_path (st : State) (rel : string) : option Folder :=
  List.find (fun f => String.eqb (f_path f) rel) (folders st).

Definition comic_by_path (st : State) (rel : string) : option Comic :=
  List.find (fun c => String.eqb (c_path c) rel) (comics st).

Definition metadata_of (st : State) (comic_id : Z) : option ComicMetadata :=
  List.find (fun m => Z.eqb (m_comic_id m) comic_id) (metadata st).

(** [get_or_create_folder(path)], by recursion on the components of [path]
    from the last one: [rparts] is [path.parts] reversed, so the parent is
    the path of its tail. *)
Fixpoint get_or_create_folder_rec (abs : bool) (rparts : list string) (st : State)
  : State * Folder :=
  let path := mkPath abs (List.rev rparts) in
  let rel_path_str := to_relative path library_root in
  match folder_by_path st rel_path_str with
  | Some folder => (st, folder)
  | None =>
      let '(st1, parent_id) :=
        if PathLib.eqb path library_root then (st, None)
        else
          match rparts with
          | [] => (st, None)                       (* parent_path == path *)
          | _ :: rparent =>
              if is_relative_to (mkPath abs (List.rev rparent)) library_root
              then let '(st', parent_folder) :=
                     get_or_create_folder_rec abs rparent st in
                   (st', Some (f_id parent_folder))
              else (st, None)
          end in
      let folder :=
        mkFolder (next_id (List.map f_id (folders st1)))
                 (if String.eqb (name path) "" then to_str path else name path)
                 rel_path_str parent_id (now (ticks st1)) in
      (tick (set_folders (folders st1 ++ [folder]) st1), folder)
  end.

Definition get_or_create_folder (path : Path) (st : State) : State * Folder :=
  get_or_create_folder_rec (absolute path) (List.rev (parts path)) st.

(** [upsert_comic(...)]. *)
Definition upsert_comic (folder_id : Z) (path : Path) (filename fmt : string)
  (file_size page_count file_modified_at : Z) (thumbnail_generated : bool)
  (st : State) : State * Comic :=
  let rel_path_str := to_relative path library_root in
  let now_ := now (ticks st) in
  let st := tick st in
  match comic_by_path st rel_path_str with
  | Some comic =>
      let comic' :=
        mkComic (c_id comic) (c_uuid comic) filename (c_path comic) fmt
                file_size page_count file_modified_at (Some now_)
                thumbnail_generated (Some folder_id) (c_created_at comic) in
      (set_comics
         (List.map (fun c => if Z.eqb (c_id c) (c_id comic) then comic' else c)
                   (comics st)) st,
       comic')
  | None =>
      let comic :=
        mkComic (next_id (List.map c_id (comics st))) (uuid4 (ticks st))
                filename rel_path_str fmt file_size page_count file_modified_at
                (Some now_) thumbnail_generated (Some folder_id)
                (now (S (ticks st))) in
      let meta :=
        mkComicMetadata (next_id (List.map m_id (metadata st))) (c_id comic)
                        ComicMetadata_default_attrs in
      (tick (tick (set_metadata (metadata st ++ [meta])
                     (set_comics (comics st ++ [comic]) st))),
       comic)
  end.

(** [get_comic_by_path(path)]: the row and its eagerly loaded
    [metadata_rel]. *)
Definition get_comic_by_path (path : Path) (st : State)
  : option (Comic * option ComicMetadata) :=
  match comic_by_path st (to_relative path library_root) with
  | Some c => Some (c, metadata_of st (c_id c))
  | None => None
  end.

Definition get_comic_by_uuid (comic_uuid : string) (st : State) : option Comic :=
  List.find (fun c => String.eqb (c_uuid c) comic_uuid) (comics st).

(** [session.delete(comic)] for the selected rows: the rows go, and with
    them (cascade "all, delete-orphan") their metadata rows. *)
Definition delete_comics_where (sel : Comic -> bool) (st : State)
  : State * list string :=
  let gone := List.filter sel (comics st) in
  let gone_ids := List.map c_id gone in
  (set_metadata
     (List.filter (fun m => negb (List.existsb (Z.eqb (m_comic_id m)) gone_ids))
                  (metadata st))
     (set_comics (List.filter (fun c => negb (sel c)) (comics st)) st),
   List.map c_uuid gone).

(** [delete_comic_by_path(path)]. *)
Definition delete_comic_by_path (path : Path) (st : State) : State * list string :=
  let rel_path_str := to_relative path library_root in
  delete_comics_where (fun c => String.eqb (c_path c) rel_path_str) st.

(** [delete_comics_under_path(base_path)]. *)
Definition delete_comics_under_path (base_path : Path) (st : State)
  : State * list string :=
  let rel_base_str := Py.rstrip_slash (to_relative base_path library_root) in
  delete_comics_where (fun c => Sql.like (rel_base_str ++ "/%") (c_path c)) st.

Definition opt_in (o : option Z) (ids : list Z) : bool :=
  match o with Some i => List.existsb (Z.eqb i) ids | None => false end.

(** [session.delete(folder)] for the selected rows: the rows go, and the
    rows that referred to them (child folders, comics) lose the
    reference. *)
Definition delete_folders_where (sel : Folder -> bool) (st : State) : State :=
  let gone_ids := List.map f_id (List.filter sel (folders st)) in
  set_comics
    (List.map (fun c =>
       if opt_in (c_folder_id c) gone_ids
       then mkComic (c_id c) (c_uuid c) (c_filename c) (c_path c) (c_format c)
                    (c_file_size c) (c_page_count c) (c_file_modified_at c)
                    (c_last_scanned_at c) (c_thumbnail_generated c) None
                    (c_created_at c)
       else c) (comics st))
    (set_folders
       (List.map (fun f =>
          if opt_in (f_parent_id f) gone_ids
          then mkFolder (f_id f) (f_name f) (f_path f) None (f_created_at f)
          else f)
          (List.filter (fun f => negb (sel f)) (folders st)))
       st).

(** [delete_folder_by_path(path)]: the child folders and the first row
    with exactly this path. *)
Definition delete_folder_by_path (path : Path) (st : State) : State :=
  let rel_path_str := Py.rstrip_slash (to_relative path library_root) in
  let exact_id := option_map f_id (folder_by_path st rel_path_str) in
  delete_folders_where
    (fun f => Sql.like (rel_path_str ++ "/%") (f_path f)
              || match exact_id with Some i => Z.eqb (f_id f) i | None => false end)
    st.

(** A flush of row updates, one UPDATE per changed row in primary-key
    order: a row whose new path is the current path of another row fails
    the UNIQUE constraint, and the flush raises there. [done] holds the
    rows already written, [todo] those still to visit. *)
Fixpoint flush_updates {R : Type} (path_of : R -> string) (f : R -> R)
  (done todo : list R) : result (list R) :=
  match todo with
  | [] => Ok done
  | r :: todo' =>
      let r' := f r in
      if String.eqb (path_of r') (path_of r)
      then flush_updates path_of f (done ++ [r']) todo'
      else if List.existsb (fun x => String.eqb (path_of x) (path_of r'))
                           (done ++ todo')
      then Raise IntegrityError
      else flush_updates path_of f (done ++ [r']) todo'
  end.

Definition Folder_with_path (p : string) (f : Folder) : Folder :=
  mkFolder (f_id f) (f_name f) p (f_parent_id f) (f_created_at f).

Definition Comic_with_path (p : string) (c : Comic) : Comic :=
  mkComic (c_id c) (c_uuid c) (c_filename c) p (c_format c) (c_file_size c)
          (c_page_count c) (c_file_modified_at c) (c_last_scanned_at c)
          (c_thumbnail_generated c) (c_folder_id c) (c_created_at c).

(** [update_folder_path(old_path, new_path)]. The query for the new parent
    flushes the pending change of the folder's own path and name first. *)
Definition update_folder_path (old_path new_path : Path) (st : State)
  : result (State * bool) :=
  let old_rel_str := Py.rstrip_slash (to_relative old_path library_root) in
  let new_rel_str := Py.rstrip_slash (to_relative new_path library_root) in
  match folder_by_path st old_rel_str with
  | None => Ok (st, false)
  | Some folder =>
      let own (f : Folder) := Z.eqb (f_id f) (f_id folder) in
      bind (flush_updates f_path
              (fun f => if own f
                        then mkFolder (f_id f) (name new_path) new_rel_str
                                      (f_parent_id f) (f_created_at f)
                        else f)
              [] (folders st))
        (fun fs1 =>
           let st1 := set_folders fs1 st in
           let new_parent_rel := to_relative (parent new_path) library_root in
           let parent_id := option_map f_id (folder_by_path st1 new_parent_rel) in
           let fs2 :=
             List.map (fun f => if own f
                                then mkFolder (f_id f) (f_name f) (f_path f)
                                              parent_id (f_created_at f)
                                else f) fs1 in
           bind (flush_updates f_path
                   (fun child =>
                      if Sql.like (old_rel_str ++ "/%") (f_path child)
                      then Folder_with_path
                             (Py.replace1 old_rel_str new_rel_str (f_path child)) child
                      else child)
                   [] fs2)
             (fun fs3 => Ok (set_folders fs3 st1, true)))
  end.

(** [update_comic_paths(old_base, new_base)]. *)
Definition update_comic_paths (old_base new_base : Path) (st : State)
  : result State :=
  let old_rel_str := Py.rstrip_slash (to_relative old_base library_root) in
  let new_rel_str := Py.rstrip_slash (to_relative new_base library_root) in
  bind (flush_updates c_path
          (fun comic =>
             if Sql.like (old_rel_str ++ "/%") (c_path comic)
             then Comic_with_path
                    (Py.replace1 old_rel_str new_rel_str (c_path comic)) comic
             else comic)
          [] (comics st))
    (fun cs => Ok (set_comics cs st)).

(** [set_thumbnail_generated(comic_id, generated)]. *)
Definition set_thumbnail_generated (comic_id : Z) (generated : bool) (st : State)
  : State :=
  set_comics
    (List.map (fun c =>
       if Z.eqb (c_id c) comic_id
       then mkComic (c_id c) (c_uuid c) (c_filename c) (c_path c) (c_format c)
                    (c_file_size c) (c_page_count c) (c_file_modified_at c)
                    (c_last_scanned_at c) generated (c_folder_id c) (c_created_at c)
       else c) (comics st)) st.

(** [folder_has_subfolders(folder_id)]. *)
Definition folder_has_subfolders (folder_id : Z) (st : State) : bool :=
  (0 <? List.length
          (List.filter (fun f => match f_parent_id f with
                                 | Some p => Z.eqb p folder_id
                                 | None => false
                                 end) (folders st)))%nat.

(** The loop [for key, value in ...: setattr(meta, key, value)]. *)
Definition setattrs (items : pydict) (attrs : gmap string pyval) : gmap string pyval :=
  List.fold_left (fun a kv => <[ fst kv := snd kv ]> a) items attrs.

(** What SQLite stores as INTEGER: a signed 64-bit number. The driver
    raises [OverflowError] when it is handed a Python [int] outside of that
    range. *)
Definition int64 (z : Z) : bool :=
  (- 2 ^ 63 <=? z)%Z && (z <? 2 ^ 63)%Z.

(** Every [int] among the values of a payload can be stored. *)
Definition pydict_fits (items : pydict) : bool :=
  List.forallb (fun kv => match snd kv with
                          | VInt z => int64 z
                          | _ => true
                          end) items.

(** [update_comic_metadata(comic_id, payload)]. The first [flush] inserts
    the new row, and the foreign key of [metadata.comic_id] fails it when no
    item has that id; the second [flush] writes the fields that were set, and
    the driver refuses an [int] that SQLite cannot store. *)
Definition update_comic_metadata (comic_id : Z) (payload : ComicMetadataUpdate)
  (st : State) : result State :=
  bind
    match metadata_of st comic_id with
    | Some meta => Ok (st, meta)
    | None =>
        let meta := mkComicMetadata (next_id (List.map m_id (metadata st)))
                                    comic_id ComicMetadata_default_attrs in
        if List.existsb (fun c => Z.eqb (c_id c) comic_id) (comics st)
        then Ok (set_metadata (metadata st ++ [meta]) st, meta)
        else Raise IntegrityError
    end
    (fun '(st1, meta) =>
       let items := ComicMetadataUpdate_dump payload in
       let meta' :=
         mkComicMetadata (m_id meta) (m_comic_id meta)
                         (setattrs items (m_attrs meta)) in
       if pydict_fits items
       then Ok (set_metadata
                  (List.map (fun m => if Z.eqb (m_id m) (m_id meta) then meta' else m)
                            (metadata st1)) st1)
       else Raise OverflowError).

(** [get_comic_by_id(comic_id)]. *)
Definition get_comic_by_id (comic_id : Z) (st : State) : option Comic :=
  List.find (fun c => Z.eqb (c_id c) comic_id) (comics st).

(** The read methods the thumbnail commands use. *)
Definition get_all_comics (st : State) : list Comic := comics st.

Definition get_missing_thumbnails_comics (st : State) : list Comic :=
  List.filter (fun c => negb (c_thumbnail_generated c)) (comics st).

Definition get_valid_thumbnail_uuids (st : State) : gset string :=
  list_to_set (List.map c_uuid (comics st)).

End Repository.

(** ** utils.py, thumbnails.py *)

(** [delete_thumbnails(comic_uuids, thumbnails_dir)]: the files that are
    there are unlinked. *)
Definition delete_thumbnails (comic_uuids : list string) (st : State) : State :=
  set_thumbnails (thumbnails st ∖ list_to_set comic_uuids) st.

(** [cleanup_orphaned_thumbnails(config)]: the loop over the [*.jpg] files
    of the thumbnail directory, in the order the directory lists them; a
    file whose stem is the uuid of no item is unlinked and counted. A
    directory that is not there holds no file. *)
Definition cleanup_orphaned_thumbnails (st : State) : State * Z :=
  let valid_uuids : gset string :=
    list_to_set (List.map c_uuid (get_all_comics st)) in
  List.fold_left
    (fun (acc : State * Z) comic_uuid =>
       if bool_decide (comic_uuid ∉ valid_uuids)
       then (set_thumbnails (thumbnails (fst acc) ∖ {[ comic_uuid ]}) (fst acc),
             (snd acc + 1)%Z)
       else acc)
    (elements (thumbnails st)) (st, 0%Z).

(** [sorted(images)[0]] for a non-empty list: the least name in the order
    of [str]. *)
Fixpoint least (x : string) (l : list string) : string :=
  match l with
  | [] => x
  | y :: l' => if String.ltb y x then least y l' else least x l'
  end.

(** [_extract_first_image_bytes(path)]; [None] for every failure. *)
Definition _extract_first_image_bytes (fs : node) (path : Path) : option string :=
  match Archive.get_archive rarfile fs path with
  | Raise _ => None
  | Ok archive =>
      match Archive.list_images archive with
      | [] => None
      | x :: l =>
          match read archive (least x l) with
          | Ok b => Some b
          | Raise _ => None
          end
      end
  end.

(** ** scanner.py *)

(** The part of [IssuedConfig] the scanner reads. *)
Record IssuedConfig : Type := mkConfig {
  library_path : Path;
  ignore_patterns : list string
}.

Section Scanner.

Variable config : IssuedConfig.
Variable fs : node.

(** [generate_thumbnail_for_comic(comic_uuid, comic_path, config, repo)]. *)
Definition generate_thumbnail_for_comic (comic_uuid : string) (comic_path : Path)
  (st : State) : State * bool :=
  if negb (exists_ fs comic_path) then (st, false)
  else
    match _extract_first_image_bytes fs comic_path with
    | None => (st, false)
    | Some img_bytes =>
        if String.eqb img_bytes "" then (st, false)
        else if negb (save_thumbnail_ok img_bytes) then (st, false)
        else
          let st1 := set_thumbnails (thumbnails st ∪ {[ comic_uuid ]}) st in
          match get_comic_by_uuid comic_uuid st1 with
          | Some comic => (set_thumbnail_generated (c_id comic) true st1, true)
          | None => (st1, true)
          end
    end.

Definition COMIC_EXTENSIONS : list string := [".cbz"; ".cbr"].

(** [is_comic_file(path)]. *)
Definition is_comic_file (path : Path) : bool :=
  Archive.str_in (Py.lower (suffix path)) COMIC_EXTENSIONS.

(** [_should_ignore(name, ignore_patterns)]. *)
Definition _should_ignore (nm : string) (patterns : list string) : bool :=
  if Py.startswith "._" nm then true else Archive.str_in nm patterns.

Definition is_dir_node (n : node) : bool :=
  match n with Dir _ _ => true | File _ => false end.

(** The [filenames] of one [os.walk] step that pass the filter of
    [walk_library], joined to the directory. *)
Fixpoint comic_files_of (dir_path : Path) (patterns : list string) (es : entries)
  : list Path :=
  match es with
  | ENil => []
  | ECons f n rest =>
      if negb (is_dir_node n) && negb (_should_ignore f patterns)
         && is_comic_file (of_str f)
      then child dir_path f :: comic_files_of dir_path patterns rest
      else comic_files_of dir_path patterns rest
  end.

(** [os.walk(dir_path)] top-down, with the ignored directory names taken
    out of [dirnames] before the descent. *)
Fixpoint walk_node (patterns : list string) (dir_path : Path) (n : node)
  : list (Path * list Path) :=
  match n with
  | File _ => []
  | Dir _ es =>
      (dir_path, comic_files_of dir_path patterns es)
        :: walk_entries patterns dir_path es
  end
with walk_entries (patterns : list string) (dir_path : Path) (es : entries)
  : list (Path * list Path) :=
  match es with
  | ENil => []
  | ECons d n rest =>
      (if is_dir_node n && negb (_should_ignore d patterns)
       then walk_node patterns (child dir_path d) n
       else [])
        ++ walk_entries patterns dir_path rest
  end.

(** [walk_library(root, ignore_patterns)], the generator run to its end. *)
Definition walk_library (root : Path) (patterns : list string)
  : list (Path * list Path) :=
  match lookup_path fs root with
  | Some n => walk_node patterns root n
  | None => []
  end.

(** [validate_and_count_pages(path)]. *)
Definition validate_and_count_pages (path : Path) : result Z :=
  match Archive.get_archive rarfile fs path with
  | Ok archive => Ok (Z.of_nat (List.length (Archive.list_images archive)))
  | Raise e => Raise e
  end.

(** The truth value of a [datetime]: the class defines neither [__bool__]
    nor [__len__], so every instance is true. *)
Definition datetime_truthy (d : Z) : bool := true.

(** [_should_skip_comic(comic_in_db, file_mtime, force)]. *)
Definition _should_skip_comic (comic_in_db : option (Comic * option ComicMetadata))
  (file_mtime : Z) (force : bool) : bool :=
  match comic_in_db with
  | None => false
  | Some (comic, metadata_rel) =>
      if force then false
      else if negb (datetime_truthy (c_file_modified_at comic)) then false
      else if negb (Z.eqb (c_file_modified_at comic) file_mtime) then false
      else match metadata_rel with
           | None => false
           | Some _ => true
           end
  end.

(** What [process_comic] returns:
    [(comic_uuid, was_existing, should_skip, thumbnail_generated)]. *)
Definition outcome : Type := (option string * bool * bool * bool)%type.

(** How a call that works on an open session ends. [value] is what the call
    returns, with the tables as the session sees them then, or what it
    raises. [durable] is the tables as of the last [repo.commit()] the call
    reached, [None] when it reached none: what was flushed and not committed
    is gone once the session is closed. *)
Record ended (A : Type) : Type := mkEnded {
  durable : option State;
  value : result A
}.
#[global] Arguments mkEnded {A} durable value.
#[global] Arguments durable {A} e.
#[global] Arguments value {A} e.

(** The tables once the session is closed, [committed] being what they were
    at the last commit before the call. *)
Definition closed {A : Type} (committed : State) (r : ended A) : State :=
  match durable r with
  | Some s => s
  | None => committed
  end.

(** The exception a call ended with, if any. *)
Definition raised {A : Type} (r : result A) : option exn :=
  match r with
  | Ok _ => None
  | Raise e => Some e
  end.

(** Whether [generate_thumbnail_for_comic] reaches its [repo.commit()]: the
    thumbnail was saved and the row of that uuid is there. *)
Definition generate_thumbnail_commits (comic_uuid : string) (comic_path : Path)
  (st : State) : bool :=
  snd (generate_thumbnail_for_comic comic_uuid comic_path st)
  && match get_comic_by_uuid comic_uuid st with
     | Some _ => true
     | None => false
     end.

(** [process_comic(comic_path, folder_id, config, repo, force)]. After the
    upsert nothing is caught: what [read_comicinfo_from_archive] or
    [update_comic_metadata] raises leaves the function, and the final
    [repo.commit()] is not reached. *)
Definition process_comic (comic_path : Path) (folder_id : Z) (force : bool)
  (st : State) : ended (State * outcome) :=
  let root := library_path config in
  match stat fs comic_path with
  | Raise _ => mkEnded None (Ok (st, (None, false, true, false)))
  | Ok (file_mtime, file_size) =>
      let comic_in_db := get_comic_by_path root comic_path st in
      let existing := match comic_in_db with Some _ => true | None => false end in
      if _should_skip_comic comic_in_db file_mtime force
      then mkEnded None (Ok (st, (None, existing, true, false)))
      else
        match validate_and_count_pages comic_path with
        | Raise _ =>
            if existing then
              let '(st1, deleted_uuids) := delete_comic_by_path root comic_path st in
              let st' := match deleted_uuids with
                         | [] => st1
                         | _ => delete_thumbnails deleted_uuids st1
                         end in
              mkEnded (Some st') (Ok (st', (None, existing, true, false)))
            else mkEnded None (Ok (st, (None, existing, true, false)))
        | Ok page_count =>
            let fmt := Py.lstrip_dot (Py.lower (suffix comic_path)) in
            let thumb_gen := match comic_in_db with
                             | Some (c, _) => c_thumbnail_generated c
                             | None => false
                             end in
            let '(st1, comic) :=
              upsert_comic root folder_id comic_path (name comic_path) fmt
                           file_size page_count file_mtime thumb_gen st in
            let '(st2, thumb_success) :=
              generate_thumbnail_for_comic (c_uuid comic) comic_path st1 in
            let saved :=
              if generate_thumbnail_commits (c_uuid comic) comic_path st1
              then Some st2 else None in
            match read_comicinfo_from_archive fs comic_path with
            | Raise e => mkEnded saved (Raise e)
            | Ok comicinfo =>
                let is_leaf := negb (folder_has_subfolders folder_id st2) in
                let series_from_folder :=
                  if is_leaf then Some (name (parent comic_path)) else None in
                let comicinfo_fields := comicinfo_fields_of comicinfo in
                let flushed :=
                  match comicinfo_fields with
                  | _ :: _ =>
                      update_comic_metadata (c_id comic)
                        (ComicMetadataUpdate_make series_from_folder comicinfo_fields) st2
                  | [] =>
                      match series_from_folder with
                      | Some s =>
                          update_comic_metadata (c_id comic)
                            (ComicMetadataUpdate_make (Some s) []) st2
                      | None => Ok st2
                      end
                  end in
                match flushed with
                | Raise e => mkEnded saved (Raise e)
                | Ok st3 =>
                    mkEnded (Some st3)
                            (Ok (st3, (Some (c_uuid comic), existing, false, thumb_success)))
                end
            end
        end
  end.

(** The counters [scan_library] returns. *)
Record Stats : Type := mkStats { added : Z; updated : Z; deleted : Z; skipped : Z }.



(** The inner loop of [scan_library] over the comic files of one
    directory. What [process_comic] raises ends the scan. *)
Fixpoint scan_files (folder_id : Z) (force : bool) (comic_files : list Path)
  (acc : State * Stats * gset Path) : result (State * Stats * gset Path) :=
  match comic_files with
  | [] => Ok acc
  | comic_path :: rest =>
      let '(st, stats, processed_paths) := acc in
      let processed_paths := processed_paths ∪ {[ comic_path ]} in
      match value (process_comic comic_path folder_id force st) with
      | Raise e => Raise e
      | Ok (st', (_, was_existing, should_skip, _)) =>
          let stats' :=
            if should_skip
            then mkStats (added stats) (updated stats) (deleted stats) (skipped stats + 1)
            else if was_existing
            then mkStats (added stats) (updated stats + 1) (deleted stats) (skipped stats)
            else mkStats (added stats + 1) (updated stats) (deleted stats) (skipped stats) in
          scan_files folder_id force rest (st', stats', processed_paths)
      end
  end.

(** The outer loop of [scan_library] over the directories of the walk. The
    name for the log line, [dir_path.relative_to(library_root)], is computed
    for every directory but the root and raises [ValueError] for one that is
    not under the root. *)
Fixpoint scan_dirs (force : bool) (dirs : list (Path * list Path))
  (acc : State * Stats * gset Path) : result (State * Stats * gset Path) :=
  match dirs with
  | [] => Ok acc
  | (dir_path, comic_files) :: rest =>
      let '(st, stats, processed_paths) := acc in
      let library_root := library_path config in
      let '(st1, folder) := get_or_create_folder library_root dir_path st in
      bind (if negb (PathLib.eqb dir_path library_root)
            then relative_to dir_path library_root
            else Ok (of_str "."))
           (fun rel_folder =>
              bind (scan_files (f_id folder) force comic_files
                               (st1, stats, processed_paths))
                   (scan_dirs force rest))
  end.

(** The loop over [db_comics] that removes the rows of vanished files. *)
Fixpoint reconcile_comics (processed_paths : gset Path) (db_comics : list Comic)
  (acc : State * Stats) : State * Stats :=
  match db_comics with
  | [] => acc
  | comic :: rest =>
      let '(st, stats) := acc in
      let comic_abs_path := to_absolute (c_path comic) (library_path config) in
      if negb (bool_decide (comic_abs_path ∈ processed_paths))
         && negb (exists_ fs comic_abs_path)
      then
        let '(st1, deleted_uuids) :=
          delete_comic_by_path (library_path config) comic_abs_path st in
        let st2 := match deleted_uuids with
                   | [] => st1
                   | _ => delete_thumbnails deleted_uuids st1
                   end in
        reconcile_comics processed_paths rest
          (st2, mkStats (added stats) (updated stats) (deleted stats + 1) (skipped stats))
      else reconcile_comics processed_paths rest acc
  end.

(** The loop over [db_folders] that removes the rows of vanished
    directories. *)
Fixpoint reconcile_folders (db_folders : list Folder) (st : State) : State :=
  match db_folders with
  | [] => st
  | folder :: rest =>
      let folder_abs_path := to_absolute (f_path folder) (library_path config) in
      if negb (exists_ fs folder_abs_path)
      then reconcile_folders rest
             (delete_folder_by_path (library_path config) folder_abs_path st)
      else reconcile_folders rest st
  end.

(** The rows the two reconciliation queries of [scan_library] select:
    every row when the scan is of the whole library, else the rows whose
    path matches the prefix pattern (and, for folders, the base itself). *)
Definition select_comics (base : Path) (st : State) : list Comic :=
  let library_root := library_path config in
  let base_rel_str := Py.rstrip_slash (to_relative base library_root) in
  if PathLib.eqb base library_root then comics st
  else List.filter (fun c => Sql.like (base_rel_str ++ "/%") (c_path c)) (comics st).

Definition select_folders (base : Path) (st : State) : list Folder :=
  let library_root := library_path config in
  let base_rel_str := Py.rstrip_slash (to_relative base library_root) in
  if PathLib.eqb base library_root then folders st
  else List.filter (fun f => String.eqb (f_path f) base_rel_str
                             || Sql.like (base_rel_str ++ "/%") (f_path f))
                   (folders st).

(** [scan_library(config, path, force)]. An exception of the walk leaves
    the function; the last [repo.commit()] is on the way of every normal
    return. *)
Definition scan_library (path : option Path) (force : bool) (st : State)
  : result (State * Stats) :=
  let base := match path with Some p => p | None => library_path config end in
  if negb (exists_ fs base) then Raise FileNotFoundError
  else
    bind (scan_dirs force (walk_library base (ignore_patterns config))
                    (st, mkStats 0 0 0 0, ∅))
         (fun '(st1, stats1, processed_paths) =>
            let db_comics := select_comics base st1 in
            let '(st2, stats2) :=
              reconcile_comics processed_paths db_comics (st1, stats1) in
            let db_folders := select_folders base st2 in
            Ok (reconcile_folders db_folders st2, stats2)).

(** The file at [f] is as the index has it: whenever [stat] succeeds, a row
    with that mtime and a metadata row are there. *)
Definition file_unchanged (st : State) (f : Path) : Prop :=
  forall file_mtime file_size,
    stat fs f = Ok (file_mtime, file_size) ->
    exists comic meta,
      get_comic_by_path (library_path config) f st = Some (comic, Some meta) /\
      c_file_modified_at comic = file_mtime.


(** [scan_file(path, config)]: the tables as they are once the session is
    closed, and the exception the call ends with, if any. What was flushed
    and not committed, the folder row of a file that is then skipped or the
    row of a file whose sidecar cannot be read, is rolled back. *)
Definition scan_file (path : Path) (st : State) : State * option exn :=
  if negb (exists_ fs path) then (st, None)
  else
    let '(st1, folder) := get_or_create_folder (library_path config) (parent path) st in
    let r := process_comic path (f_id folder) false st1 in
    (closed st r, raised (value r)).






(** [delete_path(path, config)]. Neither branch raises before its commit;
    [path.relative_to] in the log line comes after it. *)
Definition delete_path (path : Path) (st : State) : State :=
  if is_dir fs path
     || (negb (exists_ fs path) && negb (Archive.str_in (suffix path) COMIC_EXTENSIONS))
  then
    let '(st1, comic_uuids) :=
      delete_comics_under_path (library_path config) path st in
    let st2 := delete_folder_by_path (library_path config) path st1 in
    match comic_uuids with
    | [] => st2
    | _ => delete_thumbnails comic_uuids st2
    end
  else
    let '(st1, comic_uuids) := delete_comic_by_path (library_path config) path st in
    match comic_uuids with
    | [] => st1
    | _ => delete_thumbnails comic_uuids st1
    end.

(** [generate_thumbnails(config, regenerate)]: the loop over the rows the
    query returned; a row whose file is gone, whose archive gives no first
    image or whose thumbnail cannot be saved is passed over. *)
Definition generate_thumbnails (regenerate : bool) (st : State) : State :=
  let todo := if regenerate then get_all_comics st
              else get_missing_thumbnails_comics st in
  List.fold_left
    (fun s comic =>
       let path := to_absolute (c_path comic) (library_path config) in
       if negb (exists_ fs path) then s
       else match _extract_first_image_bytes fs path with
            | None => s
            | Some img_bytes =>
                if String.eqb img_bytes "" then s
                else if negb (save_thumbnail_ok img_bytes) then s
                else set_thumbnail_generated (c_id comic) true
                       (set_thumbnails (thumbnails s ∪ {[ c_uuid comic ]}) s)
            end)
    todo st.

(** [move_path(src_path, dest_path, config)]. An exception inside the
    [try] is logged and the session is closed, which leaves the tables as
    they were at the last commit. *)
Definition move_path (src_path dest_path : Path) (st : State) : State :=
  let root := library_path config in
  let is_folder :=
    if exists_ fs dest_path then is_dir fs dest_path
    else negb (Archive.str_in (suffix src_path) COMIC_EXTENSIONS) in
  if is_folder then
    let dest_parent := parent dest_path in
    let st0 := if negb (PathLib.eqb dest_parent root)
               then fst (get_or_create_folder root dest_parent st)
               else st in
    match bind (update_folder_path root src_path dest_path st0)
               (fun r => update_comic_paths root src_path dest_path (fst r)) with
    | Ok st' => st'
    | Raise _ => st
    end
  else if negb (is_comic_file dest_path) then st
  else
    match get_comic_by_path root src_path st with
    | Some (comic, _) =>
        let '(st1, folder) := get_or_create_folder root (parent dest_path) st in
        let comic' :=
          mkComic (c_id comic) (c_uuid comic) (name dest_path)
                  (to_relative dest_path root) (c_format comic) (c_file_size comic)
                  (c_page_count comic) (c_file_modified_at comic)
                  (c_last_scanned_at comic) (c_thumbnail_generated comic)
                  (Some (f_id folder)) (c_created_at comic) in
        match flush_updates c_path
                (fun c => if Z.eqb (c_id c) (c_id comic) then comic' else c)
                [] (comics st1) with
        | Ok cs => set_comics cs st1
        | Raise _ => st
        end
    | None =>
        let '(st1, folder) := get_or_create_folder root (parent dest_path) st in
        closed st (process_comic dest_path (f_id folder) false st1)
    end.

End Scanner.


(** ** A small library, for the examples

    [/library/Comics] holds [Series/issue01.cbz], a zip archive with one
    page and a sidecar; [misnamed.cbz], whose bytes are a rar archive;
    [bad.cbz], which neither library opens; and [a_b/1.cbz] and
    [a-b/a_b 001.cbz], two sound archives in two folders. *)

Definition ex_sidecar : string := "<ComicInfo><Title>Family Feud</Title></ComicInfo>".

Definition ex_archive : ArchiveFile :=
  mkArchive ["page001.png"; "ComicInfo.xml"]
            (fun n => if String.eqb n "page001.png" then Ok "PNG"
                      else if String.eqb n "ComicInfo.xml" then Ok ex_sidecar
                      else Raise ArchiveError).

Definition ex_plain_archive : ArchiveFile :=
  mkArchive ["page001.png"]
            (fun n => if String.eqb n "page001.png" then Ok "PNG" else Raise ArchiveError).

Definition ex_zip_file (mtime : Z) (a : ArchiveFile) : node :=
  File (mkFile mtime 1000 (Ok a) (Raise ArchiveError)).

Definition ex_fs : node :=
  Dir (1, 4096)%Z
    (ECons "library" (Dir (1, 4096)%Z
       (ECons "Comics" (Dir (1, 4096)%Z
          (ECons "Series" (Dir (1, 4096)%Z
             (ECons "issue01.cbz" (ex_zip_file 10 ex_archive) ENil))
          (ECons "misnamed.cbz"
             (File (mkFile 11 1000 (Raise ArchiveError) (Ok ex_plain_archive)))
          (ECons "bad.cbz"
             (File (mkFile 12 1000 (Raise ArchiveError) (Raise ArchiveError)))
          (ECons "a_b" (Dir (1, 4096)%Z
             (ECons "1.cbz" (ex_zip_file 13 ex_plain_archive) ENil))
          (ECons "a-b" (Dir (1, 4096)%Z
             (ECons "a_b 001.cbz" (ex_zip_file 14 ex_plain_archive) ENil))
           ENil)))))) ENil)) ENil).

(** A sidecar that declares a multi-byte encoding, for which
    [ET.fromstring] raises [ValueError], in two archives: one with a page
    and one without. *)
Definition ex_sidecar_sjis : string :=
  "<?xml version='1.0' encoding='shift_jis'?><ComicInfo><Title>x</Title></ComicInfo>".

Definition ex_sjis_archive : ArchiveFile :=
  mkArchive ["page001.png"; "ComicInfo.xml"]
            (fun n => if String.eqb n "page001.png" then Ok "PNG"
                      else if String.eqb n "ComicInfo.xml" then Ok ex_sidecar_sjis
                      else Raise ArchiveError).

Definition ex_sjis_bare_archive : ArchiveFile :=
  mkArchive ["ComicInfo.xml"]
            (fun n => if String.eqb n "ComicInfo.xml" then Ok ex_sidecar_sjis
                      else Raise ArchiveError).

Definition ex_fs_sjis : node :=
  Dir (1, 4096)%Z
    (ECons "library" (Dir (1, 4096)%Z
       (ECons "Comics" (Dir (1, 4096)%Z
          (ECons "Manga" (Dir (1, 4096)%Z
             (ECons "vol1.cbz" (ex_zip_file 20 ex_sjis_archive)
             (ECons "vol2.cbz" (ex_zip_file 21 ex_sjis_bare_archive) ENil)))
           ENil)) ENil)) ENil).

Definition ex_root : Path := mkPath true ["library"; "Comics"].

Definition ex_config : IssuedConfig :=
  mkConfig ex_root [".DS_Store"; "Thumbs.db"; "@eaDir"].

Definition ex_under (l : list string) : Path := mkPath true (parts ex_root ++ l).

(** The environment of the examples: an XML parser that knows the two
    sidecars above, and a clock and a UUID generator that count. *)
Definition ex_ET_fromstring (s : string) : result (list (string * option string)) :=
  if String.eqb s ex_sidecar then Ok [("Title", Some "Family Feud")]
  else if String.eqb s ex_sidecar_sjis then Raise ValueError
  else Raise XMLParseError.

Definition ex_str_strip (s : string) : string := s.
Definition ex_py_int (s : string) : option Z := None.
Definition ex_save_thumbnail_ok (b : string) : bool := true.
Definition ex_now (n : nat) : Z := Z.of_nat n.
Definition ex_uuid4 (n : nat) : string := String.string_of_list_ascii (List.repeat "u"%char (S n)).

Definition ex_empty_state : State := mkState [] [] [] ∅ 0.

(** The index after [Series/issue01.cbz] was scanned, with a thumbnail. *)
Definition ex_comic : Comic :=
  mkComic 1 "uu" "issue01.cbz" "Series/issue01.cbz" "cbz" 1000 1 10 (Some 0%Z)
          true (Some 2%Z) 2.

Definition ex_meta : ComicMetadata :=
  mkComicMetadata 1 1 (<[ "title" := VStr "Family Feud" ]> ComicMetadata_default_attrs).

Definition ex_indexed_state : State :=
  mkState [mkFolder 1 "Comics" "." None 0; mkFolder 2 "Series" "Series" (Some 1%Z) 1]
          [ex_comic] [ex_meta] {[ "uu" ]} 5.

(** The index with a row for [bad.cbz], from a time its archive was
    sound. *)
Definition ex_bad_comic : Comic :=
  mkComic 1 "bad-uuid" "bad.cbz" "bad.cbz" "cbz" 900 3 5 (Some 0%Z) true (Some 1%Z) 2.

Definition ex_stale_state : State :=
  mkState [mkFolder 1 "Comics" "." None 0] [ex_bad_comic]
          [mkComicMetadata 1 1 ComicMetadata_default_attrs] {[ "bad-uuid" ]} 5.

Definition ex_payload : ComicMetadataUpdate :=
  mkComicMetadataUpdate (Some "Series") None (Some 3%Z) None None None None None
                        None None None None None.

(** A payload whose year is 2^63, one more than SQLite stores. *)
Definition ex_payload_big : ComicMetadataUpdate :=
  mkComicMetadataUpdate None None None None (Some (2 ^ 63)%Z) None None None
                        None None None None None.

(** A batch of the monitor: a file scan reported twice and two folder
    scans, the deeper one first in path order. *)
Definition ex_batch : list Monitor.MonitorTask :=
  [ Monitor.mkTask "scan_file" (mkPath true ["comics"; "x.cbz"]) None;
    Monitor.mkTask "scan_file" (mkPath true ["comics"; "x.cbz"]) None;
    Monitor.mkTask "scan_folder" (mkPath true ["a"; "b"]) None;
    Monitor.mkTask "scan_folder" (mkPath true ["z"]) None ].

(** The example library after [mv a_b a-b/a-b], and the index from before
    the move. *)
Definition ex_fs_moved : node :=
  Dir (1, 4096)%Z
    (ECons "library" (Dir (1, 4096)%Z
       (ECons "Comics" (Dir (1, 4096)%Z
          (ECons "a-b" (Dir (1, 4096)%Z
             (ECons "a_b 001.cbz" (ex_zip_file 14 ex_plain_archive)
             (ECons "a-b" (Dir (1, 4096)%Z
                (ECons "1.cbz" (ex_zip_file 13 ex_plain_archive) ENil))
              ENil)))
           ENil)) ENil)) ENil).

Definition ex_two_folders_state : State :=
  mkState
    [ mkFolder 1 "Comics" "." None 0;
      mkFolder 2 "a_b" "a_b" (Some 1%Z) 1;
      mkFolder 3 "a-b" "a-b" (Some 1%Z) 2 ]
    [ mkComic 1 "u1" "1.cbz" "a_b/1.cbz" "cbz" 1000 1 13 (Some 3%Z) true (Some 2%Z) 4;
      mkComic 2 "u2" "a_b 001.cbz" "a-b/a_b 001.cbz" "cbz" 1000 1 14 (Some 5%Z) true
              (Some 3%Z) 6 ]
    [ mkComicMetadata 1 1 ComicMetadata_default_attrs;
      mkComicMetadata 2 2 ComicMetadata_default_attrs ]
    {[ "u1"; "u2" ]} 8.

(** The stored paths that lie under a folder's relative path. *)
Definition paths_under (rel : string) (paths : list string) : list string :=
  List.filter (Py.startswith (rel ++ "/")) paths.

(** * Properties *)

(** ** Strings and paths *)

Lemma split_cons_ne (sep : ascii) (s : string) : Py.split sep s <> [].
Proof.
  destruct s as [|c s]; simpl; [discriminate|].
  destruct (Ascii.eqb c sep); [discriminate|].
  destruct (Py.split sep s); discriminate.
Qed.

Lemma split_no_sep (sep : ascii) (s : string) :
  Py.contains sep s = false -> Py.split sep s = [s].
Proof.
  induction s as [|c s IH]; simpl; [reflexivity|].
  intros H. apply orb_false_iff in H as [Hc Hs].
  rewrite Hc, (IH Hs). reflexivity.
Qed.

Lemma split_app_sep (sep : ascii) (x rest : string) :
  Py.contains sep x = false ->
  Py.split sep (x ++ String sep rest) = x :: Py.split sep rest.
Proof.
  induction x as [|c x IH]; simpl; intros H.
  - rewrite Ascii.eqb_refl. reflexivity.
  - apply orb_false_iff in H as [Hc Hx].
    rewrite Hc, (IH Hx). reflexivity.
Qed.

Lemma split_join (l : list string) :
  l <> [] ->
  Forall (fun s => Py.contains Py.slash s = false) l ->
  Py.split Py.slash (Py.join "/" l) = l.
Proof.
  induction l as [|x l IH]; [congruence|].
  intros _ Hall. inversion Hall as [|? ? Hx Hl]; subst.
  destruct l as [|y l].
  - simpl. apply split_no_sep, Hx.
  - change (Py.join "/" (x :: y :: l)) with (x ++ String Py.slash (Py.join "/" (y :: l)))%string.
    rewrite split_app_sep by exact Hx.
    f_equal. apply IH; [discriminate | exact Hl].
Qed.

Lemma valid_part_inv (s : string) :
  valid_part s = true ->
  s <> "" /\ s <> "." /\ Py.contains Py.slash s = false.
Proof.
  unfold valid_part. intros H.
  apply andb_true_iff in H as [H H3]. apply andb_true_iff in H as [H1 H2].
  apply negb_true_iff in H1, H2, H3.
  apply String.eqb_neq in H1, H2. auto.
Qed.

Lemma parse_parts_join (l : list string) :
  l <> [] ->
  Forall (fun s => valid_part s = true) l ->
  parse_parts (Py.join "/" l) = l.
Proof.
  intros Hne Hall. unfold parse_parts.
  rewrite split_join.
  - clear Hne. induction l as [|x l IH]; [reflexivity|].
    inversion Hall as [|? ? Hx Hl]; subst.
    simpl. apply valid_part_inv in Hx as (H1 & H2 & _).
    apply String.eqb_neq in H1, H2. rewrite H1, H2. simpl. f_equal. exact (IH Hl).
  - exact Hne.
  - eapply List.Forall_impl; [|exact Hall].
    intros s Hs. apply valid_part_inv in Hs as (_ & _ & Hs). exact Hs.
Qed.

Lemma join_not_anchored (l : list string) :
  Forall (fun s => valid_part s = true) l ->
  Py.startswith "/" (Py.join "/" l) = false.
Proof.
  destruct l as [|x l]; [reflexivity|].
  intros Hall. inversion Hall as [|? ? Hx _]; subst.
  apply valid_part_inv in Hx as (H1 & _ & H3).
  destruct x as [|c x]; [congruence|].
  simpl in H3. apply orb_false_iff in H3 as [Hc _].
  rewrite Ascii.eqb_sym in Hc. unfold Py.slash in Hc.
  assert (Hst : forall t, Py.startswith "/" (String c t) = false).
  { intros t. cbn [Py.startswith]. rewrite Hc. reflexivity. }
  destruct l; cbn [Py.join]; [apply Hst|].
  change (String c x ++ "/" ++ Py.join "/" (s :: l))%string
    with (String c (x ++ "/" ++ Py.join "/" (s :: l))%string).
  apply Hst.
Qed.

(** Reading back the string of a relative path gives the path. *)
Lemma of_str_to_str_relative (l : list string) :
  Forall (fun s => valid_part s = true) l ->
  of_str (to_str (mkPath false l)) = mkPath false l.
Proof.
  intros Hall. unfold of_str, to_str. cbn [absolute parts].
  destruct l as [|x l]; [reflexivity|]. cbv iota.
  rewrite join_not_anchored by exact Hall.
  rewrite parse_parts_join; [reflexivity | discriminate | exact Hall].
Qed.

Lemma is_prefix_spec (l1 l2 : list string) :
  is_prefix l1 l2 = true -> l2 = l1 ++ List.skipn (List.length l1) l2.
Proof.
  revert l2. induction l1 as [|x l1 IH]; intros [|y l2]; simpl; try congruence.
  intros H. apply andb_true_iff in H as [Hxy H].
  apply String.eqb_eq in Hxy. subst y. f_equal. apply IH, H.
Qed.

(** C10. For every path [p] lying under the library root, turning it into
    the stored relative string and back is the identity:
    [to_absolute (to_relative p root) root = p]. *)
Theorem to_absolute_to_relative (p root : Path) :
  wf p ->
  is_relative_to p root = true ->
  to_absolute (to_relative p root) root = p.
Proof.
  intros Hwf Hrel. unfold to_absolute, to_relative, relative_to. rewrite Hrel.
  unfold is_relative_to in Hrel. apply andb_true_iff in Hrel as [Habs Hpre].
  apply Bool.eqb_prop in Habs. apply is_prefix_spec in Hpre.
  set (rest := List.skipn (List.length (parts root)) (parts p)) in *.
  assert (Hrest : Forall (fun s => valid_part s = true) rest).
  { unfold wf in Hwf. rewrite Hpre in Hwf. apply Forall_app in Hwf as [_ Hwf].
    exact Hwf. }
  unfold joinpath. rewrite of_str_to_str_relative by exact Hrest. simpl.
  destruct p as [a l]. simpl in *. subst a. rewrite <- Hpre. reflexivity.
Qed.

(** ** archive.py *)







(** ** repository.py: the metadata merge *)

Lemma setattrs_app (a b : pydict) (attrs : gmap string pyval) :
  setattrs (a ++ b) attrs = setattrs b (setattrs a attrs).
Proof. unfold setattrs. apply List.fold_left_app. Qed.

Lemma setattrs_item_str (k : string) (o : option string) (attrs : gmap string pyval) :
  setattrs (item_str k o) attrs =
  match o with Some s => <[ k := VStr s ]> attrs | None => attrs end.
Proof. destruct o; reflexivity. Qed.

Lemma setattrs_item_int (k : string) (o : option Z) (attrs : gmap string pyval) :
  setattrs (item_int k o) attrs =
  match o with Some z => <[ k := VInt z ]> attrs | None => attrs end.
Proof. destruct o; reflexivity. Qed.

Lemma lookup_item_str_eq (k : string) (o : option string) (attrs : gmap string pyval) :
  setattrs (item_str k o) attrs !! k =
  match option_map VStr o with Some v => Some v | None => attrs !! k end.
Proof. rewrite setattrs_item_str. destruct o; cbn; [apply lookup_insert_eq | reflexivity]. Qed.

Lemma lookup_item_int_eq (k : string) (o : option Z) (attrs : gmap string pyval) :
  setattrs (item_int k o) attrs !! k =
  match option_map VInt o with Some v => Some v | None => attrs !! k end.
Proof. rewrite setattrs_item_int. destruct o; cbn; [apply lookup_insert_eq | reflexivity]. Qed.

Lemma lookup_item_str_ne (k k' : string) (o : option string) (attrs : gmap string pyval) :
  k' <> k -> setattrs (item_str k' o) attrs !! k = attrs !! k.
Proof. intros H. rewrite setattrs_item_str. destruct o; [apply lookup_insert_ne, H | reflexivity]. Qed.

Lemma lookup_item_int_ne (k k' : string) (o : option Z) (attrs : gmap string pyval) :
  k' <> k -> setattrs (item_int k' o) attrs !! k = attrs !! k.
Proof. intros H. rewrite setattrs_item_int. destruct o; [apply lookup_insert_ne, H | reflexivity]. Qed.

Ltac skip_items :=
  repeat first
    [ rewrite lookup_item_str_ne by (first [discriminate | congruence])
    | rewrite lookup_item_int_ne by (first [discriminate | congruence]) ].

(** The columns after the [setattr] loop: what the payload supplies, and
    the old value everywhere else. *)
Lemma setattrs_dump (p : ComicMetadataUpdate) (attrs : gmap string pyval) (k : string) :
  setattrs (ComicMetadataUpdate_dump p) attrs !! k =
  match payload_field p k with Some v => Some v | None => attrs !! k end.
Proof.
  unfold ComicMetadataUpdate_dump, payload_field.
  rewrite !setattrs_app.
  repeat match goal with
  | |- context [String.eqb k ?s] =>
      destruct (String.eqb_spec k s) as [-> | ?];
      [ skip_items;
        first [ rewrite lookup_item_str_eq | rewrite lookup_item_int_eq ];
        match goal with
        | |- match ?o with Some _ => _ | None => ?x end = match ?o with Some _ => _ | None => ?y end =>
            destruct o; [reflexivity|]
        end;
        skip_items; reflexivity
      | ]
  end.
  skip_items. reflexivity.
Qed.

Lemma find_map_replace {A : Type} (P : A -> bool) (same : A -> bool) (m m' : A)
  (l : list A) :
  List.find P l = Some m -> same m = true -> P m' = true ->
  List.find P (List.map (fun x => if same x then m' else x) l) = Some m'.
Proof.
  intros Hfind Hsame HP. induction l as [|x l IH]; [discriminate|].
  cbn [List.find List.map] in *. destruct (P x) eqn:HPx.
  - injection Hfind as ->. rewrite Hsame, HP. reflexivity.
  - destruct (same x); [rewrite HP; reflexivity|].
    rewrite HPx. apply IH, Hfind.
Qed.

Lemma find_app_None {A : Type} (P : A -> bool) (l : list A) (x : A) :
  List.find P l = None -> P x = true -> List.find P (l ++ [x]) = Some x.
Proof.
  intros Hnone HP. induction l as [|y l IH]; cbn [List.find List.app] in *.
  - rewrite HP. reflexivity.
  - destruct (P y); [discriminate|]. apply IH, Hnone.
Qed.

Lemma find_some_true {A : Type} (P : A -> bool) (l : list A) (x : A) :
  List.find P l = Some x -> P x = true /\ In x l.
Proof. intros H. apply List.find_some in H. tauto. Qed.

Lemma pydict_fits_app (a b : pydict) :
  pydict_fits (a ++ b) = (pydict_fits a && pydict_fits b).
Proof. apply List.forallb_app. Qed.

Lemma dict_get_fits (k : string) (d : pydict) (z : Z) :
  pydict_fits d = true -> dict_get k d = Some (VInt z) -> int64 z = true.
Proof.
  induction d as [|[k' v] d IH]; cbn [pydict_fits List.forallb dict_get snd];
    [discriminate|].
  intros Hfits Hget. apply andb_true_iff in Hfits as [Hv Hd].
  destruct (String.eqb k k'); [|exact (IH Hd Hget)].
  injection Hget as ->. exact Hv.
Qed.

Lemma item_str_fits (k : string) (o : option string) : pydict_fits (item_str k o) = true.
Proof. destruct o; reflexivity. Qed.

Lemma item_get_int_fits (k k' : string) (d : pydict) :
  pydict_fits d = true -> pydict_fits (item_int k (get_int k' d)) = true.
Proof.
  intros Hfits. unfold get_int.
  destruct (dict_get k' d) as [[s|z|b|t]|] eqn:Hget; try reflexivity.
  cbn. rewrite (dict_get_fits _ _ _ Hfits Hget). reflexivity.
Qed.

(** The payload [process_comic] builds from fields that fit fits. *)
Lemma ComicMetadataUpdate_make_fits (series : option string) (fields : pydict) :
  pydict_fits fields = true ->
  pydict_fits (ComicMetadataUpdate_dump (ComicMetadataUpdate_make series fields)) = true.
Proof.
  intros Hfits. unfold ComicMetadataUpdate_dump, ComicMetadataUpdate_make.
  cbn [mu_series mu_title mu_issue_number mu_publisher mu_year mu_month mu_writer
       mu_penciller mu_summary mu_notes mu_web mu_language_iso mu_genre].
  rewrite !pydict_fits_app, !item_str_fits, !(item_get_int_fits _ _ _ Hfits).
  reflexivity.
Qed.

Lemma dict_get_app (k : string) (a b : pydict) :
  dict_get k (a ++ b)
  = match dict_get k a with Some v => Some v | None => dict_get k b end.
Proof.
  induction a as [|[k' v] a IH]; [reflexivity|].
  cbn [List.app dict_get]. destruct (String.eqb k k'); [reflexivity | exact IH].
Qed.

Lemma dict_get_item_str (k k' : string) (o : option string) :
  dict_get k (item_str k' o) = if String.eqb k k' then option_map VStr o else None.
Proof. destruct o; cbn; destruct (String.eqb k k'); reflexivity. Qed.

Lemma dict_get_item_int (k k' : string) (o : option Z) :
  dict_get k (item_int k' o) = if String.eqb k k' then option_map VInt o else None.
Proof. destruct o; cbn; destruct (String.eqb k k'); reflexivity. Qed.

Lemma item_int_fits (k : string) (o : option Z) :
  pydict_fits (item_int k o) = match o with Some z => int64 z | None => true end.
Proof. destruct o; cbn; [apply andb_true_r | reflexivity]. Qed.

(** The integers of a record come back from its dump. *)
Lemma ComicInfoParsed_dump_ints (ci : ComicInfoParsed) :
  get_int "issue_number" (ComicInfoParsed_dump ci) = ci_issue_number ci /\
  get_int "year" (ComicInfoParsed_dump ci) = ci_year ci /\
  get_int "month" (ComicInfoParsed_dump ci) = ci_month ci.
Proof.
  unfold get_int, ComicInfoParsed_dump.
  rewrite !dict_get_app, !dict_get_item_str, !dict_get_item_int. cbn.
  destruct (ci_issue_number ci), (ci_year ci), (ci_month ci); cbn; auto.
Qed.

(** The payload [process_comic] builds from the fields of a sidecar can be
    stored exactly when the fields can. *)
Lemma ComicMetadataUpdate_make_fits_iff (series : option string)
  (comicinfo : option ComicInfoParsed) :
  pydict_fits (ComicMetadataUpdate_dump
                 (ComicMetadataUpdate_make series (comicinfo_fields_of comicinfo)))
  = pydict_fits (comicinfo_fields_of comicinfo).
Proof.
  destruct comicinfo as [ci|]; cbn [comicinfo_fields_of].
  - unfold ComicMetadataUpdate_dump, ComicMetadataUpdate_make.
    cbn [mu_series mu_title mu_issue_number mu_publisher mu_year mu_month mu_writer
         mu_penciller mu_summary mu_notes mu_web mu_language_iso mu_genre].
    destruct (ComicInfoParsed_dump_ints ci) as (-> & -> & ->).
    unfold ComicInfoParsed_dump.
    rewrite !pydict_fits_app, !item_str_fits, !item_int_fits. reflexivity.
  - unfold ComicMetadataUpdate_dump, ComicMetadataUpdate_make.
    cbn [mu_series mu_title mu_issue_number mu_publisher mu_year mu_month mu_writer
         mu_penciller mu_summary mu_notes mu_web mu_language_iso mu_genre].
    rewrite !pydict_fits_app, !item_str_fits. reflexivity.
Qed.

(** What [update_comic_metadata] does to the tables when it returns. *)
Lemma update_comic_metadata_ok (comic_id : Z) (payload : ComicMetadataUpdate)
  (st st' : State) :
  update_comic_metadata comic_id payload st = Ok st' ->
  pydict_fits (ComicMetadataUpdate_dump payload) = true /\
  comics st' = comics st /\ folders st' = folders st /\
  thumbnails st' = thumbnails st /\ ticks st' = ticks st /\
  exists meta',
    metadata_of st' comic_id = Some meta' /\
    m_comic_id meta' = comic_id /\
    (forall k, m_attrs meta' !! k =
               match payload_field payload k with
               | Some v => Some v
               | None => match metadata_of st comic_id with
                         | Some m => m_attrs m
                         | None => ComicMetadata_default_attrs
                         end !! k
               end) /\
    (forall m, In m (metadata st) -> m_id m <> m_id meta' -> In m (metadata st')).
Proof.
  unfold update_comic_metadata.
  destruct (metadata_of st comic_id) as [meta|] eqn:Hmeta.
  - cbn [bind].
    destruct (pydict_fits (ComicMetadataUpdate_dump payload)); [|discriminate].
    intros [= <-]. cbn [metadata set_metadata comics folders thumbnails ticks].
    repeat (split; [reflexivity|]).
    unfold metadata_of in Hmeta.
    pose proof (find_some_true _ _ _ Hmeta) as [Hcid _].
    apply Z.eqb_eq in Hcid.
    eexists. split; [|split; [|split]].
    + unfold metadata_of. cbn [metadata set_metadata].
      apply (find_map_replace _ (fun m => Z.eqb (m_id m) (m_id meta)) meta).
      * exact Hmeta.
      * apply Z.eqb_refl.
      * cbn. apply Z.eqb_eq, Hcid.
    + exact Hcid.
    + intros k. cbn [m_attrs]. apply setattrs_dump.
    + intros m Hin Hne. cbn [m_id] in Hne. apply List.in_map_iff.
      exists m. split; [|exact Hin].
      destruct (Z.eqb_spec (m_id m) (m_id meta)); [contradiction | reflexivity].
  - destruct (List.existsb _ (comics st)); [|discriminate]. cbn [bind].
    destruct (pydict_fits (ComicMetadataUpdate_dump payload)); [|discriminate].
    intros [= <-]. cbn [metadata set_metadata comics folders thumbnails ticks m_id].
    repeat (split; [reflexivity|]).
    eexists. split; [|split; [|split]].
    + unfold metadata_of. cbn [metadata set_metadata].
      eapply (find_map_replace _ (fun m => Z.eqb (m_id m) _)).
      * apply find_app_None; [exact Hmeta|]. cbn. apply Z.eqb_refl.
      * cbn. apply Z.eqb_refl.
      * cbn. apply Z.eqb_refl.
    + reflexivity.
    + intros k. cbn [m_attrs]. apply setattrs_dump.
    + intros m Hin Hne. cbn [m_id] in Hne. apply List.in_map_iff.
      exists m. split; [|apply List.in_or_app; left; exact Hin].
      cbn [m_id]. destruct (Z.eqb_spec (m_id m) (next_id (List.map m_id (metadata st))));
        [contradiction | reflexivity].
Qed.

(** When [update_comic_metadata] returns and when it raises. *)
Lemma update_comic_metadata_cases (comic_id : Z) (payload : ComicMetadataUpdate)
  (st : State) :
  let target :=
    match metadata_of st comic_id with
    | Some _ => true
    | None => List.existsb (fun c => Z.eqb (c_id c) comic_id) (comics st)
    end in
  if target
  then if pydict_fits (ComicMetadataUpdate_dump payload)
       then exists st', update_comic_metadata comic_id payload st = Ok st'
       else update_comic_metadata comic_id payload st = Raise OverflowError
  else update_comic_metadata comic_id payload st = Raise IntegrityError.
Proof.
  unfold update_comic_metadata.
  destruct (metadata_of st comic_id) as [meta|]; cbv zeta.
  - cbn [bind]. destruct (pydict_fits _); [eexists|]; reflexivity.
  - destruct (List.existsb _ (comics st)); cbn [bind]; [|reflexivity].
    destruct (pydict_fits _); [eexists|]; reflexivity.
Qed.

(** C8. For an item of the index, or a comic id that has a metadata row, and
    a payload whose integers SQLite can store, [update_comic_metadata]
    returns and leaves a metadata row in which every column the payload
    supplies holds the payload's value and every other column holds what was
    stored before (the defaults of a new row when there was none); the other
    metadata rows and the other tables stay as they were. A payload with an
    integer outside the signed 64-bit range makes the call raise
    [OverflowError], and a comic id with neither an item nor a metadata row
    makes it raise [IntegrityError]; nothing is stored then. *)
Theorem update_comic_metadata_additive (comic_id : Z) (payload : ComicMetadataUpdate)
  (st : State) :
  let old := match metadata_of st comic_id with
             | Some m => m_attrs m
             | None => ComicMetadata_default_attrs
             end in
  let target :=
    metadata_of st comic_id <> None \/
    exists c, In c (comics st) /\ c_id c = comic_id in
  let fits := pydict_fits (ComicMetadataUpdate_dump payload) in
  (target -> fits = true ->
   exists st' meta',
     update_comic_metadata comic_id payload st = Ok st' /\
     metadata_of st' comic_id = Some meta' /\
     m_comic_id meta' = comic_id /\
     (forall k, m_attrs meta' !! k =
                match payload_field payload k with
                | Some v => Some v
                | None => old !! k
                end) /\
     (forall m, In m (metadata st) -> m_id m <> m_id meta' -> In m (metadata st')) /\
     comics st' = comics st /\ folders st' = folders st /\
     thumbnails st' = thumbnails st) /\
  (target -> fits = false ->
   update_comic_metadata comic_id payload st = Raise OverflowError) /\
  (~ target -> update_comic_metadata comic_id payload st = Raise IntegrityError).
Proof.
  intros old target fits. subst old fits.
  pose proof (update_comic_metadata_cases comic_id payload st) as Hcases.
  cbv zeta in Hcases.
  assert (Htarget : target <->
                    match metadata_of st comic_id with
                    | Some _ => true
                    | None => List.existsb (fun c => Z.eqb (c_id c) comic_id) (comics st)
                    end = true).
  { subst target. destruct (metadata_of st comic_id) as [meta|].
    - split; [reflexivity|]. intros _. left. discriminate.
    - rewrite List.existsb_exists. split.
      + intros [Hm | (c & Hin & Hid)]; [congruence|].
        exists c. split; [exact Hin|]. apply Z.eqb_eq, Hid.
      + intros (c & Hin & Hid). right. exists c. split; [exact Hin|].
        apply Z.eqb_eq, Hid. }
  split; [|split].
  - intros Ht Hfits. apply Htarget in Ht. rewrite Ht, Hfits in Hcases.
    destruct Hcases as [st' Hok]. exists st'.
    destruct (update_comic_metadata_ok _ _ _ _ Hok)
      as (_ & Hc & Hf & Hth & _ & meta' & Hm & Hcid & Hattrs & Hrest).
    exists meta'. repeat split; assumption.
  - intros Ht Hfits. apply Htarget in Ht. rewrite Ht, Hfits in Hcases. exact Hcases.
  - intros Hnt.
    destruct (match metadata_of st comic_id with
              | Some _ => true
              | None => List.existsb (fun c => Z.eqb (c_id c) comic_id) (comics st)
              end) eqn:Ht; [|exact Hcases].
    exfalso. apply Hnt, Htarget. reflexivity.
Qed.

(** ** scanner.py: the decision to skip *)

Lemma should_skip_spec (comic_in_db : option (Comic * option ComicMetadata))
  (file_mtime : Z) (force : bool) :
  _should_skip_comic comic_in_db file_mtime force = true <->
  exists comic meta,
    comic_in_db = Some (comic, Some meta) /\
    c_file_modified_at comic = file_mtime /\
    force = false.
Proof.
  unfold _should_skip_comic, datetime_truthy. split.
  - destruct comic_in_db as [[comic [meta|]]|]; try discriminate;
      destruct force; try discriminate; cbn [negb];
      destruct (Z.eqb_spec (c_file_modified_at comic) file_mtime); try discriminate.
    intros _. exists comic, meta. auto.
  - intros (comic & meta & -> & <- & ->). cbn [negb].
    rewrite Z.eqb_refl. reflexivity.
Qed.

Lemma should_skip_forced (comic_in_db : option (Comic * option ComicMetadata))
  (file_mtime : Z) :
  _should_skip_comic comic_in_db file_mtime true = false.
Proof. destruct comic_in_db as [[comic meta]|]; reflexivity. Qed.

(** ** scanner.py: a corrupt archive *)

Lemma find_filter_negb {A : Type} (P : A -> bool) (l : list A) :
  List.find P (List.filter (fun x => negb (P x)) l) = None.
Proof.
  induction l as [|x l IH]; [reflexivity|].
  cbn [List.filter]. destruct (P x) eqn:HP; cbn [negb]; [exact IH|].
  cbn [List.find]. rewrite HP. exact IH.
Qed.

Lemma filter_negb_find_none {A : Type} (P : A -> bool) (l : list A) :
  List.find P l = None -> List.filter (fun x => negb (P x)) l = l.
Proof.
  induction l as [|x l IH]; [reflexivity|].
  cbn [List.find List.filter]. destruct (P x); [discriminate|].
  intros H. cbn [negb]. f_equal. apply IH, H.
Qed.

Lemma delete_thumbnails_gone (uuids : list string) (st : State) (u : string) :
  In u uuids -> u ∉ thumbnails (delete_thumbnails uuids st).
Proof.
  intros Hin. unfold delete_thumbnails. cbn [thumbnails set_thumbnails].
  apply list_elem_of_In in Hin. rewrite elem_of_difference, elem_of_list_to_set.
  intros [_ Hnot]. exact (Hnot Hin).
Qed.

(** C4. When the validation of an archive fails, [process_comic] returns
    normally and reports the file as skipped; a row that existed at the
    path is deleted, which is committed, and the thumbnail of its UUID is
    removed; the rows at other paths and the folders stay; and the loop of
    [scan_library] counts the file as skipped and goes on with the next
    one. *)
Theorem corrupt_archive_removed (config : IssuedConfig) (fs : node)
  (comic_path : Path) (folder_id : Z) (force : bool) (st : State)
  (file_mtime file_size : Z) (e : exn) :
  stat fs comic_path = Ok (file_mtime, file_size) ->
  _should_skip_comic (get_comic_by_path (library_path config) comic_path st)
                     file_mtime force = false ->
  validate_and_count_pages fs comic_path = Raise e ->
  let rel := to_relative comic_path (library_path config) in
  let existing := match comic_by_path st rel with Some _ => true | None => false end in
  exists st',
    process_comic config fs comic_path folder_id force st
      = mkEnded (if existing then Some st' else None)
                (Ok (st', (None, existing, true, false))) /\
    comic_by_path st' rel = None /\
    (forall c, In c (comics st) -> c_path c = rel -> c_uuid c ∉ thumbnails st') /\
    comics st' = List.filter (fun c => negb (String.eqb (c_path c) rel)) (comics st) /\
    folders st' = folders st /\
    (forall rest stats processed,
       scan_files config fs folder_id force (comic_path :: rest) (st, stats, processed)
       = scan_files config fs folder_id force rest
           (st',
            mkStats (added stats) (updated stats) (deleted stats) (skipped stats + 1),
            processed ∪ {[ comic_path ]})).
Proof.
  intros Hstat Hskip Hval rel existing.
  set (st' := if existing
              then match delete_comic_by_path (library_path config) comic_path st with
                   | (st1, []) => st1
                   | (st1, deleted_uuids) => delete_thumbnails deleted_uuids st1
                   end
              else st).
  exists st'.
  assert (Hproc : process_comic config fs comic_path folder_id force st
                  = mkEnded (if existing then Some st' else None)
                            (Ok (st', (None, existing, true, false)))).
  { subst st'. unfold process_comic. rewrite Hstat, Hskip, Hval.
    unfold get_comic_by_path. fold rel. subst existing.
    destruct (comic_by_path st rel); [|reflexivity].
    destruct (delete_comic_by_path (library_path config) comic_path st) as [st1 [|u us]];
      reflexivity. }
  assert (Hcomics : comics st'
                    = List.filter (fun c => negb (String.eqb (c_path c) rel)) (comics st)).
  { subst st' existing. destruct (comic_by_path st rel) eqn:Hrow.
    - unfold delete_comic_by_path, delete_comics_where. fold rel.
      destruct (List.map c_uuid _); reflexivity.
    - symmetry. apply filter_negb_find_none. exact Hrow. }
  split; [exact Hproc|]. split; [|split; [|split; [exact Hcomics|split]]].
  - unfold comic_by_path. rewrite Hcomics.
    apply (find_filter_negb (fun c => String.eqb (c_path c) rel)).
  - intros c Hin Hpath. subst st' existing.
    destruct (comic_by_path st rel) eqn:Hrow.
    + unfold delete_comic_by_path, delete_comics_where. fold rel.
      assert (Hu : In (c_uuid c)
                      (List.map c_uuid
                         (List.filter (fun c => String.eqb (c_path c) rel) (comics st)))).
      { apply List.in_map, List.filter_In. split; [exact Hin|].
        apply String.eqb_eq, Hpath. }
      destruct (List.map c_uuid _) as [|u us] eqn:Hus; [destruct Hu|].
      apply delete_thumbnails_gone. exact Hu.
    + exfalso. unfold comic_by_path in Hrow.
      apply (List.find_none _ _ Hrow) in Hin.
      apply String.eqb_neq in Hin. contradiction.
  - subst st' existing. destruct (comic_by_path st rel); [|reflexivity].
    unfold delete_comic_by_path, delete_comics_where.
    destruct (List.map c_uuid _); reflexivity.
  - intros rest stats processed. cbn [scan_files]. rewrite Hproc. reflexivity.
Qed.

(** ** comicinfo.py: a sidecar that is missing, empty or malformed *)

(** What [read_comicinfo_from_archive] gives, case by case. An archive that
    does not open, a missing sidecar, one that cannot be read or holds only
    white space give [None], no record at all; one the XML parser rejects
    with [ET.ParseError] gives the record with every field absent; any
    other exception of the parser leaves the function. *)
Lemma read_comicinfo_cases (fs : node) (archive_path : Path) :
  let result := read_comicinfo_from_archive fs archive_path in
  (forall e, Archive.get_archive rarfile fs archive_path = Raise e -> result = Ok None) /\
  (forall archive,
     Archive.get_archive rarfile fs archive_path = Ok archive ->
     let sidecar := List.find is_comicinfo_name (Archive.list_names archive) in
     (sidecar = None -> result = Ok None) /\
     (forall n e, sidecar = Some n -> read archive n = Raise e -> result = Ok None) /\
     (forall n raw, sidecar = Some n -> read archive n = Ok raw ->
                    bytes_blank raw = true -> result = Ok None) /\
     (forall n raw, sidecar = Some n -> read archive n = Ok raw ->
                    bytes_blank raw = false -> ET_fromstring raw = Raise XMLParseError ->
                    result = Ok (Some ComicInfoParsed_empty)) /\
     (forall n raw e, sidecar = Some n -> read archive n = Ok raw ->
                      bytes_blank raw = false -> ET_fromstring raw = Raise e ->
                      e <> XMLParseError -> result = Raise e) /\
     (forall n raw children, sidecar = Some n -> read archive n = Ok raw ->
                      bytes_blank raw = false -> ET_fromstring raw = Ok children ->
                      result = Ok (Some (ComicInfoParsed_validate
                                           (parse_loop children TAG_MAP []))))) /\
  comicinfo_fields_of None = [] /\
  comicinfo_fields_of (Some ComicInfoParsed_empty) = [].
Proof.
  intros result. subst result. unfold read_comicinfo_from_archive.
  split; [|split; [|split; reflexivity]].
  - intros e ->. reflexivity.
  - intros archive ->. cbv zeta. repeat split.
    + intros ->. reflexivity.
    + intros n e -> ->. reflexivity.
    + intros n raw -> -> ->. reflexivity.
    + intros n raw -> -> -> Hparse. unfold parse_comicinfo_xml.
      rewrite Hparse. reflexivity.
    + intros n raw e -> -> -> Hparse Hne. unfold parse_comicinfo_xml.
      rewrite Hparse. destruct e; try reflexivity. contradiction.
    + intros n raw children -> -> -> Hparse. unfold parse_comicinfo_xml.
      rewrite Hparse. reflexivity.
Qed.

(** C6 (where the code departs from it). A sidecar that is there, is read
    and is not blank, and that makes the XML parser raise anything but
    [ET.ParseError], makes [read_comicinfo_from_archive] raise that
    exception: it returns no record. [process_comic] does not catch it
    either, so for a file that is not skipped the exception leaves
    [process_comic] and ends the loop of [scan_library]. *)
Theorem read_comicinfo_parser_error_escapes (config : IssuedConfig) (fs : node)
  (archive_path : Path) (archive : ArchiveFile) (n raw : string) (e : exn) :
  Archive.get_archive rarfile fs archive_path = Ok archive ->
  List.find is_comicinfo_name (Archive.list_names archive) = Some n ->
  read archive n = Ok raw ->
  bytes_blank raw = false ->
  ET_fromstring raw = Raise e ->
  e <> XMLParseError ->
  read_comicinfo_from_archive fs archive_path = Raise e /\
  forall folder_id force st file_mtime file_size,
    stat fs archive_path = Ok (file_mtime, file_size) ->
    _should_skip_comic (get_comic_by_path (library_path config) archive_path st)
                       file_mtime force = false ->
    value (process_comic config fs archive_path folder_id force st) = Raise e /\
    forall rest stats processed,
      scan_files config fs folder_id force (archive_path :: rest) (st, stats, processed)
      = Raise e.
Proof.
  intros Harch Hfind Hread Hblank Hparse Hne.
  assert (Hraise : read_comicinfo_from_archive fs archive_path = Raise e).
  { destruct (read_comicinfo_cases fs archive_path) as (_ & Hcases & _).
    destruct (Hcases archive Harch) as (_ & _ & _ & _ & Hesc & _).
    exact (Hesc n raw e Hfind Hread Hblank Hparse Hne). }
  split; [exact Hraise|].
  intros folder_id force st file_mtime file_size Hstat Hskip.
  assert (Hproc : value (process_comic config fs archive_path folder_id force st)
                  = Raise e).
  { unfold process_comic. rewrite Hstat, Hskip.
    unfold validate_and_count_pages. rewrite Harch.
    destruct (upsert_comic _ _ _ _ _ _ _ _ _ _) as [st1 comic].
    destruct (generate_thumbnail_for_comic _ _ _ _) as [st2 thumb_success].
    rewrite Hraise. reflexivity. }
  split; [exact Hproc|].
  intros rest stats processed. cbn [scan_files]. rewrite Hproc. reflexivity.
Qed.

Section MonitorProperties.

Import Monitor.

(** ** monitor.py: the order of paths *)

Lemma str_compare_refl (s : string) : String.compare s s = Eq.
Proof. apply String_as_OT.cmp_eq. reflexivity. Qed.

Lemma str_compare_lt_trans (a b c : string) :
  String.compare a b = Lt -> String.compare b c = Lt -> String.compare a c = Lt.
Proof.
  intros H1 H2. apply String_as_OT.cmp_lt in H1, H2. apply String_as_OT.cmp_lt.
  exact (String_as_OT.lt_trans _ _ _ H1 H2).
Qed.

Lemma str_compare_gt_lt (a b : string) :
  String.compare a b = Gt -> String.compare b a = Lt.
Proof. intros H. rewrite String.compare_antisym, H. reflexivity. Qed.

Lemma str_compare_lt_gt (a b : string) :
  String.compare a b = Lt -> String.compare b a = Gt.
Proof. intros H. rewrite String.compare_antisym, H. reflexivity. Qed.

Lemma parts_ltb_irrefl (l : list string) : Monitor.parts_ltb l l = false.
Proof.
  induction l as [|x l IH]; [reflexivity|].
  cbn [Monitor.parts_ltb]. rewrite str_compare_refl. exact IH.
Qed.

(** If [c] comes before [a], any [b] comes after [c] or before [a]. *)
Lemma parts_ltb_between (a b c : list string) :
  Monitor.parts_ltb c a = true ->
  Monitor.parts_ltb c b = true \/ Monitor.parts_ltb b a = true.
Proof.
  revert a b. induction c as [|z c IH]; intros [|x a] [|y b]; cbn [Monitor.parts_ltb];
    try discriminate; auto.
  destruct (String.compare z x) eqn:Hzx; try discriminate.
  - apply String_as_OT.cmp_eq in Hzx. subst z. intros Hca.
    destruct (String.compare x y) eqn:Hxy.
    + apply String_as_OT.cmp_eq in Hxy. subst y. rewrite str_compare_refl.
      apply IH, Hca.
    + auto.
    + rewrite (str_compare_gt_lt _ _ Hxy). auto.
  - intros _. destruct (String.compare z y) eqn:Hzy; auto.
    + apply String_as_OT.cmp_eq in Hzy. subst y. rewrite Hzx. auto.
    + right. rewrite (str_compare_lt_trans y z x); auto using str_compare_gt_lt.
Qed.

Lemma parts_ltb_asym (a b : list string) :
  Monitor.parts_ltb a b = true -> Monitor.parts_ltb b a = false.
Proof.
  revert b. induction a as [|x a IH]; intros [|y b]; cbn [Monitor.parts_ltb];
    try discriminate; auto.
  rewrite (String.compare_antisym y x).
  destruct (String.compare x y); cbn [CompOpp]; auto; discriminate.
Qed.

Lemma parts_ltb_prefix (l k : list string) :
  k <> [] -> Monitor.parts_ltb l (l ++ k) = true.
Proof.
  intros Hk. induction l as [|x l IH]; cbn [List.app Monitor.parts_ltb].
  - destruct k; [congruence | reflexivity].
  - rewrite str_compare_refl. exact IH.
Qed.

(** A path comes after each of its proper ancestors. *)
Lemma ancestor_first (p q : Path) :
  is_relative_to p q = true -> p <> q -> Monitor.path_ltb q p = true.
Proof.
  unfold is_relative_to, Monitor.path_ltb, Monitor.cparts. intros H Hne.
  apply andb_true_iff in H as [Habs Hpre].
  apply Bool.eqb_prop in Habs. apply is_prefix_spec in Hpre.
  destruct p as [a l], q as [b k]. cbn [absolute parts] in *. subst b.
  set (rest := List.skipn (List.length k) l) in *.
  assert (Hrest : rest <> []).
  { intros Hnil. apply Hne. rewrite Hpre, Hnil, List.app_nil_r. reflexivity. }
  rewrite Hpre. destruct a.
  - change ("/" :: k ++ rest) with (("/" :: k) ++ rest). apply parts_ltb_prefix, Hrest.
  - apply parts_ltb_prefix, Hrest.
Qed.

Lemma path_le_trans (a b c : Path) : path_le a b -> path_le b c -> path_le a c.
Proof.
  unfold path_le, Monitor.path_ltb. intros Hab Hbc.
  destruct (Monitor.parts_ltb (Monitor.cparts c) (Monitor.cparts a)) eqn:Hca; [|reflexivity].
  destruct (parts_ltb_between _ (Monitor.cparts b) _ Hca) as [H | H]; congruence.
Qed.

Lemma path_lt_le (a b : Path) : Monitor.path_ltb a b = true -> path_le a b.
Proof.
  unfold path_le, Monitor.path_ltb. apply parts_ltb_asym.
Qed.

(** ** monitor.py: [sorted] *)

Section Sorting.

Context {A : Type} (key : A -> Path).

Lemma insert_sorted_perm (x : A) (l : list A) :
  Permutation (Monitor.insert_sorted key x l) (x :: l).
Proof.
  induction l as [|y l IH]; cbn [Monitor.insert_sorted]; [reflexivity|].
  destruct (Monitor.path_ltb (key x) (key y)); [reflexivity|].
  rewrite IH. apply perm_swap.
Qed.

Lemma insert_sorted_sorted (x : A) (l : list A) :
  StronglySorted (key_le key) l -> StronglySorted (key_le key) (Monitor.insert_sorted key x l).
Proof.
  induction l as [|y l IH]; intros Hs; cbn [Monitor.insert_sorted].
  - repeat constructor.
  - inversion Hs as [|? ? Hl Hy]; subst.
    destruct (Monitor.path_ltb (key x) (key y)) eqn:Hxy.
    + constructor; [exact Hs|]. constructor.
      * apply path_lt_le, Hxy.
      * eapply List.Forall_impl; [|exact Hy].
        intros z Hz. eapply path_le_trans; [apply path_lt_le, Hxy | exact Hz].
    + constructor; [apply IH, Hl|].
      eapply Permutation_Forall; [symmetry; apply insert_sorted_perm|].
      constructor; [exact Hxy | exact Hy].
Qed.

Lemma sorted_from_perm (l acc : list A) :
  Permutation (List.fold_left (fun acc x => Monitor.insert_sorted key x acc) l acc)
              (acc ++ l).
Proof.
  revert acc. induction l as [|x l IH]; intros acc; cbn [List.fold_left].
  - rewrite List.app_nil_r. reflexivity.
  - rewrite IH, insert_sorted_perm. apply Permutation_middle.
Qed.

Lemma sorted_perm (l : list A) : Permutation (Monitor.sorted key l) l.
Proof. apply (sorted_from_perm l []). Qed.

Lemma sorted_from_sorted (l acc : list A) :
  StronglySorted (key_le key) acc ->
  StronglySorted (key_le key)
    (List.fold_left (fun acc x => Monitor.insert_sorted key x acc) l acc).
Proof.
  revert acc. induction l as [|x l IH]; intros acc Hacc; cbn [List.fold_left].
  - exact Hacc.
  - apply IH, insert_sorted_sorted, Hacc.
Qed.

Lemma sorted_sorted (l : list A) : StronglySorted (key_le key) (Monitor.sorted key l).
Proof. apply sorted_from_sorted. constructor. Qed.

Lemma insert_sorted_last (x : A) (l : list A) :
  Forall (fun y => key_le key y x) l -> Monitor.insert_sorted key x l = l ++ [x].
Proof.
  induction l as [|y l IH]; intros Hall; cbn [Monitor.insert_sorted List.app];
    [reflexivity|].
  inversion Hall as [|? ? Hy Hl]; subst. unfold key_le, path_le in Hy.
  rewrite Hy. f_equal. apply IH, Hl.
Qed.

Lemma sorted_from_id (l acc : list A) :
  StronglySorted (key_le key) (acc ++ l) ->
  List.fold_left (fun acc x => Monitor.insert_sorted key x acc) l acc = acc ++ l.
Proof.
  revert acc. induction l as [|x l IH]; intros acc Hs; cbn [List.fold_left].
  - rewrite List.app_nil_r. reflexivity.
  - rewrite insert_sorted_last.
    + rewrite IH; rewrite <- List.app_assoc; [reflexivity | exact Hs].
    + clear IH. induction acc as [|a acc IHacc]; [constructor|].
      cbn [List.app] in Hs. inversion Hs as [|? ? Hrest Ha]; subst.
      constructor; [|apply IHacc, Hrest].
      apply List.Forall_app in Ha as [_ Ha]. inversion Ha; subst. assumption.
Qed.

(** Sorting a list that is in order leaves it as it is. *)
Lemma sorted_id (l : list A) :
  StronglySorted (key_le key) l -> Monitor.sorted key l = l.
Proof. intros Hs. apply (sorted_from_id l []). exact Hs. Qed.

End Sorting.

(** ** monitor.py: the dicts of a batch *)


Lemma dict_lookup_set (p k : Path) (v : MonitorTask) (d : taskdict) :
  dict_lookup p (dict_set k v d) = if bool_decide (p = k) then Some v else dict_lookup p d.
Proof.
  induction d as [|[k' v'] d IH]; cbn [dict_set dict_lookup]; [reflexivity|].
  destruct (bool_decide (k = k')) eqn:Hk.
  - apply bool_decide_eq_true in Hk. subst k'. cbn [dict_lookup].
    destruct (bool_decide (p = k)); reflexivity.
  - apply bool_decide_eq_false in Hk. cbn [dict_lookup].
    destruct (bool_decide (p = k')) eqn:Hp.
    + apply bool_decide_eq_true in Hp. subst k'.
      rewrite bool_decide_eq_false_2 by congruence. reflexivity.
    + exact IH.
Qed.

Lemma keys_dict_set (k : Path) (v : MonitorTask) (d : taskdict) :
  (In k (keys d) /\ keys (dict_set k v d) = keys d) \/
  (~ In k (keys d) /\ keys (dict_set k v d) = keys d ++ [k]).
Proof.
  induction d as [|[k' v'] d IH]; cbn [dict_set keys List.map fst].
  - right. split; [intros [] | reflexivity].
  - destruct (bool_decide (k = k')) eqn:Hk.
    + apply bool_decide_eq_true in Hk. subst k'. left. split; [left|]; reflexivity.
    + apply bool_decide_eq_false in Hk. cbn [List.map fst].
      fold (keys d) (keys (dict_set k v d)).
      destruct IH as [[Hin ->] | [Hin ->]].
      * left. split; [right; exact Hin | reflexivity].
      * right. split; [|reflexivity]. intros [Heq | H]; [congruence | contradiction].
Qed.

Lemma by_action_snoc (act : string) (tasks : list MonitorTask) (t : MonitorTask) :
  by_action act (tasks ++ [t]) =
  if String.eqb (action t) act then dict_set (path t) t (by_action act tasks)
  else by_action act tasks.
Proof. unfold by_action. rewrite List.fold_left_app. reflexivity. Qed.

Lemma by_action_NoDup (act : string) (tasks : list MonitorTask) :
  List.NoDup (keys (by_action act tasks)).
Proof.
  induction tasks as [|t tasks IH] using List.rev_ind; [constructor|].
  rewrite by_action_snoc. destruct (String.eqb (action t) act); [|exact IH].
  destruct (keys_dict_set (path t) t (by_action act tasks)) as [[Hin ->] | [Hin ->]];
    [exact IH|].
  apply List.NoDup_app; repeat split.
  - exact IH.
  - repeat constructor. intros [].
  - intros x Hx [<- | []]. contradiction.
Qed.

Lemma by_action_lookup (act : string) (tasks : list MonitorTask) (p : Path) :
  dict_lookup p (by_action act tasks) = last_task act p tasks.
Proof.
  unfold last_task.
  induction tasks as [|t tasks IH] using List.rev_ind; [reflexivity|].
  rewrite by_action_snoc, List.rev_app_distr. cbn [List.rev List.app List.find].
  destruct (String.eqb (action t) act); cbn [andb].
  - rewrite dict_lookup_set.
    destruct (bool_decide (p = path t)) eqn:Hp.
    + apply bool_decide_eq_true in Hp. subst p.
      rewrite bool_decide_eq_true_2 by reflexivity. reflexivity.
    + apply bool_decide_eq_false in Hp.
      rewrite bool_decide_eq_false_2 by congruence. exact IH.
  - exact IH.
Qed.

Lemma last_task_inv (act : string) (p : Path) (tasks : list MonitorTask) (t : MonitorTask) :
  last_task act p tasks = Some t -> In t tasks /\ action t = act /\ path t = p.
Proof.
  unfold last_task. intros H. apply List.find_some in H as [Hin H].
  apply andb_true_iff in H as [Ha Hp].
  apply String.eqb_eq in Ha. apply bool_decide_eq_true in Hp.
  apply List.in_rev in Hin. auto.
Qed.

Lemma last_task_some (act : string) (tasks : list MonitorTask) (t : MonitorTask) :
  In t tasks -> action t = act ->
  exists t', last_task act (path t) tasks = Some t'.
Proof.
  intros Hin Hact. unfold last_task.
  destruct (List.find _ (List.rev tasks)) as [t'|] eqn:Hfind; [eauto|].
  exfalso. apply List.in_rev in Hin.
  pose proof (List.find_none _ _ Hfind t Hin) as H. cbn beta in H.
  rewrite Hact, String.eqb_refl, bool_decide_eq_true_2 in H by reflexivity.
  discriminate.
Qed.

Lemma dict_lookup_In (d : taskdict) (p : Path) (t : MonitorTask) :
  dict_lookup p d = Some t -> In (p, t) d.
Proof.
  induction d as [|[k v] d IH]; cbn [dict_lookup]; [discriminate|].
  destruct (bool_decide (p = k)) eqn:Hp.
  - apply bool_decide_eq_true in Hp. subst k. intros [= ->]. left. reflexivity.
  - intros H. right. apply IH, H.
Qed.

Lemma In_dict_lookup (d : taskdict) (p : Path) (t : MonitorTask) :
  List.NoDup (keys d) -> In (p, t) d -> dict_lookup p d = Some t.
Proof.
  induction d as [|[k v] d IH]; cbn [dict_lookup keys List.map fst]; [intros _ []|].
  intros Hnd Hin. inversion Hnd as [|? ? Hk Hd]; subst.
  destruct Hin as [[= -> ->] | Hin].
  - rewrite bool_decide_eq_true_2 by reflexivity. reflexivity.
  - rewrite bool_decide_eq_false_2.
    + apply IH; assumption.
    + intros ->. apply Hk. apply (List.in_map fst) in Hin. exact Hin.
Qed.

Lemma keys_lookup (d : taskdict) (p : Path) :
  In p (keys d) -> exists t, dict_lookup p d = Some t.
Proof.
  induction d as [|[k v] d IH]; cbn [dict_lookup keys List.map fst]; [intros []|].
  intros [-> | Hin].
  - rewrite bool_decide_eq_true_2 by reflexivity. eauto.
  - destruct (bool_decide (p = k)); [eauto | apply IH, Hin].
Qed.

(** ** monitor.py: the pruning loops *)

Lemma has_kept_ancestor_spec (p : Path) (kept : taskdict) :
  has_kept_ancestor p kept = true <-> exists q, In q (keys kept) /\ covers q p.
Proof.
  unfold has_kept_ancestor, covers. rewrite List.existsb_exists. split.
  - intros (q & Hin & H). apply andb_true_iff in H as [Hne Hrel].
    apply negb_true_iff, bool_decide_eq_false in Hne. eauto.
  - intros (q & Hin & Hne & Hrel). exists q. split; [exact Hin|].
    rewrite Hrel, bool_decide_eq_false_2 by exact Hne. reflexivity.
Qed.

Lemma keys_app (d1 d2 : taskdict) : keys (d1 ++ d2) = keys d1 ++ keys d2.
Proof. apply List.map_app. Qed.

Lemma prune_incl (d : taskdict) (l : list Path) (final : taskdict) (x : Path * MonitorTask) :
  In x final -> In x (prune d l final).
Proof.
  revert final. induction l as [|p l IH]; intros final Hin; cbn [prune]; [exact Hin|].
  destruct (has_kept_ancestor p final); [apply IH, Hin|].
  destruct (dict_lookup p d); apply IH; [apply List.in_or_app; left|]; exact Hin.
Qed.

Lemma prune_from (d : taskdict) (l : list Path) (final : taskdict) (p : Path)
  (t : MonitorTask) :
  In (p, t) (prune d l final) ->
  In (p, t) final \/ (In p l /\ dict_lookup p d = Some t).
Proof.
  revert final. induction l as [|q l IH]; intros final; cbn [prune]; [auto|].
  destruct (has_kept_ancestor q final).
  - intros H. destruct (IH _ H) as [H' | [H1 H2]]; [left | right; split; [right|]]; assumption.
  - destruct (dict_lookup q d) as [tq|] eqn:Hq.
    + intros H. destruct (IH _ H) as [H' | [H1 H2]].
      * apply List.in_app_or in H' as [H' | [[= <- <-] | []]]; [left; exact H'|].
        right. split; [left; reflexivity | exact Hq].
      * right. split; [right|]; assumption.
    + intros H. destruct (IH _ H) as [H' | [H1 H2]]; [left | right; split; [right|]]; assumption.
Qed.

Lemma prune_antichain (d : taskdict) (l : list Path) (final : taskdict) :
  StronglySorted path_le (keys final ++ l) ->
  antichain (keys final) ->
  antichain (keys (prune d l final)).
Proof.
  revert final. induction l as [|p l IH]; intros final Hs Hanti; cbn [prune]; [exact Hanti|].
  assert (Hs' : StronglySorted path_le (keys final ++ l)).
  { clear -Hs. induction (keys final) as [|a ks IHks]; cbn [List.app] in *.
    - inversion Hs; assumption.
    - inversion Hs as [|? ? Hrest Ha]; subst. constructor; [apply IHks, Hrest|].
      apply List.Forall_app in Ha as [Ha1 Ha2]. inversion Ha2; subst.
      apply List.Forall_app. split; assumption. }
  destruct (has_kept_ancestor p final) eqn:Hanc; [apply IH; assumption|].
  destruct (dict_lookup p d) as [t|]; [|apply IH; assumption].
  apply IH.
  - rewrite keys_app. cbn [keys List.map fst]. rewrite <- List.app_assoc. exact Hs.
  - rewrite keys_app. cbn [keys List.map fst]. intros a b Ha Hb Hcov.
    apply List.in_app_or in Ha as [Ha | [<- | []]];
    apply List.in_app_or in Hb as [Hb | [<- | []]].
    + exact (Hanti a b Ha Hb Hcov).
    + (* p covers a kept earlier: p would come first *)
      destruct Hcov as [Hne Hrel].
      pose proof (ancestor_first a p Hrel Hne) as Hlt.
      assert (Hle : path_le a p).
      { clear -Hs Ha. induction (keys final) as [|x ks IHks]; [destruct Ha|].
        cbn [List.app] in Hs. inversion Hs as [|? ? Hrest Hx]; subst.
        destruct Ha as [-> | Ha]; [|apply IHks; assumption].
        apply List.Forall_app in Hx as [_ Hx]. inversion Hx; subst. assumption. }
      unfold path_le in Hle. congruence.
    + assert (Hex : has_kept_ancestor p final = true).
      { apply has_kept_ancestor_spec. exists b. auto. }
      congruence.
    + destruct Hcov as [Hne _]. congruence.
Qed.

Lemma prune_complete (d : taskdict) (l : list Path) (final : taskdict) (p : Path)
  (t : MonitorTask) :
  In p l -> dict_lookup p d = Some t ->
  (forall q, In q (keys (prune d l final)) -> ~ covers q p) ->
  In (p, t) (prune d l final).
Proof.
  revert final. induction l as [|q l IH]; intros final Hin Hlook Hfree; [destruct Hin|].
  cbn [prune] in *. destruct Hin as [-> | Hin].
  - destruct (has_kept_ancestor p final) eqn:Hanc.
    + exfalso. apply has_kept_ancestor_spec in Hanc as (q & Hq & Hcov).
      apply (Hfree q); [|exact Hcov].
      apply List.in_map_iff in Hq as ([k v] & <- & Hkv).
      apply (List.in_map fst _ (k, v)). apply prune_incl, Hkv.
    + rewrite Hlook. apply prune_incl, List.in_or_app. right. left. reflexivity.
  - destruct (has_kept_ancestor q final); [apply IH; assumption|].
    destruct (dict_lookup q d); apply IH; assumption.
Qed.

Lemma prune_keys_sublist (d : taskdict) (l : list Path) (final : taskdict) :
  exists k, keys (prune d l final) = keys final ++ k /\ sublist k l.
Proof.
  revert final. induction l as [|p l IH]; intros final; cbn [prune].
  - exists []. rewrite List.app_nil_r. split; [reflexivity | constructor].
  - destruct (has_kept_ancestor p final).
    + destruct (IH final) as (k & -> & Hk). exists k. split; [reflexivity|].
      apply sublist_cons, Hk.
    + destruct (dict_lookup p d) as [t|].
      * destruct (IH (final ++ [(p, t)])) as (k & -> & Hk). exists (p :: k).
        rewrite keys_app, <- List.app_assoc. split; [reflexivity|].
        apply sublist_skip, Hk.
      * destruct (IH final) as (k & -> & Hk). exists k. split; [reflexivity|].
        apply sublist_cons, Hk.
Qed.

Lemma sublist_StronglySorted {A : Type} (R : A -> A -> Prop) (k l : list A) :
  sublist k l -> StronglySorted R l -> StronglySorted R k.
Proof.
  intros Hsub. induction Hsub as [|x k l Hsub IH|x k l Hsub IH]; intros Hs.
  - constructor.
  - inversion Hs as [|? ? Hl Hx]; subst. constructor; [apply IH, Hl|].
    rewrite List.Forall_forall in *. intros y Hy. apply Hx.
    apply list_elem_of_In. eapply sublist_submseteq, elem_of_submseteq in Hsub;
      [exact Hsub | apply list_elem_of_In, Hy].
  - inversion Hs; subst. apply IH. assumption.
Qed.

Lemma final_of_spec (d : taskdict) (p : Path) (t : MonitorTask) :
  List.NoDup (keys d) ->
  In (p, t) (final_of d) <->
  dict_lookup p d = Some t /\ forall q, In q (keys (final_of d)) -> ~ covers q p.
Proof.
  intros Hnd. unfold final_of. split.
  - intros Hin. split.
    + apply prune_from in Hin as [[] | [_ H]]. exact H.
    + intros q Hq. apply (prune_antichain d (sorted id (keys d)) []).
      * cbn [keys List.map List.app]. apply (sorted_sorted id).
      * intros a b [].
      * apply (List.in_map fst _ (p, t)), Hin.
      * exact Hq.
  - intros [Hlook Hfree]. apply prune_complete; [|exact Hlook | exact Hfree].
    apply (Permutation_in _ (Permutation_sym (sorted_perm id (keys d)))).
    apply (List.in_map fst _ (p, t)), dict_lookup_In, Hlook.
Qed.

Lemma final_of_keys_sublist (d : taskdict) :
  sublist (keys (final_of d)) (sorted id (keys d)).
Proof.
  unfold final_of. destruct (prune_keys_sublist d (sorted id (keys d)) []) as (k & -> & Hk).
  exact Hk.
Qed.

Lemma final_of_keys_sorted (d : taskdict) : StronglySorted path_le (keys (final_of d)).
Proof.
  eapply sublist_StronglySorted; [apply final_of_keys_sublist|].
  apply (sorted_sorted id).
Qed.

Lemma final_of_keys_NoDup (d : taskdict) :
  List.NoDup (keys d) -> List.NoDup (keys (final_of d)).
Proof.
  intros Hnd. apply NoDup_ListNoDup.
  eapply sublist_NoDup; [|apply final_of_keys_sublist].
  apply NoDup_ListNoDup.
  eapply Permutation_NoDup; [symmetry; apply (sorted_perm id)|]. exact Hnd.
Qed.

Lemma map_key_sorted {A : Type} (key : A -> Path) (l : list A) :
  StronglySorted path_le (List.map key l) -> StronglySorted (key_le key) l.
Proof.
  induction l as [|x l IH]; intros Hs; [constructor|].
  cbn [List.map] in Hs. inversion Hs as [|? ? Hl Hx]; subst.
  constructor; [apply IH, Hl|].
  rewrite List.Forall_map in Hx. exact Hx.
Qed.

(** What a pruned dict of the batch keeps: under each path the last task
    with the action, unless a kept path is a proper ancestor. *)
Lemma final_by_action (act : string) (tasks : list MonitorTask) :
  let kept := values (final_of (by_action act tasks)) in
  List.map path kept = keys (final_of (by_action act tasks)) /\
  (forall t, In t kept <->
             last_task act (path t) tasks = Some t /\
             ~ exists t', In t' kept /\ path t <> path t' /\
                          is_relative_to (path t) (path t') = true).
Proof.
  set (d := by_action act tasks). intros kept.
  assert (Hnd : List.NoDup (keys d)) by apply by_action_NoDup.
  assert (Hpath : forall p t, In (p, t) (final_of d) -> path t = p).
  { intros p t Hin. apply final_of_spec in Hin as [Hlook _]; [|exact Hnd].
    unfold d in Hlook. rewrite by_action_lookup in Hlook.
    apply last_task_inv in Hlook. apply Hlook. }
  assert (Hkeys : List.map path kept = keys (final_of d)).
  { subst kept. unfold values, keys. rewrite List.map_map.
    apply List.map_ext_in. intros [p t] Hin. cbn [fst snd]. apply Hpath, Hin. }
  split; [exact Hkeys|]. intros t. split.
  - intros Hin. subst kept. unfold values in Hin.
    apply List.in_map_iff in Hin as ([p t0] & Heq & Hin). cbn [snd] in Heq. subst t0.
    pose proof (Hpath p t Hin) as Hp. subst p.
    apply final_of_spec in Hin as [Hlook Hfree]; [|exact Hnd].
    unfold d in Hlook. rewrite by_action_lookup in Hlook.
    split; [exact Hlook|]. intros (t' & Hin' & Hne & Hrel).
    apply (Hfree (path t')); [|split; assumption].
    rewrite <- Hkeys. apply List.in_map, Hin'.
  - intros [Hlast Hfree]. subst kept. unfold values.
    apply List.in_map_iff. exists (path t, t). split; [reflexivity|].
    apply final_of_spec; [exact Hnd|]. unfold d at 1. rewrite by_action_lookup.
    split; [exact Hlast|]. intros q Hq [Hne Hrel]. apply Hfree.
    rewrite <- Hkeys in Hq. apply List.in_map_iff in Hq as (t' & <- & Hin').
    exists t'. auto.
Qed.

Lemma NoDup_map_fst_filter {A B : Type} (f : A * B -> bool) (l : list (A * B)) :
  List.NoDup (List.map fst l) -> List.NoDup (List.map fst (List.filter f l)).
Proof.
  induction l as [|x l IH]; cbn [List.map List.filter]; [auto|].
  intros Hnd. inversion Hnd as [|? ? Hx Hl]; subst.
  destruct (f x); [|apply IH, Hl]. cbn [List.map]. constructor; [|apply IH, Hl].
  intros Hin. apply Hx. apply List.in_map_iff in Hin as (y & Hy & Hin).
  apply List.filter_In in Hin as [Hin _]. rewrite <- Hy. apply List.in_map, Hin.
Qed.

Lemma by_action_path (act : string) (tasks : list MonitorTask) (p : Path) (t : MonitorTask) :
  In (p, t) (by_action act tasks) -> path t = p.
Proof.
  intros Hin. apply In_dict_lookup in Hin; [|apply by_action_NoDup].
  rewrite by_action_lookup in Hin. apply last_task_inv in Hin. apply Hin.
Qed.

Lemma final_scan_files_spec (tasks : list MonitorTask) (t : MonitorTask) :
  In t (final_scan_files tasks) <->
  last_task "scan_file" (path t) tasks = Some t /\
  ~ exists t', In t' (values (final_scan_folders tasks)) /\
               is_relative_to (path t) (path t') = true.
Proof.
  destruct (final_by_action "scan_folder" tasks) as [Hkeys _].
  fold (final_scan_folders tasks) in Hkeys.
  unfold final_scan_files. rewrite List.in_map_iff. split.
  - intros ([p t0] & Heq & Hin). cbn [snd] in Heq. subst t0.
    apply List.filter_In in Hin as [Hin Hf]. cbn [fst] in Hf.
    pose proof (by_action_path _ _ _ _ Hin) as Hp. subst p.
    apply In_dict_lookup in Hin; [|apply by_action_NoDup].
    rewrite by_action_lookup in Hin. split; [exact Hin|].
    intros (t' & Hin' & Hrel). apply negb_true_iff in Hf.
    assert (Hex : List.existsb (fun folder_path => is_relative_to (path t) folder_path)
                               (keys (final_scan_folders tasks)) = true).
    { apply List.existsb_exists. exists (path t'). split; [|exact Hrel].
      rewrite <- Hkeys. apply List.in_map, Hin'. }
    congruence.
  - intros [Hlast Hfree]. exists (path t, t). split; [reflexivity|].
    apply List.filter_In. split.
    + apply dict_lookup_In. rewrite by_action_lookup. exact Hlast.
    + cbn [fst]. apply negb_true_iff.
      destruct (List.existsb _ _) eqn:Hex; [|reflexivity].
      exfalso. apply Hfree. apply List.existsb_exists in Hex as (q & Hq & Hrel).
      rewrite <- Hkeys in Hq. apply List.in_map_iff in Hq as (t' & <- & Hin').
      exists t'. auto.
Qed.

Lemma final_scan_files_NoDup (tasks : list MonitorTask) :
  List.NoDup (List.map path (final_scan_files tasks)).
Proof.
  unfold final_scan_files. rewrite List.map_map.
  erewrite List.map_ext_in.
  - apply NoDup_map_fst_filter, by_action_NoDup.
  - intros [p t] Hin. cbn [fst snd]. apply List.filter_In in Hin as [Hin _].
    apply (by_action_path _ _ _ _ Hin).
Qed.

Lemma is_prefix_app (l k : list string) : is_prefix l (l ++ k) = true.
Proof.
  induction l as [|x l IH]; [reflexivity|].
  cbn [List.app is_prefix]. rewrite String.eqb_refl. exact IH.
Qed.

Lemma is_relative_to_child (A : Path) (x : string) : is_relative_to (child A x) A = true.
Proof.
  unfold is_relative_to, child. cbn [absolute parts].
  rewrite Bool.eqb_reflx, is_prefix_app. reflexivity.
Qed.

(** The batch of the specification: a folder scan covers the file scans
    under the folder. *)
Lemma optimize_tasks_example (A : Path) (b c : string) :
  optimize_tasks [ mkTask "scan_folder" A None;
                   mkTask "scan_file" (child A b) None;
                   mkTask "scan_file" (child A c) None ]
  = [ mkTask "scan_folder" A None ].
Proof.
  unfold optimize_tasks.
  assert (Hdel : values (final_deletes
                   [ mkTask "scan_folder" A None; mkTask "scan_file" (child A b) None;
                     mkTask "scan_file" (child A c) None ]) = []) by reflexivity.
  assert (Hfold : final_scan_folders
                   [ mkTask "scan_folder" A None; mkTask "scan_file" (child A b) None;
                     mkTask "scan_file" (child A c) None ]
                  = [(A, mkTask "scan_folder" A None)]).
  { unfold final_scan_folders, final_of, by_action.
    cbn [List.fold_left action path String.eqb Ascii.eqb Bool.eqb dict_set keys List.map fst].
    cbn [sorted List.fold_left insert_sorted id prune has_kept_ancestor keys List.map
         List.existsb dict_lookup].
    rewrite bool_decide_eq_true_2 by reflexivity. reflexivity. }
  assert (Hfiles : final_scan_files
                   [ mkTask "scan_folder" A None; mkTask "scan_file" (child A b) None;
                     mkTask "scan_file" (child A c) None ] = []).
  { unfold final_scan_files. rewrite Hfold. unfold by_action.
    cbn [List.fold_left action path String.eqb Ascii.eqb Bool.eqb dict_set keys List.map fst].
    destruct (bool_decide (child A c = child A b));
      cbn [List.filter fst keys List.map List.existsb];
      rewrite ?is_relative_to_child; reflexivity. }
  rewrite Hdel, Hfold, Hfiles. reflexivity.
Qed.

(** C5 (as the code has it). [optimize_tasks] emits the kept deletes, then
    every move task of the batch in its order, then the kept folder scans,
    then the kept file scans. Under one path and action only the last task
    of the batch is kept (duplicates merge). A delete or a folder scan is
    dropped exactly when a kept task of the same kind sits at a proper
    ancestor of its path; a file scan exactly when a kept folder scan sits
    at its path or above it. The kept folder scans come in ascending path
    order, the order of pathlib on the components, in which every path
    comes after its proper ancestors (it is not an order by depth). The
    batch [scan_folder(A), scan_file(A/b), scan_file(A/c)] gives
    [scan_folder(A)]. *)
Theorem optimize_tasks_spec (tasks : list MonitorTask) :
  let deletes := values (final_deletes tasks) in
  let folder_scans := values (final_scan_folders tasks) in
  let file_scans := final_scan_files tasks in
  let below_kept (kept : list MonitorTask) (t : MonitorTask) :=
    exists t', In t' kept /\ path t <> path t' /\
               is_relative_to (path t) (path t') = true in
  optimize_tasks tasks
  = deletes ++ List.filter (fun t => String.eqb (action t) "move") tasks
      ++ folder_scans ++ file_scans /\
  (forall t, In t deletes <->
             last_task "delete" (path t) tasks = Some t /\ ~ below_kept deletes t) /\
  (forall t, In t folder_scans <->
             last_task "scan_folder" (path t) tasks = Some t /\
             ~ below_kept folder_scans t) /\
  (forall t, In t file_scans <->
             last_task "scan_file" (path t) tasks = Some t /\
             ~ exists t', In t' folder_scans /\
                          is_relative_to (path t) (path t') = true) /\
  List.NoDup (List.map path deletes) /\
  List.NoDup (List.map path folder_scans) /\
  List.NoDup (List.map path file_scans) /\
  StronglySorted (fun a b => path_ltb (path b) (path a) = false) folder_scans /\
  (forall p q, is_relative_to p q = true -> p <> q -> path_ltb q p = true) /\
  (forall A b c,
     optimize_tasks [ mkTask "scan_folder" A None;
                      mkTask "scan_file" (child A b) None;
                      mkTask "scan_file" (child A c) None ]
     = [ mkTask "scan_folder" A None ]).
Proof.
  intros deletes folder_scans file_scans below_kept.
  destruct (final_by_action "delete" tasks) as [Hdk Hdel].
  destruct (final_by_action "scan_folder" tasks) as [Hfk Hfold].
  fold (final_deletes tasks) in Hdk, Hdel.
  fold (final_scan_folders tasks) in Hfk, Hfold.
  assert (Hsorted : StronglySorted (key_le path) folder_scans).
  { apply map_key_sorted. subst folder_scans. rewrite Hfk. apply final_of_keys_sorted. }
  split.
  { unfold optimize_tasks. destruct tasks as [|t0 tasks]; [reflexivity|].
    fold folder_scans. rewrite (sorted_id path folder_scans Hsorted). reflexivity. }
  split; [exact Hdel|]. split; [exact Hfold|].
  split; [intros t; apply final_scan_files_spec|].
  split.
  { subst deletes. rewrite Hdk. apply final_of_keys_NoDup, by_action_NoDup. }
  split.
  { subst folder_scans. rewrite Hfk. apply final_of_keys_NoDup, by_action_NoDup. }
  split; [apply final_scan_files_NoDup|].
  split; [exact Hsorted|].
  split; [apply ancestor_first | apply optimize_tasks_example].
Qed.

End MonitorProperties.

(** ** repository.py and scanner.py: what an operation leaves alone *)

Lemma get_or_create_folder_rec_frame (root : Path) (abs : bool) (rparts : list string)
  (st : State) :
  let r := get_or_create_folder_rec root abs rparts st in
  comics (fst r) = comics st /\ metadata (fst r) = metadata st /\
  thumbnails (fst r) = thumbnails st.
Proof.
  revert st. induction rparts as [|x rparts IH]; intros st; cbn [get_or_create_folder_rec].
  - destruct (folder_by_path st _); [cbn; auto|].
    destruct (PathLib.eqb _ root); cbn; auto.
  - destruct (folder_by_path st _); [cbn; auto|].
    destruct (PathLib.eqb _ root); [cbn; auto|].
    destruct (is_relative_to _ root); [|cbn; auto].
    specialize (IH st).
    destruct (get_or_create_folder_rec root abs rparts st) as [st' parent_folder].
    cbn in IH |- *. exact IH.
Qed.

Lemma get_or_create_folder_frame (root path : Path) (st : State) :
  let r := get_or_create_folder root path st in
  comics (fst r) = comics st /\ metadata (fst r) = metadata st /\
  thumbnails (fst r) = thumbnails st.
Proof. apply get_or_create_folder_rec_frame. Qed.

Lemma get_or_create_folder_found (root path : Path) (st : State) (folder : Folder) :
  folder_by_path st (to_relative path root) = Some folder ->
  get_or_create_folder root path st = (st, folder).
Proof.
  unfold get_or_create_folder. intros H.
  assert (Hrev : mkPath (absolute path) (List.rev (List.rev (parts path))) = path).
  { rewrite List.rev_involutive. destruct path; reflexivity. }
  destruct (List.rev (parts path)) as [|x l] eqn:Hl; cbn [get_or_create_folder_rec];
    rewrite Hrev, H; reflexivity.
Qed.

(** ** scanner.py: a second scan of an unchanged subtree *)

Lemma process_comic_unchanged (config : IssuedConfig) (fs : node) (st : State)
  (f : Path) (folder_id : Z) :
  file_unchanged config fs st f ->
  exists uuid existing thumb,
    process_comic config fs f folder_id false st
    = mkEnded None (Ok (st, (uuid, existing, true, thumb))).
Proof.
  intros Hun. unfold process_comic.
  destruct (stat fs f) as [[file_mtime file_size]|e] eqn:Hstat; [|eauto].
  destruct (Hun _ _ Hstat) as (comic & meta & Hrow & Hmtime).
  rewrite Hrow.
  assert (Hskip : _should_skip_comic (Some (comic, Some meta)) file_mtime false = true).
  { apply should_skip_spec. exists comic, meta. auto. }
  rewrite Hskip. eauto.
Qed.

Lemma scan_files_unchanged (config : IssuedConfig) (fs : node) (st : State)
  (folder_id : Z) (files : list Path) (stats : Stats) (processed : gset Path) :
  (forall f, In f files -> file_unchanged config fs st f) ->
  exists stats' processed',
    scan_files config fs folder_id false files (st, stats, processed)
    = Ok (st, stats', processed') /\
    added stats' = added stats /\ updated stats' = updated stats /\
    deleted stats' = deleted stats.
Proof.
  revert stats processed. induction files as [|f files IH]; intros stats processed Hun.
  - exists stats, processed. auto.
  - cbn [scan_files].
    destruct (process_comic_unchanged config fs st f folder_id)
      as (uuid & existing & thumb & ->); [apply Hun; left; reflexivity|].
    cbn [value].
    destruct (IH (mkStats (added stats) (updated stats) (deleted stats) (skipped stats + 1))
                 (processed ∪ {[ f ]})) as (stats' & processed' & -> & H1 & H2 & H3).
    { intros g Hg. apply Hun. right. exact Hg. }
    exists stats', processed'. auto.
Qed.

(** The name of a directory for the log line is there when the directory
    lies under the root. *)
Lemma scan_dirs_name (dir_path library_root : Path) :
  is_relative_to dir_path library_root = true ->
  exists rel_folder,
    (if negb (PathLib.eqb dir_path library_root)
     then relative_to dir_path library_root
     else Ok (of_str ".")) = Ok rel_folder.
Proof.
  intros Hrel. unfold relative_to. rewrite Hrel.
  destruct (negb (PathLib.eqb dir_path library_root)); eauto.
Qed.

Lemma scan_dirs_unchanged (config : IssuedConfig) (fs : node) (st : State)
  (dirs : list (Path * list Path)) (stats : Stats) (processed : gset Path) :
  (forall dir files, In (dir, files) dirs ->
     is_relative_to dir (library_path config) = true /\
     folder_by_path st (to_relative dir (library_path config)) <> None /\
     forall f, In f files -> file_unchanged config fs st f) ->
  exists stats' processed',
    scan_dirs config fs false dirs (st, stats, processed) = Ok (st, stats', processed') /\
    added stats' = added stats /\ updated stats' = updated stats /\
    deleted stats' = deleted stats.
Proof.
  revert stats processed. induction dirs as [|[dir files] dirs IH]; intros stats processed H.
  - exists stats, processed. auto.
  - cbn [scan_dirs].
    destruct (H dir files (or_introl eq_refl)) as (Hunder & Hrow & Hfiles).
    destruct (folder_by_path st (to_relative dir (library_path config))) as [folder|] eqn:Hf;
      [|congruence].
    rewrite (get_or_create_folder_found _ _ _ _ Hf).
    destruct (scan_dirs_name dir (library_path config) Hunder) as [rel_folder ->].
    cbn [bind].
    destruct (scan_files_unchanged config fs st (f_id folder) files stats processed Hfiles)
      as (stats1 & processed1 & -> & H1 & H2 & H3).
    cbn [bind].
    destruct (IH stats1 processed1) as (stats' & processed' & -> & H1' & H2' & H3').
    { intros d fl Hin. apply H. right. exact Hin. }
    exists stats', processed'. repeat split; congruence.
Qed.

Lemma reconcile_comics_noop (config : IssuedConfig) (fs : node) (processed : gset Path)
  (db_comics : list Comic) (acc : State * Stats) :
  (forall c, In c db_comics ->
             exists_ fs (to_absolute (c_path c) (library_path config)) = true) ->
  reconcile_comics config fs processed db_comics acc = acc.
Proof.
  revert acc. induction db_comics as [|c l IH]; intros [st stats] H; [reflexivity|].
  cbn [reconcile_comics]. rewrite (H c (or_introl eq_refl)).
  rewrite andb_false_r. apply IH. intros c' Hc'. apply H. right. exact Hc'.
Qed.

Lemma reconcile_folders_noop (config : IssuedConfig) (fs : node)
  (db_folders : list Folder) (st : State) :
  (forall f, In f db_folders ->
             exists_ fs (to_absolute (f_path f) (library_path config)) = true) ->
  reconcile_folders config fs db_folders st = st.
Proof.
  induction db_folders as [|f l IH]; intros H; [reflexivity|].
  cbn [reconcile_folders]. rewrite (H f (or_introl eq_refl)). cbn [negb].
  apply IH. intros f' Hf'. apply H. right. exact Hf'.
Qed.

(** ** scanner.py: what the walk yields *)

Scheme node_entries_ind := Induction for node Sort Prop
  with entries_node_ind := Induction for entries Sort Prop.
Combined Scheme node_entries_mutind from node_entries_ind, entries_node_ind.

Lemma lookup_parts_snoc (n : node) (ps : list string) (nm : string) :
  lookup_parts n (ps ++ [nm]) =
  match lookup_parts n ps with
  | Some (Dir _ es) => find_entry nm es
  | _ => None
  end.
Proof.
  revert n. induction ps as [|p ps IH]; intros n; cbn [List.app lookup_parts].
  - destruct n as [i | st es]; [reflexivity|].
    destruct (find_entry nm es); reflexivity.
  - destruct n as [i | st es]; [reflexivity|].
    destruct (find_entry p es) as [n'|]; [apply IH | reflexivity].
Qed.

Lemma lookup_parts_app (n : node) (ps qs : list string) :
  lookup_parts n (ps ++ qs) =
  match lookup_parts n ps with
  | Some n' => lookup_parts n' qs
  | None => None
  end.
Proof.
  revert n. induction ps as [|p ps IH]; intros n; cbn [List.app lookup_parts]; [reflexivity|].
  destruct n as [i | st es]; [reflexivity|].
  destruct (find_entry p es) as [n'|]; [apply IH | reflexivity].
Qed.

Lemma find_entry_unique (es : entries) (nm : string) (n : node) :
  List.NoDup (entry_names es) -> entry_in nm n es -> find_entry nm es = Some n.
Proof.
  induction es as [|nm' n' rest IH]; cbn [entry_names entry_in find_entry]; [intros _ []|].
  intros Hnd Hin. inversion Hnd as [|? ? Hnotin Hrest]; subst.
  destruct Hin as [[-> ->] | Hin].
  - rewrite String.eqb_refl. reflexivity.
  - destruct (String.eqb_spec nm nm') as [-> | Hne]; [|apply IH; assumption].
    exfalso. apply Hnotin. clear -Hin.
    induction rest as [|a b rest IHr]; cbn [entry_in entry_names] in *; [destruct Hin|].
    destruct Hin as [[-> _] | Hin]; [left; reflexivity | right; apply IHr, Hin].
Qed.

Lemma is_prefix_trans (l1 l2 l3 : list string) :
  is_prefix l1 l2 = true -> is_prefix l2 l3 = true -> is_prefix l1 l3 = true.
Proof.
  revert l2 l3. induction l1 as [|x l1 IH]; intros [|y l2] [|z l3]; cbn [is_prefix];
    try discriminate; auto.
  intros H1 H2. apply andb_true_iff in H1 as [Hxy H1]. apply andb_true_iff in H2 as [Hyz H2].
  apply String.eqb_eq in Hxy, Hyz. subst. rewrite String.eqb_refl. cbn [andb].
  exact (IH _ _ H1 H2).
Qed.

Lemma is_relative_to_trans (p q r : Path) :
  is_relative_to p q = true -> is_relative_to q r = true -> is_relative_to p r = true.
Proof.
  unfold is_relative_to. intros H1 H2.
  apply andb_true_iff in H1 as [A1 P1]. apply andb_true_iff in H2 as [A2 P2].
  apply Bool.eqb_prop in A1, A2. rewrite A1, A2, Bool.eqb_reflx. cbn [andb].
  exact (is_prefix_trans _ _ _ P2 P1).
Qed.

Lemma wf_child (dir_path : Path) (nm : string) :
  valid_part nm = true -> wf dir_path -> wf (child dir_path nm).
Proof.
  unfold wf, child. cbn [parts]. intros Hv Hwf. apply List.Forall_app. split; [exact Hwf|].
  constructor; [exact Hv | constructor].
Qed.

(** Every file the walk yields is on disk, lies under the directory the
    walk started from, and has a well-formed path if that directory has. *)
Lemma walk_files_good (fs : node) (patterns : list string) :
  (forall n dir_path,
     fs_ok n -> lookup_path fs dir_path = Some n ->
     forall d files f,
       In (d, files) (walk_node patterns dir_path n) -> In f files ->
       exists_ fs f = true /\ (wf dir_path -> wf f) /\ is_relative_to f dir_path = true) /\
  (forall es dir_path,
     entries_ok es ->
     (forall nm n', entry_in nm n' es -> lookup_path fs (child dir_path nm) = Some n') ->
     List.Forall (fun nm => valid_part nm = true) (entry_names es) ->
     (forall f, In f (comic_files_of dir_path patterns es) ->
        exists_ fs f = true /\ (wf dir_path -> wf f) /\ is_relative_to f dir_path = true) /\
     (forall d files f,
        In (d, files) (walk_entries patterns dir_path es) -> In f files ->
        exists_ fs f = true /\ (wf dir_path -> wf f) /\ is_relative_to f dir_path = true)).
Proof.
  apply node_entries_mutind.
  - intros i dir_path _ _ d files f [].
  - intros st es IH dir_path (Hnd & Hvalid & Hok) Hlook d files f Hin Hf.
    assert (Hentries : forall nm n', entry_in nm n' es ->
                         lookup_path fs (child dir_path nm) = Some n').
    { intros nm n' Hin'. unfold lookup_path, child in *. cbn [parts].
      rewrite lookup_parts_snoc, Hlook. apply find_entry_unique; assumption. }
    destruct (IH dir_path Hok Hentries Hvalid) as [Hfiles Hwalk].
    cbn [walk_node] in Hin. destruct Hin as [[= <- <-] | Hin].
    + apply Hfiles, Hf.
    + exact (Hwalk d files f Hin Hf).
  - intros dir_path _ _ _. split; [intros f [] | intros d files f []].
  - intros nm n IHn rest IHrest dir_path [Hn Hrest] Hentries Hvalid.
    cbn [entry_names] in Hvalid. inversion Hvalid as [|? ? Hnm Hvrest]; subst.
    assert (Hhead : lookup_path fs (child dir_path nm) = Some n).
    { apply Hentries. cbn [entry_in]. left. auto. }
    assert (Htail : forall nm' n', entry_in nm' n' rest ->
                      lookup_path fs (child dir_path nm') = Some n').
    { intros nm' n' Hin'. apply Hentries. cbn [entry_in]. right. exact Hin'. }
    destruct (IHrest dir_path Hrest Htail Hvrest) as [Hfiles Hwalk].
    split.
    + intros f Hf. cbn [comic_files_of] in Hf.
      destruct (negb (is_dir_node n) && negb (_should_ignore nm patterns)
                && is_comic_file (of_str nm)); [|apply Hfiles, Hf].
      destruct Hf as [<- | Hf]; [|apply Hfiles, Hf].
      split; [|split].
      * unfold exists_. rewrite Hhead. reflexivity.
      * apply wf_child, Hnm.
      * apply is_relative_to_child.
    + intros d files f Hin Hf. cbn [walk_entries] in Hin.
      apply List.in_app_or in Hin as [Hin | Hin]; [|exact (Hwalk d files f Hin Hf)].
      destruct (is_dir_node n && negb (_should_ignore nm patterns)); [|destruct Hin].
      destruct (IHn (child dir_path nm) Hn Hhead d files f Hin Hf) as (He & Hw & Hr).
      split; [exact He|]. split.
      * intros Hwf. apply Hw, wf_child; assumption.
      * eapply is_relative_to_trans; [exact Hr | apply is_relative_to_child].
Qed.

Lemma find_entry_ok (es : entries) (nm : string) (n : node) :
  entries_ok es -> find_entry nm es = Some n -> fs_ok n.
Proof.
  induction es as [|nm' n' rest IH]; cbn [entries_ok find_entry]; [discriminate|].
  intros [Hn' Hrest]. destruct (String.eqb nm nm'); [|apply IH, Hrest].
  intros [= <-]. exact Hn'.
Qed.

Lemma lookup_parts_ok (n : node) (ps : list string) (n' : node) :
  fs_ok n -> lookup_parts n ps = Some n' -> fs_ok n'.
Proof.
  revert n. induction ps as [|p ps IH]; intros n Hok; cbn [lookup_parts].
  - intros [= <-]. exact Hok.
  - destruct n as [i | st es]; [discriminate|].
    destruct (find_entry p es) as [m|] eqn:Hfind; [|discriminate].
    apply IH. destruct Hok as (_ & _ & Hes). exact (find_entry_ok _ _ _ Hes Hfind).
Qed.

Lemma walk_library_good (fs : node) (base : Path) (patterns : list string)
  (d : Path) (files : list Path) (f : Path) :
  fs_ok fs -> wf base ->
  In (d, files) (walk_library fs base patterns) -> In f files ->
  exists_ fs f = true /\ wf f /\ is_relative_to f base = true.
Proof.
  intros Hok Hwf Hin Hf. unfold walk_library in Hin.
  destruct (lookup_path fs base) as [n|] eqn:Hlook; [|destruct Hin].
  assert (Hn : fs_ok n) by exact (lookup_parts_ok _ _ _ Hok Hlook).
  destruct (proj1 (walk_files_good fs patterns) n base Hn Hlook d files f Hin Hf)
    as (He & Hw & Hr).
  auto.
Qed.

(** ** scanner.py: the reconciliation *)

Lemma is_relative_to_refl (p : Path) : is_relative_to p p = true.
Proof.
  unfold is_relative_to. rewrite Bool.eqb_reflx. cbn [andb].
  induction (parts p) as [|x l IH]; [reflexivity|].
  cbn [is_prefix]. rewrite String.eqb_refl. exact IH.
Qed.

(** Every directory of the walk lies under the directory the walk started
    from. *)
Lemma walk_dirs_under (patterns : list string) :
  (forall n dir_path d files,
     In (d, files) (walk_node patterns dir_path n) -> is_relative_to d dir_path = true) /\
  (forall es dir_path d files,
     In (d, files) (walk_entries patterns dir_path es) ->
     is_relative_to d dir_path = true).
Proof.
  apply node_entries_mutind.
  - intros i dir_path d files [].
  - intros st es IH dir_path d files Hin. cbn [walk_node] in Hin.
    destruct Hin as [[= <- _] | Hin]; [apply is_relative_to_refl|].
    exact (IH _ _ _ Hin).
  - intros dir_path d files [].
  - intros nm n IHn rest IHrest dir_path d files Hin. cbn [walk_entries] in Hin.
    apply List.in_app_or in Hin as [Hin | Hin]; [|exact (IHrest _ _ _ Hin)].
    destruct (is_dir_node n && negb (_should_ignore nm patterns)); [|destruct Hin].
    apply (is_relative_to_trans d (child dir_path nm) dir_path).
    + exact (IHn _ _ _ Hin).
    + apply is_relative_to_child.
Qed.

Lemma walk_library_dirs_under (fs : node) (base : Path) (patterns : list string)
  (d : Path) (files : list Path) :
  In (d, files) (walk_library fs base patterns) -> is_relative_to d base = true.
Proof.
  unfold walk_library. destruct (lookup_path fs base) as [n|]; [|intros []].
  apply (proj1 (walk_dirs_under patterns)).
Qed.

(** X1. A scan without [force] of a subtree of the library that is as the
    index has it (every directory of the walk has its folder row; every
    archive file of the walk has a row with the file's mtime and a metadata
    row; the file of every item and the directory of every folder the scan
    looks at are on disk) runs to its end and leaves the index exactly as
    it was: no item is added, updated or deleted, and every stored field of
    every item, the last-synced timestamp included, is the same before and
    after. *)
Theorem rescan_unchanged (config : IssuedConfig) (fs : node) (path : option Path)
  (st : State) :
  let base := match path with Some p => p | None => library_path config end in
  exists_ fs base = true ->
  is_relative_to base (library_path config) = true ->
  (forall dir files,
     In (dir, files) (walk_library fs base (ignore_patterns config)) ->
     folder_by_path st (to_relative dir (library_path config)) <> None /\
     forall f, In f files -> file_unchanged config fs st f) ->
  (forall c, In c (select_comics config base st) ->
             exists_ fs (to_absolute (c_path c) (library_path config)) = true) ->
  (forall f, In f (select_folders config base st) ->
             exists_ fs (to_absolute (f_path f) (library_path config)) = true) ->
  exists stats,
    scan_library config fs path false st = Ok (st, stats) /\
    added stats = 0%Z /\ updated stats = 0%Z /\ deleted stats = 0%Z.
Proof.
  intros base Hbase Hunder Hwalk Hcomics Hfolders. unfold scan_library. fold base.
  rewrite Hbase. cbn [negb].
  destruct (scan_dirs_unchanged config fs st
              (walk_library fs base (ignore_patterns config)) (mkStats 0 0 0 0) ∅)
    as (stats & processed & -> & H1 & H2 & H3).
  { intros dir files Hin. split; [|exact (Hwalk dir files Hin)].
    apply (is_relative_to_trans dir base (library_path config)); [|exact Hunder].
    exact (walk_library_dirs_under fs base _ dir files Hin). }
  cbn [bind].
  rewrite (reconcile_comics_noop config fs processed _ (st, stats) Hcomics).
  rewrite (reconcile_folders_noop config fs _ st Hfolders).
  exists stats. auto.
Qed.

Lemma map_filter_comm {A B : Type} (f : A -> B) (P : B -> bool) (l : list A) :
  List.map f (List.filter (fun x => P (f x)) l) = List.filter P (List.map f l).
Proof.
  induction l as [|x l IH]; [reflexivity|].
  cbn [List.filter List.map]. destruct (P (f x)); cbn [List.map]; rewrite IH; reflexivity.
Qed.

Lemma delete_thumbnails_comics (uuids : list string) (st : State) :
  comics (delete_thumbnails uuids st) = comics st.
Proof. reflexivity. Qed.

Lemma delete_comic_by_path_paths (root path : Path) (st : State) :
  comic_paths (fst (delete_comic_by_path root path st))
  = List.filter (fun p => negb (String.eqb p (to_relative path root))) (comic_paths st).
Proof.
  unfold delete_comic_by_path, delete_comics_where, comic_paths. cbn [fst comics set_comics set_metadata].
  apply (map_filter_comm c_path (fun p => negb (String.eqb p (to_relative path root)))).
Qed.

Lemma delete_folder_by_path_paths (root path : Path) (st : State) :
  comic_paths (delete_folder_by_path root path st) = comic_paths st.
Proof.
  unfold delete_folder_by_path, delete_folders_where, comic_paths.
  cbn [comics set_comics set_folders]. rewrite List.map_map.
  apply List.map_ext. intros c. destruct (opt_in _ _); reflexivity.
Qed.

Lemma reconcile_folders_paths (config : IssuedConfig) (fs : node)
  (db_folders : list Folder) (st : State) :
  comic_paths (reconcile_folders config fs db_folders st) = comic_paths st.
Proof.
  revert st. induction db_folders as [|f l IH]; intros st; [reflexivity|].
  cbn [reconcile_folders]. destruct (negb (exists_ fs _)); [|apply IH].
  rewrite IH. apply delete_folder_by_path_paths.
Qed.

(** A path that is still stored after the reconciliation was stored before
    it; and if it is canonical and among the rows looked at, its file was
    walked or is on disk. *)
Lemma reconcile_comics_paths (config : IssuedConfig) (fs : node)
  (processed : gset Path) (db_comics : list Comic) (acc : State * Stats) (p : string) :
  In p (comic_paths (fst (reconcile_comics config fs processed db_comics acc))) ->
  In p (comic_paths (fst acc)) /\
  forall c, In c db_comics -> c_path c = p -> canonical (library_path config) p ->
            to_absolute p (library_path config) ∈ processed \/
            exists_ fs (to_absolute p (library_path config)) = true.
Proof.
  revert acc. induction db_comics as [|c l IH]; intros [st stats] Hin.
  - split; [exact Hin | intros c []].
  - cbn [reconcile_comics] in Hin.
    destruct (negb (bool_decide (to_absolute (c_path c) (library_path config) ∈ processed))
              && negb (exists_ fs (to_absolute (c_path c) (library_path config)))) eqn:Hcond.
    + destruct (delete_comic_by_path (library_path config)
                  (to_absolute (c_path c) (library_path config)) st)
        as [st1 deleted_uuids] eqn:Hdel.
      assert (Hpaths : forall st2,
                 st2 = match deleted_uuids with
                       | [] => st1
                       | _ => delete_thumbnails deleted_uuids st1
                       end -> comic_paths st2 = comic_paths st1).
      { intros st2 ->. destruct deleted_uuids; reflexivity. }
      apply IH in Hin as [Hin Hrest]. cbn [fst] in Hin.
      rewrite (Hpaths _ eq_refl) in Hin.
      assert (Hst1 : st1 = fst (delete_comic_by_path (library_path config)
                                  (to_absolute (c_path c) (library_path config)) st))
        by (rewrite Hdel; reflexivity).
      rewrite Hst1, delete_comic_by_path_paths in Hin.
      apply List.filter_In in Hin as [Hin Hne]. apply negb_true_iff, String.eqb_neq in Hne.
      split; [exact Hin|]. intros c' [<- | Hc'] Hp Hcanon.
      * exfalso. apply Hne. subst p. symmetry. exact Hcanon.
      * exact (Hrest c' Hc' Hp Hcanon).
    + apply IH in Hin as [Hin Hrest]. split; [exact Hin|].
      intros c' [<- | Hc'] Hp Hcanon; [|exact (Hrest c' Hc' Hp Hcanon)].
      subst p. apply andb_false_iff in Hcond as [H | H]; apply negb_false_iff in H.
      * left. apply bool_decide_eq_true in H. exact H.
      * right. exact H.
Qed.

Lemma scan_files_processed (config : IssuedConfig) (fs : node) (folder_id : Z)
  (force : bool) (files : list Path) (acc r : State * Stats * gset Path) (p : Path) :
  scan_files config fs folder_id force files acc = Ok r ->
  p ∈ snd r <-> p ∈ snd acc \/ In p files.
Proof.
  revert acc. induction files as [|f files IH]; intros [[st stats] processed] Hr.
  - cbn [scan_files] in Hr. injection Hr as <-. cbn [snd].
    split; [auto | intros [H | []]; exact H].
  - cbn [scan_files] in Hr.
    destruct (value (process_comic config fs f folder_id force st))
      as [[st' [[[uuid ex] skip] thumb]]|e]; [|discriminate].
    rewrite (IH _ Hr). cbn [snd]. rewrite elem_of_union, elem_of_singleton. cbn [In].
    split.
    + intros [[H | ->] | H]; auto.
    + intros [H | [<- | H]]; auto.
Qed.

(** One turn of [scan_dirs] that does not raise. *)
Lemma scan_dirs_step (config : IssuedConfig) (fs : node) (force : bool)
  (d : Path) (files : list Path) (dirs : list (Path * list Path))
  (st : State) (stats : Stats) (processed : gset Path) (r : State * Stats * gset Path) :
  scan_dirs config fs force ((d, files) :: dirs) (st, stats, processed) = Ok r ->
  exists r1,
    scan_files config fs
               (f_id (snd (get_or_create_folder (library_path config) d st)))
               force files
               (fst (get_or_create_folder (library_path config) d st), stats, processed)
    = Ok r1 /\
    scan_dirs config fs force dirs r1 = Ok r.
Proof.
  cbn [scan_dirs].
  destruct (get_or_create_folder (library_path config) d st) as [st1 folder].
  destruct (if negb (PathLib.eqb d (library_path config))
            then relative_to d (library_path config)
            else Ok (of_str ".")) as [rel_folder|e]; [|discriminate].
  cbn [bind fst snd].
  destruct (scan_files config fs (f_id folder) force files (st1, stats, processed))
    as [r1|e]; [|discriminate].
  cbn [bind]. intros Hr. exists r1. split; [reflexivity | exact Hr].
Qed.

Lemma scan_dirs_processed (config : IssuedConfig) (fs : node) (force : bool)
  (dirs : list (Path * list Path)) (acc r : State * Stats * gset Path) (p : Path) :
  scan_dirs config fs force dirs acc = Ok r ->
  p ∈ snd r <-> p ∈ snd acc \/ exists d files, In (d, files) dirs /\ In p files.
Proof.
  revert acc. induction dirs as [|[d files] dirs IH]; intros [[st stats] processed] Hr.
  - cbn [scan_dirs] in Hr. injection Hr as <-. cbn [snd].
    split; [auto | intros [H | (? & ? & [] & _)]; exact H].
  - apply scan_dirs_step in Hr as (r1 & Hfiles & Hr).
    rewrite (IH _ Hr), (scan_files_processed _ _ _ _ _ _ _ p Hfiles). cbn [snd]. split.
    + intros [[H | H] | (d' & files' & Hin & Hp)].
      * left. exact H.
      * right. exists d, files. split; [left; reflexivity | exact H].
      * right. exists d', files'. split; [right; exact Hin | exact Hp].
    + intros [H | (d' & files' & [[= <- <-] | Hin] & Hp)].
      * left. left. exact H.
      * left. right. exact Hp.
      * right. exists d', files'. auto.
Qed.

Lemma select_comics_spec (config : IssuedConfig) (base : Path) (st : State) (c : Comic) :
  In c (select_comics config base st) <->
  In c (comics st) /\
  (PathLib.eqb base (library_path config) = true \/
   Sql.like (Py.rstrip_slash (to_relative base (library_path config)) ++ "/%")
            (c_path c) = true).
Proof.
  unfold select_comics. destruct (PathLib.eqb base (library_path config)).
  - split; [intros H; split; [exact H | left; reflexivity] | intros [H _]; exact H].
  - rewrite List.filter_In. split; intros [H1 H2]; split; auto.
    destruct H2 as [H2 | H2]; [discriminate | exact H2].
Qed.

(** ** Paths: [to_relative] loses nothing *)

Lemma split_parts_no_sep (sep : ascii) (s : string) :
  List.Forall (fun x => Py.contains sep x = false) (Py.split sep s).
Proof.
  induction s as [|c s IH]; cbn [Py.split].
  - repeat constructor.
  - destruct (Ascii.eqb c sep) eqn:Hc.
    + constructor; [reflexivity | exact IH].
    + destruct (Py.split sep s) as [|x xs].
      * repeat constructor. cbn [Py.contains]. rewrite Hc. reflexivity.
      * inversion IH as [|? ? Hx Hxs]; subst. constructor; [|exact Hxs].
        cbn [Py.contains]. rewrite Hc, Hx. reflexivity.
Qed.

Lemma parse_parts_valid (s : string) :
  List.Forall (fun x => valid_part x = true) (parse_parts s).
Proof.
  unfold parse_parts. pose proof (split_parts_no_sep Py.slash s) as H.
  induction (Py.split Py.slash s) as [|x l IH]; cbn [List.filter]; [constructor|].
  inversion H as [|? ? Hx Hl]; subst.
  destruct (negb (String.eqb x "") && negb (String.eqb x ".")) eqn:Hf; [|apply IH, Hl].
  constructor; [|apply IH, Hl]. unfold valid_part. rewrite Hf, Hx. reflexivity.
Qed.

Lemma wf_prefix (p q : Path) : wf p -> is_relative_to p q = true -> wf q.
Proof.
  unfold wf, is_relative_to. intros Hwf H. apply andb_true_iff in H as [_ Hpre].
  apply is_prefix_spec in Hpre. rewrite Hpre in Hwf.
  apply List.Forall_app in Hwf as [Hq _]. exact Hq.
Qed.

Lemma to_absolute_wf (root : Path) (s : string) :
  wf root -> absolute root = true ->
  wf (to_absolute s root) /\ absolute (to_absolute s root) = true.
Proof.
  intros Hwf Habs. unfold to_absolute, joinpath.
  destruct (absolute (of_str s)) eqn:Ha.
  - split; [|exact Ha]. unfold wf, of_str. cbn [parts]. apply parse_parts_valid.
  - split; [|exact Habs]. unfold wf. cbn [parts]. apply List.Forall_app.
    split; [exact Hwf | apply parse_parts_valid].
Qed.

Lemma to_str_relative_not_anchored (l : list string) :
  List.Forall (fun s => valid_part s = true) l ->
  Py.startswith "/" (to_str (mkPath false l)) = false.
Proof.
  intros Hl. unfold to_str. cbn [absolute parts].
  destruct l as [|x l]; [reflexivity|]. apply join_not_anchored, Hl.
Qed.

Lemma to_relative_inj (root a f : Path) :
  absolute a = true -> wf a -> wf f -> is_relative_to f root = true ->
  to_relative a root = to_relative f root -> a = f.
Proof.
  intros Ha Hwa Hwf Hf Heq. unfold to_relative, relative_to in Heq. rewrite Hf in Heq.
  pose proof Hf as Hf'. unfold is_relative_to in Hf'.
  apply andb_true_iff in Hf' as [Hfabs Hfpre].
  apply Bool.eqb_prop in Hfabs. apply is_prefix_spec in Hfpre.
  assert (Hrf : List.Forall (fun s => valid_part s = true)
                  (List.skipn (List.length (parts root)) (parts f))).
  { unfold wf in Hwf. rewrite Hfpre in Hwf. apply List.Forall_app in Hwf as [_ H].
    exact H. }
  destruct (is_relative_to a root) eqn:Hrel.
  - pose proof Hrel as Hrel'. unfold is_relative_to in Hrel'.
    apply andb_true_iff in Hrel' as [Haabs Hapre].
    apply Bool.eqb_prop in Haabs. apply is_prefix_spec in Hapre.
    assert (Hra : List.Forall (fun s => valid_part s = true)
                    (List.skipn (List.length (parts root)) (parts a))).
    { unfold wf in Hwa. rewrite Hapre in Hwa. apply List.Forall_app in Hwa as [_ H].
      exact H. }
    apply (f_equal of_str) in Heq.
    rewrite !of_str_to_str_relative in Heq by assumption.
    injection Heq as Heq. destruct a as [aa al], f as [fa fl]. cbn [absolute parts] in *.
    rewrite Hapre, Hfpre, Heq. congruence.
  - exfalso. apply (f_equal (Py.startswith "/")) in Heq.
    rewrite to_str_relative_not_anchored in Heq by exact Hrf.
    unfold to_str in Heq. rewrite Ha in Heq. cbn in Heq. discriminate.
Qed.

(** ** scanner.py: the rows a scan writes *)

Lemma next_id_fresh (ids : list Z) : ~ In (next_id ids) ids.
Proof.
  assert (H : forall x, In x ids -> (x <= List.fold_right Z.max 0 ids)%Z).
  { induction ids as [|y ids IH]; intros x Hx; [destruct Hx|].
    cbn [List.fold_right]. destruct Hx as [-> | Hx]; [lia|].
    specialize (IH x Hx). lia. }
  intros Hin. apply H in Hin. unfold next_id in Hin. lia.
Qed.

Lemma NoDup_map_inj {A B : Type} (f : A -> B) (l : list A) (a b : A) :
  List.NoDup (List.map f l) -> In a l -> In b l -> f a = f b -> a = b.
Proof.
  induction l as [|x l IH]; intros Hnd Ha Hb Hab; [destruct Ha|].
  cbn [List.map] in Hnd. inversion Hnd as [|? ? Hx Hl]; subst.
  destruct Ha as [-> | Ha], Hb as [-> | Hb].
  - reflexivity.
  - exfalso. apply Hx. rewrite Hab. apply List.in_map, Hb.
  - exfalso. apply Hx. rewrite <- Hab. apply List.in_map, Ha.
  - exact (IH Hl Ha Hb Hab).
Qed.

Lemma NoDup_map_filter {A B : Type} (f : A -> B) (P : A -> bool) (l : list A) :
  List.NoDup (List.map f l) -> List.NoDup (List.map f (List.filter P l)).
Proof.
  induction l as [|x l IH]; intros Hnd; [constructor|].
  cbn [List.map] in Hnd. inversion Hnd as [|? ? Hx Hl]; subst.
  cbn [List.filter]. destruct (P x); [|exact (IH Hl)].
  cbn [List.map]. constructor; [|exact (IH Hl)].
  intros Hin. apply Hx. apply List.in_map_iff in Hin as (y & Hy & Hin).
  apply List.filter_In in Hin as [Hin _]. rewrite <- Hy. apply List.in_map, Hin.
Qed.

Lemma comic_by_path_in (st : State) (rel : string) (c : Comic) :
  comic_by_path st rel = Some c -> In c (comics st) /\ c_path c = rel.
Proof.
  unfold comic_by_path. intros H. apply List.find_some in H as [H1 H2].
  split; [exact H1 | apply String.eqb_eq, H2].
Qed.

Lemma in_comic_paths_by_path (st : State) (rel : string) :
  In rel (comic_paths st) <-> exists c, comic_by_path st rel = Some c.
Proof.
  split.
  - intros Hin. unfold comic_paths in Hin. apply List.in_map_iff in Hin as (c & Hc & Hin).
    unfold comic_by_path.
    destruct (List.find (fun c0 => String.eqb (c_path c0) rel) (comics st)) as [c'|] eqn:Hf.
    + exists c'. reflexivity.
    + exfalso. pose proof (List.find_none _ _ Hf c Hin) as Hn. cbn beta in Hn.
      rewrite Hc, String.eqb_refl in Hn. discriminate.
  - intros [c Hc]. apply comic_by_path_in in Hc as [Hin <-].
    unfold comic_paths. apply List.in_map, Hin.
Qed.

(** [upsert_comic] leaves a row at the path it was given; and where the
    ids are a key it keeps every path that was stored. *)
Lemma upsert_comic_rows (root : Path) (folder_id : Z) (path : Path)
  (filename fmt : string) (file_size page_count mtime : Z) (thumb : bool) (st : State) :
  let st' := fst (upsert_comic root folder_id path filename fmt file_size page_count
                               mtime thumb st) in
  In (to_relative path root) (comic_paths st') /\
  (comic_ids_unique st ->
   comic_ids_unique st' /\ forall p, In p (comic_paths st) -> In p (comic_paths st')).
Proof.
  unfold upsert_comic. cbn zeta.
  destruct (comic_by_path (tick st) (to_relative path root)) as [comic|] eqn:Hfind.
  - apply comic_by_path_in in Hfind as [Hin Hpath]. cbn [comics tick] in Hin.
    cbn [fst]. unfold comic_paths, comic_ids_unique.
    cbn [comics set_comics tick]. rewrite !List.map_map. split.
    + apply List.in_map_iff. exists comic. split; [|exact Hin].
      rewrite Z.eqb_refl. cbn [c_path]. exact Hpath.
    + intros Hnd. split.
      * erewrite List.map_ext; [exact Hnd|].
        intros c. cbn beta. destruct (Z.eqb (c_id c) (c_id comic)) eqn:He; [|reflexivity].
        cbn [c_id]. symmetry. apply Z.eqb_eq, He.
      * intros p Hp. apply List.in_map_iff in Hp as (c & Hc & Hcin).
        apply List.in_map_iff. exists c. split; [|exact Hcin].
        destruct (Z.eqb (c_id c) (c_id comic)) eqn:He; [|exact Hc].
        apply Z.eqb_eq in He.
        rewrite (NoDup_map_inj c_id (comics st) c comic Hnd Hcin Hin He) in Hc.
        cbn [c_path]. exact Hc.
  - cbn [fst]. unfold comic_paths, comic_ids_unique.
    cbn [comics set_comics set_metadata tick]. rewrite !List.map_app. cbn [List.map c_path c_id].
    split.
    + apply List.in_or_app. right. left. reflexivity.
    + intros Hnd. split.
      * apply NoDup_ListNoDup. apply NoDup_app. split; [apply NoDup_ListNoDup, Hnd|].
        split; [|apply NoDup_singleton].
        intros x Hx Hx'. apply list_elem_of_singleton in Hx'. subst x.
        apply list_elem_of_In in Hx. exact (next_id_fresh _ Hx).
      * intros p Hp. apply List.in_or_app. left. exact Hp.
Qed.

Lemma set_thumbnail_generated_frame (comic_id : Z) (generated : bool) (st : State) :
  List.map c_path (comics (set_thumbnail_generated comic_id generated st))
  = List.map c_path (comics st) /\
  List.map c_id (comics (set_thumbnail_generated comic_id generated st))
  = List.map c_id (comics st).
Proof.
  unfold set_thumbnail_generated. cbn [comics set_comics]. rewrite !List.map_map.
  split; apply List.map_ext; intros c; destruct (Z.eqb (c_id c) comic_id); reflexivity.
Qed.

Lemma generate_thumbnail_frame (fs : node) (comic_uuid : string) (comic_path : Path)
  (st : State) :
  let st' := fst (generate_thumbnail_for_comic fs comic_uuid comic_path st) in
  List.map c_path (comics st') = List.map c_path (comics st) /\
  List.map c_id (comics st') = List.map c_id (comics st).
Proof.
  unfold generate_thumbnail_for_comic.
  destruct (negb (exists_ fs comic_path)); [split; reflexivity|].
  destruct (_extract_first_image_bytes fs comic_path) as [img|]; [|split; reflexivity].
  destruct (String.eqb img ""); [split; reflexivity|].
  destruct (negb (save_thumbnail_ok img)); [split; reflexivity|].
  destruct (get_comic_by_uuid comic_uuid _) as [comic|]; cbn [fst].
  - apply (set_thumbnail_generated_frame (c_id comic) true
             (set_thumbnails (thumbnails st ∪ {[comic_uuid]}) st)).
  - split; reflexivity.
Qed.

Lemma exists_stat (fs : node) (p : Path) :
  exists_ fs p = true -> exists r, stat fs p = Ok r.
Proof.
  unfold exists_, stat. destruct (lookup_path fs p) as [[i | st es]|]; [eauto | eauto |].
  discriminate.
Qed.

Lemma find_map_upsert (rel : string) (comic comic' : Comic) (l : list Comic) :
  c_path comic' = rel ->
  List.find (fun c => String.eqb (c_path c) rel) l = Some comic ->
  List.find (fun c => String.eqb (c_path c) rel)
            (List.map (fun c => if Z.eqb (c_id c) (c_id comic) then comic' else c) l)
  = Some comic'.
Proof.
  intros Hrel. induction l as [|x l IH]; intros Hf; [discriminate|].
  cbn [List.find List.map] in *.
  destruct (String.eqb (c_path x) rel) eqn:Hx.
  - injection Hf as ->. rewrite Z.eqb_refl, Hrel, String.eqb_refl. reflexivity.
  - destruct (Z.eqb (c_id x) (c_id comic)).
    + rewrite Hrel, String.eqb_refl. reflexivity.
    + rewrite Hx. exact (IH Hf).
Qed.

Lemma find_app_new {A : Type} (P : A -> bool) (l : list A) (x : A) :
  List.find P l = None -> P x = true -> List.find P (l ++ [x]) = Some x.
Proof.
  intros Hn Hx. induction l as [|y l IH]; cbn [List.find app] in *.
  - rewrite Hx. reflexivity.
  - destruct (P y); [discriminate | exact (IH Hn)].
Qed.

(** The row [upsert_comic] returns is stored under the path, with the size,
    the page count and the mtime that were passed in and the time of the
    call. *)
Lemma upsert_comic_row (root : Path) (folder_id : Z) (path : Path)
  (filename fmt : string) (file_size page_count mtime : Z) (thumb : bool) (st : State) :
  let r := upsert_comic root folder_id path filename fmt file_size page_count mtime
                        thumb st in
  comic_by_path (fst r) (to_relative path root) = Some (snd r) /\
  c_file_size (snd r) = file_size /\ c_page_count (snd r) = page_count /\
  c_file_modified_at (snd r) = mtime /\
  c_last_scanned_at (snd r) = Some (now (ticks st)).
Proof.
  cbn zeta. unfold upsert_comic.
  destruct (comic_by_path (tick st) (to_relative path root)) as [comic|] eqn:Hfind.
  - cbn [fst snd]. pose proof (comic_by_path_in _ _ _ Hfind) as [_ Hpath].
    split; [|cbn; repeat split].
    unfold comic_by_path in *. cbn [comics set_comics tick] in *.
    apply find_map_upsert; [exact Hpath | exact Hfind].
  - cbn [fst snd]. split; [|cbn; repeat split].
    unfold comic_by_path in *. cbn [comics set_comics set_metadata tick] in *.
    apply find_app_new; [exact Hfind|]. cbn [c_path]. apply String.eqb_refl.
Qed.

Lemma find_map_path (rel : string) (f : Comic -> Comic) (l : list Comic) :
  (forall c, c_path (f c) = c_path c) ->
  List.find (fun c => String.eqb (c_path c) rel) (List.map f l)
  = option_map f (List.find (fun c => String.eqb (c_path c) rel) l).
Proof.
  intros Hf. induction l as [|x l IH]; [reflexivity|].
  cbn [List.map List.find]. rewrite Hf.
  destruct (String.eqb (c_path x) rel); [reflexivity | exact IH].
Qed.

(** [generate_thumbnail_for_comic] changes no row but for the thumbnail
    flag. *)
Lemma generate_thumbnail_row (fs : node) (comic_uuid : string) (comic_path : Path)
  (st : State) (rel : string) (c : Comic) :
  comic_by_path st rel = Some c ->
  exists c',
    comic_by_path (fst (generate_thumbnail_for_comic fs comic_uuid comic_path st)) rel
    = Some c' /\
    c_id c' = c_id c /\ c_uuid c' = c_uuid c /\ c_file_size c' = c_file_size c /\
    c_page_count c' = c_page_count c /\
    c_file_modified_at c' = c_file_modified_at c /\
    c_last_scanned_at c' = c_last_scanned_at c.
Proof.
  intros Hrow.
  assert (Hsame : exists c', comic_by_path st rel = Some c' /\
            c_id c' = c_id c /\ c_uuid c' = c_uuid c /\ c_file_size c' = c_file_size c /\
            c_page_count c' = c_page_count c /\
            c_file_modified_at c' = c_file_modified_at c /\
            c_last_scanned_at c' = c_last_scanned_at c).
  { exists c. repeat split. exact Hrow. }
  unfold generate_thumbnail_for_comic.
  destruct (negb (exists_ fs comic_path)); [exact Hsame|].
  destruct (_extract_first_image_bytes fs comic_path) as [img|]; [|exact Hsame].
  destruct (String.eqb img ""); [exact Hsame|].
  destruct (negb (save_thumbnail_ok img)); [exact Hsame|].
  destruct (get_comic_by_uuid comic_uuid _) as [comic|]; cbn [fst]; [|exact Hsame].
  unfold set_thumbnail_generated, comic_by_path in *.
  cbn [comics set_comics set_thumbnails] in *.
  rewrite find_map_path; [|intros x; destruct (Z.eqb _ _); reflexivity].
  rewrite Hrow. cbn [option_map]. eexists. split; [reflexivity|].
  destruct (Z.eqb (c_id c) (c_id comic)); cbn; repeat split.
Qed.

(** For an item of the index, [update_comic_metadata] returns when the
    payload can be stored and raises [OverflowError] when it cannot. *)
Lemma update_comic_metadata_item (comic_id : Z) (payload : ComicMetadataUpdate)
  (st : State) :
  List.existsb (fun c => Z.eqb (c_id c) comic_id) (comics st) = true ->
  if pydict_fits (ComicMetadataUpdate_dump payload)
  then exists st', update_comic_metadata comic_id payload st = Ok st'
  else update_comic_metadata comic_id payload st = Raise OverflowError.
Proof.
  intros Hitem. pose proof (update_comic_metadata_cases comic_id payload st) as H.
  cbv zeta in H. rewrite Hitem in H.
  destruct (metadata_of st comic_id); exact H.
Qed.

(** [process_comic] on a file that is not skipped and whose archive opens:
    the row is upserted, the thumbnail is tried, and then the sidecar
    decides how the call ends. *)
Lemma process_comic_valid (config : IssuedConfig) (fs : node) (g : Path) (folder_id : Z)
  (force : bool) (st : State) (file_mtime file_size page_count : Z) :
  stat fs g = Ok (file_mtime, file_size) ->
  _should_skip_comic (get_comic_by_path (library_path config) g st) file_mtime force
  = false ->
  validate_and_count_pages fs g = Ok page_count ->
  exists st1 comic st2 thumb,
    upsert_comic (library_path config) folder_id g (name g)
                 (Py.lstrip_dot (Py.lower (suffix g))) file_size page_count file_mtime
                 match get_comic_by_path (library_path config) g st with
                 | Some (c, _) => c_thumbnail_generated c
                 | None => false
                 end st = (st1, comic) /\
    generate_thumbnail_for_comic fs (c_uuid comic) g st1 = (st2, thumb) /\
    let existing := match get_comic_by_path (library_path config) g st with
                    | Some _ => true
                    | None => false
                    end in
    let saved := if generate_thumbnail_commits fs (c_uuid comic) g st1
                 then Some st2 else None in
    match read_comicinfo_from_archive fs g with
    | Raise e =>
        process_comic config fs g folder_id force st = mkEnded saved (Raise e)
    | Ok comicinfo =>
        if pydict_fits (comicinfo_fields_of comicinfo)
        then exists st3,
               process_comic config fs g folder_id force st
               = mkEnded (Some st3)
                         (Ok (st3, (Some (c_uuid comic), existing, false, thumb))) /\
               comics st3 = comics st2 /\ folders st3 = folders st2 /\
               thumbnails st3 = thumbnails st2
        else process_comic config fs g folder_id force st
             = mkEnded saved (Raise OverflowError)
    end.
Proof.
  intros Hstat Hskip Hval. unfold process_comic. rewrite Hstat, Hskip, Hval.
  pose proof (upsert_comic_row (library_path config) folder_id g (name g)
                (Py.lstrip_dot (Py.lower (suffix g))) file_size page_count file_mtime
                match get_comic_by_path (library_path config) g st with
                | Some (c, _) => c_thumbnail_generated c
                | None => false
                end st) as Hrow.
  cbv zeta in Hrow. revert Hrow.
  destruct (upsert_comic _ _ _ _ _ _ _ _ _ _) as [st1 comic] eqn:Hup.
  cbn [fst snd]. intros (Hrow & _).
  pose proof (generate_thumbnail_frame fs (c_uuid comic) g st1) as Hframe.
  cbv zeta in Hframe. revert Hframe.
  destruct (generate_thumbnail_for_comic fs (c_uuid comic) g st1) as [st2 thumb] eqn:Hth.
  cbn [fst]. intros (_ & Hids).
  exists st1, comic, st2, thumb. split; [reflexivity|]. split; [exact Hth|].
  cbv zeta.
  destruct (read_comicinfo_from_archive fs g) as [comicinfo|e]; [|reflexivity].
  assert (Hitem : List.existsb (fun c => Z.eqb (c_id c) (c_id comic)) (comics st2) = true).
  { apply comic_by_path_in in Hrow as [Hin _].
    apply (List.in_map c_id) in Hin. rewrite <- Hids in Hin.
    apply List.in_map_iff in Hin as (c & Hc & Hin).
    apply List.existsb_exists. exists c. split; [exact Hin | apply Z.eqb_eq, Hc]. }
  destruct (comicinfo_fields_of comicinfo) as [|kv fields] eqn:Hfields.
  - cbn [pydict_fits List.forallb].
    destruct (negb (folder_has_subfolders folder_id st2)).
    + pose proof (update_comic_metadata_item (c_id comic)
                    (ComicMetadataUpdate_make (Some (name (parent g))) []) st2 Hitem) as Hmd.
      change (pydict_fits
                (ComicMetadataUpdate_dump
                   (ComicMetadataUpdate_make (Some (name (parent g))) [])))
        with true in Hmd.
      destruct Hmd as [st3 Hmd]. rewrite Hmd.
      exists st3. split; [reflexivity|].
      destruct (update_comic_metadata_ok _ _ _ _ Hmd) as (_ & Hc & Hf & Ht & _).
      auto.
    + exists st2. auto.
  - rewrite <- Hfields.
    match goal with
    | |- context [update_comic_metadata ?i ?p st2] =>
        pose proof (update_comic_metadata_item i p st2 Hitem) as Hmd
    end.
    rewrite ComicMetadataUpdate_make_fits_iff in Hmd.
    destruct (pydict_fits (comicinfo_fields_of comicinfo)).
    + destruct Hmd as [st3 Hmd]. rewrite Hfields in Hmd |- *. rewrite Hmd.
      exists st3. split; [reflexivity|].
      destruct (update_comic_metadata_ok _ _ _ _ Hmd) as (_ & Hc & Hf & Ht & _).
      auto.
    + rewrite Hfields in Hmd |- *. rewrite Hmd. reflexivity.
Qed.

(** [process_comic] on a file that is not skipped and whose archive does
    not open. *)
Lemma process_comic_corrupt (config : IssuedConfig) (fs : node) (g : Path)
  (folder_id : Z) (force : bool) (st : State) (file_mtime file_size : Z) (e : exn) :
  stat fs g = Ok (file_mtime, file_size) ->
  _should_skip_comic (get_comic_by_path (library_path config) g st) file_mtime force
  = false ->
  validate_and_count_pages fs g = Raise e ->
  let rel := to_relative g (library_path config) in
  let existing := match comic_by_path st rel with Some _ => true | None => false end in
  exists st',
    process_comic config fs g folder_id force st
    = mkEnded (if existing then Some st' else None)
              (Ok (st', (None, existing, true, false))) /\
    (existing = false -> st' = st) /\
    comics st' = List.filter (fun c => negb (String.eqb (c_path c) rel)) (comics st).
Proof.
  intros Hstat Hskip Hval rel existing.
  unfold process_comic. rewrite Hstat, Hskip, Hval.
  unfold get_comic_by_path. fold rel. subst existing.
  destruct (comic_by_path st rel) eqn:Hrow.
  - unfold delete_comic_by_path, delete_comics_where. fold rel.
    destruct (List.map c_uuid _); (eexists; split; [reflexivity|]; split;
      [discriminate | reflexivity]).
  - exists st. split; [reflexivity|]. split; [reflexivity|].
    symmetry. apply filter_negb_find_none. exact Hrow.
Qed.

(** One call of [process_comic] that returns: the ids stay a key, every
    path stored for another file stays, a file that is there and opens has
    its row afterwards, and the tables are committed unless nothing was
    changed. *)
Lemma process_comic_rows (config : IssuedConfig) (fs : node) (g : Path) (folder_id : Z)
  (force : bool) (st st' : State) (o : outcome) :
  comic_ids_unique st ->
  value (process_comic config fs g folder_id force st) = Ok (st', o) ->
  comic_ids_unique st' /\
  (forall p, In p (comic_paths st) -> p <> to_relative g (library_path config) ->
             In p (comic_paths st')) /\
  (exists_ fs g = true -> (exists pages, validate_and_count_pages fs g = Ok pages) ->
   In (to_relative g (library_path config)) (comic_paths st')) /\
  (durable (process_comic config fs g folder_id force st) = Some st' \/
   durable (process_comic config fs g folder_id force st) = None /\ st' = st).
Proof.
  intros Hnd.
  destruct (stat fs g) as [[file_mtime file_size]|e] eqn:Hstat.
  2:{ assert (Hr : process_comic config fs g folder_id force st
                   = mkEnded None (Ok (st, (None, false, true, false))))
        by (unfold process_comic; rewrite Hstat; reflexivity).
      rewrite Hr. cbn [value durable]. intros [= <- <-].
      split; [exact Hnd|]. split; [auto|]. split; [|right; auto].
      intros Hex _. apply exists_stat in Hex as [x Hx]. congruence. }
  destruct (_should_skip_comic (get_comic_by_path (library_path config) g st)
              file_mtime force) eqn:Hskip.
  { assert (Hr : process_comic config fs g folder_id force st
                 = mkEnded None
                     (Ok (st, (None,
                               match get_comic_by_path (library_path config) g st with
                               | Some _ => true
                               | None => false
                               end, true, false))))
      by (unfold process_comic; rewrite Hstat, Hskip; reflexivity).
    rewrite Hr. cbn [value durable]. intros [= <- <-].
    split; [exact Hnd|]. split; [auto|]. split; [|right; auto].
    intros _ _. unfold get_comic_by_path in Hskip.
    destruct (comic_by_path st (to_relative g (library_path config))) as [c|] eqn:Hc.
    - apply in_comic_paths_by_path. eauto.
    - cbn in Hskip. discriminate. }
  destruct (validate_and_count_pages fs g) as [page_count|e] eqn:Hval.
  - destruct (process_comic_valid config fs g folder_id force st _ _ _ Hstat Hskip Hval)
      as (st1 & comic & st2 & thumb & Hup & Hth & Hv).
    cbv zeta in Hv.
    pose proof (upsert_comic_rows (library_path config) folder_id g (name g)
                  (Py.lstrip_dot (Py.lower (suffix g))) file_size page_count file_mtime
                  match get_comic_by_path (library_path config) g st with
                  | Some (c, _) => c_thumbnail_generated c
                  | None => false
                  end st) as Hrows.
    cbn zeta in Hrows. rewrite Hup in Hrows. cbn [fst] in Hrows.
    destruct Hrows as [Hrow Hkeep]. destruct (Hkeep Hnd) as [Hnd1 Hkeep1].
    pose proof (generate_thumbnail_frame fs (c_uuid comic) g st1) as Hframe.
    cbn zeta in Hframe. rewrite Hth in Hframe. cbn [fst] in Hframe.
    destruct Hframe as [Hp2 Hi2].
    destruct (read_comicinfo_from_archive fs g) as [comicinfo|e];
      [|rewrite Hv; discriminate].
    destruct (pydict_fits (comicinfo_fields_of comicinfo)); [|rewrite Hv; discriminate].
    destruct Hv as (st3 & -> & Hc3 & _). cbn [value durable]. intros [= <- <-].
    unfold comic_ids_unique, comic_paths in *. rewrite Hc3, Hp2, Hi2.
    split; [exact Hnd1|]. split; [intros p Hp _; exact (Hkeep1 p Hp)|].
    split; [intros _ _; exact Hrow | left; reflexivity].
  - destruct (process_comic_corrupt config fs g folder_id force st _ _ _ Hstat Hskip Hval)
      as (s & -> & Hsame & Hcomics).
    cbn [value durable]. intros [= <- <-].
    unfold comic_ids_unique, comic_paths in *. rewrite Hcomics.
    split; [apply NoDup_map_filter, Hnd|]. split; [|split].
    + intros p Hp Hne. apply List.in_map_iff in Hp as (c & Hc & Hin).
      apply List.in_map_iff. exists c. split; [exact Hc|].
      apply List.filter_In. split; [exact Hin|].
      apply negb_true_iff, String.eqb_neq. congruence.
    + intros _ [pages Hpages]. discriminate.
    + destruct (comic_by_path st (to_relative g (library_path config)));
        [left; reflexivity | right; split; [reflexivity | apply Hsame; reflexivity]].
Qed.


(** The loops keep a stored path [rel] and add it when they come to its
    file, as long as every file of the loop that is stored under [rel] is
    there and opens. *)
Lemma scan_files_rows (config : IssuedConfig) (fs : node) (folder_id : Z) (force : bool)
  (rel : string) (files : list Path) (acc r : State * Stats * gset Path) :
  comic_ids_unique (fst (fst acc)) ->
  (forall g, In g files -> to_relative g (library_path config) = rel ->
             exists_ fs g = true /\ exists pages, validate_and_count_pages fs g = Ok pages) ->
  scan_files config fs folder_id force files acc = Ok r ->
  comic_ids_unique (fst (fst r)) /\
  (In rel (comic_paths (fst (fst acc)))
   \/ (exists g, In g files /\ to_relative g (library_path config) = rel) ->
   In rel (comic_paths (fst (fst r)))).
Proof.
  revert acc. induction files as [|g files IH]; intros [[st stats] processed] Hnd Hgood Hr.
  - cbn [scan_files] in Hr. injection Hr as <-. cbn [fst] in *. split; [exact Hnd|].
    intros [H | (g & [] & _)]. exact H.
  - cbn [scan_files] in Hr. cbn [fst] in Hnd.
    destruct (value (process_comic config fs g folder_id force st))
      as [[st' [[[uuid was_existing] should_skip] thumb]]|e] eqn:Hp; [|discriminate].
    destruct (process_comic_rows config fs g folder_id force st st' _ Hnd Hp)
      as (Hnd' & Hkeep & Hadd & _).
    apply IH in Hr as [IHnd IHrow];
      [|exact Hnd' | exact (fun g' Hg' => Hgood g' (or_intror Hg'))].
    split; [exact IHnd|].
    cbn [fst] in IHrow |- *. intros Hrel. apply IHrow.
    destruct (string_dec (to_relative g (library_path config)) rel) as [Heq | Hne].
    + left. rewrite <- Heq. destruct (Hgood g (or_introl eq_refl) Heq) as [Hex Hval].
      exact (Hadd Hex Hval).
    + destruct Hrel as [Hin | (g' & [<- | Hg'] & Hrel')].
      * left. apply Hkeep; [exact Hin | intros Heq; apply Hne; symmetry; exact Heq].
      * contradiction.
      * right. exists g'. split; assumption.
Qed.

Lemma scan_dirs_rows (config : IssuedConfig) (fs : node) (force : bool) (rel : string)
  (dirs : list (Path * list Path)) (acc r : State * Stats * gset Path) :
  comic_ids_unique (fst (fst acc)) ->
  (forall d files g, In (d, files) dirs -> In g files ->
     to_relative g (library_path config) = rel ->
     exists_ fs g = true /\ exists pages, validate_and_count_pages fs g = Ok pages) ->
  scan_dirs config fs force dirs acc = Ok r ->
  comic_ids_unique (fst (fst r)) /\
  (In rel (comic_paths (fst (fst acc)))
   \/ (exists d files g, In (d, files) dirs /\ In g files
                         /\ to_relative g (library_path config) = rel) ->
   In rel (comic_paths (fst (fst r)))).
Proof.
  revert acc. induction dirs as [|[d files] dirs IH];
    intros [[st stats] processed] Hnd Hgood Hr.
  - cbn [scan_dirs] in Hr. injection Hr as <-. cbn [fst] in *. split; [exact Hnd|].
    intros [H | (d & files & g & [] & _)]. exact H.
  - apply scan_dirs_step in Hr as (r1 & Hfiles & Hr). cbn [fst] in Hnd.
    pose proof (get_or_create_folder_frame (library_path config) d st) as Hframe.
    cbv zeta in Hframe. destruct Hframe as (Hc & _).
    assert (Hnd1 : comic_ids_unique (fst (get_or_create_folder (library_path config) d st)))
      by (unfold comic_ids_unique; rewrite Hc; exact Hnd).
    pose proof Hfiles as Hfiles'.
    apply (scan_files_rows config fs _ force rel) in Hfiles' as [Hnd2 Hrow2];
      [|exact Hnd1 | exact (fun g Hg => Hgood d files g (or_introl eq_refl) Hg)].
    destruct (IH r1 Hnd2 (fun d' files' g Hd' => Hgood d' files' g (or_intror Hd')) Hr)
      as [IHnd IHrow].
    split; [exact IHnd|].
    intros Hrel. apply IHrow. cbn [fst] in Hrel, Hrow2.
    destruct Hrel as [Hin | (d' & files' & g & [[= <- <-] | Hd'] & Hg & Hrel')].
    + left. apply Hrow2. left. unfold comic_paths. rewrite Hc. exact Hin.
    + left. apply Hrow2. right. exists g. split; assumption.
    + right. exists d', files', g. split; [exact Hd' | split; assumption].
Qed.

(** ** scanner.py: the decision to skip, and what follows from it *)

(** C2. A file is skipped exactly when all four conditions hold: a row
    exists at its relative path, the stored mtime is the file's, a
    metadata row exists, and no forced rescan was asked for. Then
    [process_comic] changes nothing. When a condition fails the file is
    processed: its archive is validated; a corrupt one is reported and
    leaves no row at the path; a sound one is upserted, so that whenever
    [process_comic] returns it reports the file as not skipped, the tables
    are committed and the row at the path has the file's mtime, size and
    page count and the time of this scan. It returns unless the sidecar
    makes it raise: the exception [read_comicinfo_from_archive] raises, or
    [OverflowError] for an integer of the sidecar that SQLite cannot
    store. *)
Theorem skip_iff_all_four (config : IssuedConfig) (fs : node) (comic_path : Path)
  (folder_id : Z) (force : bool) (st : State) (file_mtime file_size : Z) :
  stat fs comic_path = Ok (file_mtime, file_size) ->
  let rel := to_relative comic_path (library_path config) in
  let comic_in_db := get_comic_by_path (library_path config) comic_path st in
  let existing := match comic_in_db with Some _ => true | None => false end in
  let all_four :=
    exists comic meta,
      comic_in_db = Some (comic, Some meta) /\
      c_file_modified_at comic = file_mtime /\
      force = false in
  let r := process_comic config fs comic_path folder_id force st in
  (_should_skip_comic comic_in_db file_mtime force = true <-> all_four) /\
  (all_four -> r = mkEnded None (Ok (st, (None, true, true, false)))) /\
  (~ all_four ->
   (forall e, validate_and_count_pages fs comic_path = Raise e ->
      exists st', value r = Ok (st', (None, existing, true, false)) /\
                  comic_by_path st' rel = None) /\
   (forall page_count, validate_and_count_pages fs comic_path = Ok page_count ->
      (forall st' o, value r = Ok (st', o) ->
         durable r = Some st' /\
         exists c thumb,
           o = (Some (c_uuid c), existing, false, thumb) /\
           comic_by_path st' rel = Some c /\
           c_file_modified_at c = file_mtime /\ c_file_size c = file_size /\
           c_page_count c = page_count /\
           c_last_scanned_at c = Some (now (ticks st))) /\
      (forall e, value r = Raise e <->
         read_comicinfo_from_archive fs comic_path = Raise e \/
         exists comicinfo,
           read_comicinfo_from_archive fs comic_path = Ok comicinfo /\
           pydict_fits (comicinfo_fields_of comicinfo) = false /\
           e = OverflowError))).
Proof.
  intros Hstat rel comic_in_db existing all_four r.
  pose proof (should_skip_spec comic_in_db file_mtime force) as Hspec.
  split; [exact Hspec|]. split.
  - intros Hall.
    assert (Hskip : _should_skip_comic
                      (get_comic_by_path (library_path config) comic_path st)
                      file_mtime force = true) by exact (proj2 Hspec Hall).
    subst r. unfold process_comic. rewrite Hstat, Hskip.
    destruct Hall as (comic & meta & Hrow & _). subst comic_in_db.
    rewrite Hrow. reflexivity.
  - intros Hnot.
    assert (Hskip : _should_skip_comic
                      (get_comic_by_path (library_path config) comic_path st)
                      file_mtime force = false).
    { destruct (_should_skip_comic
                  (get_comic_by_path (library_path config) comic_path st)
                  file_mtime force) eqn:H; [|reflexivity].
      exfalso. apply Hnot, Hspec. exact H. }
    subst r. split.
    + intros e Hval.
      destruct (process_comic_corrupt config fs comic_path folder_id force st _ _ _
                  Hstat Hskip Hval) as (st' & Hr & _ & Hcomics).
      exists st'. rewrite Hr. cbn [value]. split.
      * subst existing comic_in_db. unfold get_comic_by_path. fold rel.
        destruct (comic_by_path st rel); reflexivity.
      * unfold comic_by_path. rewrite Hcomics.
        apply (find_filter_negb (fun c => String.eqb (c_path c) rel)).
    + intros page_count Hval.
      destruct (process_comic_valid config fs comic_path folder_id force st _ _ _
                  Hstat Hskip Hval) as (st1 & comic & st2 & thumb & Hup & Hth & Hv).
      cbv zeta in Hv.
      pose proof (upsert_comic_row (library_path config) folder_id comic_path
                    (name comic_path) (Py.lstrip_dot (Py.lower (suffix comic_path)))
                    file_size page_count file_mtime
                    match get_comic_by_path (library_path config) comic_path st with
                    | Some (c, _) => c_thumbnail_generated c
                    | None => false
                    end st) as Hrow.
      cbv zeta in Hrow. rewrite Hup in Hrow. cbn [fst snd] in Hrow.
      destruct Hrow as (Hfind & Hsize & Hpages & Hmtime & Hscanned).
      destruct (generate_thumbnail_row fs (c_uuid comic) comic_path st1 rel comic Hfind)
        as (c' & Hfind' & _ & Huuid & Hsize' & Hpages' & Hmtime' & Hscanned').
      rewrite Hth in Hfind'. cbn [fst] in Hfind'.
      split.
      * intros st' o Hok.
        destruct (read_comicinfo_from_archive fs comic_path) as [comicinfo|e];
          [|rewrite Hv in Hok; discriminate].
        destruct (pydict_fits (comicinfo_fields_of comicinfo));
          [|rewrite Hv in Hok; discriminate].
        destruct Hv as (st3 & Hr & Hc3 & _). rewrite Hr in Hok |- *.
        cbn [value durable] in *. injection Hok as <- <-.
        split; [reflexivity|]. exists c', thumb.
        split; [rewrite Huuid; reflexivity|].
        split; [unfold comic_by_path in *; rewrite Hc3; exact Hfind'|].
        repeat split; congruence.
      * intros e. split.
        -- intros Hraise.
           destruct (read_comicinfo_from_archive fs comic_path) as [comicinfo|e'].
           ++ destruct (pydict_fits (comicinfo_fields_of comicinfo)) eqn:Hfits.
              ** destruct Hv as (st3 & Hr & _). rewrite Hr in Hraise. discriminate.
              ** rewrite Hv in Hraise. cbn [value] in Hraise. injection Hraise as <-.
                 right. exists comicinfo. auto.
           ++ rewrite Hv in Hraise. cbn [value] in Hraise. injection Hraise as <-.
              left. reflexivity.
        -- intros [Hread | (comicinfo & Hread & Hfits & ->)]; rewrite Hread in Hv.
           ++ rewrite Hv. reflexivity.
           ++ rewrite Hfits in Hv. rewrite Hv. reflexivity.
Qed.

Lemma reconcile_comics_keeps (config : IssuedConfig) (fs : node) (processed : gset Path)
  (rel : string) (db_comics : list Comic) (acc : State * Stats) :
  In rel (comic_paths (fst acc)) ->
  (forall c, In c db_comics ->
     to_relative (to_absolute (c_path c) (library_path config)) (library_path config) = rel ->
     to_absolute (c_path c) (library_path config) ∈ processed
     \/ exists_ fs (to_absolute (c_path c) (library_path config)) = true) ->
  In rel (comic_paths (fst (reconcile_comics config fs processed db_comics acc))).
Proof.
  revert acc. induction db_comics as [|c l IH]; intros [st stats] Hin Hsafe; [exact Hin|].
  cbn [reconcile_comics].
  destruct (negb (bool_decide (to_absolute (c_path c) (library_path config) ∈ processed))
            && negb (exists_ fs (to_absolute (c_path c) (library_path config)))) eqn:Hcond.
  - pose proof (delete_comic_by_path_paths (library_path config)
                  (to_absolute (c_path c) (library_path config)) st) as Hdel.
    destruct (delete_comic_by_path (library_path config)
                (to_absolute (c_path c) (library_path config)) st)
      as [st1 deleted_uuids].
    cbn [fst] in Hdel. apply IH; [|intros c' Hc'; exact (Hsafe c' (or_intror Hc'))].
    cbn [fst] in Hin |- *.
    assert (Hp : forall st2, st2 = match deleted_uuids with
                                   | [] => st1
                                   | _ => delete_thumbnails deleted_uuids st1
                                   end -> comic_paths st2 = comic_paths st1).
    { intros st2 ->. destruct deleted_uuids; reflexivity. }
    rewrite (Hp _ eq_refl), Hdel. apply List.filter_In. split; [exact Hin|].
    apply negb_true_iff, String.eqb_neq. intros Heq.
    apply andb_true_iff in Hcond as [H1 H2].
    apply negb_true_iff in H1, H2. apply bool_decide_eq_false in H1.
    destruct (Hsafe c (or_introl eq_refl) (eq_sym Heq)) as [H | H]; [contradiction|].
    congruence.
  - apply IH; [exact Hin | intros c' Hc'; exact (Hsafe c' (or_intror Hc'))].
Qed.

(** What a scan that returns has gone through. *)
Lemma scan_library_ok (config : IssuedConfig) (fs : node) (path : option Path)
  (force : bool) (st st' : State) (stats : Stats) :
  let base := match path with Some p => p | None => library_path config end in
  scan_library config fs path force st = Ok (st', stats) ->
  exists_ fs base = true /\
  exists st1 stats1 processed st2,
    scan_dirs config fs force (walk_library fs base (ignore_patterns config))
              (st, mkStats 0 0 0 0, ∅) = Ok (st1, stats1, processed) /\
    reconcile_comics config fs processed (select_comics config base st1) (st1, stats1)
    = (st2, stats) /\
    st' = reconcile_folders config fs (select_folders config base st2) st2.
Proof.
  intros base. unfold scan_library. fold base.
  destruct (exists_ fs base); [|discriminate]. cbn [negb].
  destruct (scan_dirs config fs force (walk_library fs base (ignore_patterns config))
              (st, mkStats 0 0 0 0, ∅)) as [[[st1 stats1] processed]|e]; [|discriminate].
  cbn [bind].
  destruct (reconcile_comics config fs processed (select_comics config base st1)
              (st1, stats1)) as [st2 stats2] eqn:Hrec.
  intros [= <- <-]. split; [reflexivity|].
  exists st1, stats1, processed, st2. split; [reflexivity|]. split; [exact Hrec|].
  reflexivity.
Qed.

(** X2. After a scan that returns, every row the reconciliation looked at,
    written the way the scanner writes paths, names a file that is on
    disk. *)
Theorem scan_library_rows_on_disk (config : IssuedConfig) (fs : node)
  (path : option Path) (force : bool) (st st' : State) (stats : Stats) :
  let root := library_path config in
  let base := match path with Some p => p | None => root end in
  fs_ok fs -> wf base ->
  scan_library config fs path force st = Ok (st', stats) ->
  forall c, In c (select_comics config base st') -> canonical root (c_path c) ->
            exists_ fs (to_absolute (c_path c) root) = true.
Proof.
  intros root base Hfs Hwf Hscan.
  apply scan_library_ok in Hscan as (_ & st1 & stats1 & processed & st2 & Hscan & Hrec & ->).
  fold root base in Hscan, Hrec |- *.
  intros c Hc Hcanon.
  apply select_comics_spec in Hc as [Hc Hsel].
  assert (Hp : In (c_path c) (comic_paths st2)).
  { rewrite <- (reconcile_folders_paths config fs (select_folders config base st2) st2).
    unfold comic_paths. apply List.in_map, Hc. }
  assert (Hst2 : st2 = fst (reconcile_comics config fs processed
                              (select_comics config base st1) (st1, stats1)))
    by (rewrite Hrec; reflexivity).
  rewrite Hst2 in Hp. apply reconcile_comics_paths in Hp as [Hp1 Hlooked].
  cbn [fst] in Hp1. unfold comic_paths in Hp1.
  apply List.in_map_iff in Hp1 as (c1 & Hc1 & Hin1).
  assert (Hsel1 : In c1 (select_comics config base st1)).
  { apply select_comics_spec. split; [exact Hin1|]. rewrite Hc1. exact Hsel. }
  destruct (Hlooked c1 Hsel1 Hc1 Hcanon) as [Hproc | Hthere]; [|exact Hthere].
  apply (scan_dirs_processed _ _ _ _ _ _ _ Hscan) in Hproc
    as [Hemp | (d & files & Hd & Hf)].
  - cbn [snd] in Hemp. apply elem_of_empty in Hemp. destruct Hemp.
  - exact (proj1 (walk_library_good fs base (ignore_patterns config) d files _
                    Hfs Hwf Hd Hf)).
Qed.

(** X3. After a scan that returns, every file the walk came to that opens as
    an archive has its row. *)
Theorem scan_library_files_indexed (config : IssuedConfig) (fs : node)
  (path : option Path) (force : bool) (st st' : State) (stats : Stats) :
  let root := library_path config in
  let base := match path with Some p => p | None => root end in
  fs_ok fs -> absolute root = true -> wf base -> is_relative_to base root = true ->
  comic_ids_unique st ->
  scan_library config fs path force st = Ok (st', stats) ->
  forall dir files f pages,
    In (dir, files) (walk_library fs base (ignore_patterns config)) -> In f files ->
    validate_and_count_pages fs f = Ok pages ->
    exists c, comic_by_path st' (to_relative f root) = Some c.
Proof.
  intros root base Hfs Habs Hwf Hunder Hnd Hscan.
  apply scan_library_ok in Hscan as (_ & st1 & stats1 & processed & st2 & Hscan & Hrec & ->).
  fold root base in Hscan, Hrec |- *.
  intros dir files f pages Hdir Hf Hval.
  assert (Hwfroot : wf root) by exact (wf_prefix base root Hwf Hunder).
  assert (Hwalk : forall d fl g, In (d, fl) (walk_library fs base (ignore_patterns config)) ->
            In g fl ->
            exists_ fs g = true /\ wf g /\ is_relative_to g root = true /\ absolute g = true).
  { intros d fl g Hd Hg.
    destruct (walk_library_good fs base (ignore_patterns config) d fl g Hfs Hwf Hd Hg)
      as (Hgex & Hgwf & Hgrel).
    pose proof (is_relative_to_trans g base root Hgrel Hunder) as Hgroot.
    split; [exact Hgex|]. split; [exact Hgwf|]. split; [exact Hgroot|].
    unfold is_relative_to in Hgroot. apply andb_true_iff in Hgroot as [Ha _].
    apply Bool.eqb_prop in Ha. rewrite Ha. exact Habs. }
  destruct (Hwalk dir files f Hdir Hf) as (Hfex & Hfwf & Hfrel & Hfabs).
  apply in_comic_paths_by_path.
  rewrite reconcile_folders_paths.
  assert (Hst2 : st2 = fst (reconcile_comics config fs processed
                              (select_comics config base st1) (st1, stats1)))
    by (rewrite Hrec; reflexivity).
  rewrite Hst2. apply reconcile_comics_keeps.
  - cbn [fst].
    pose proof Hscan as Hrows.
    apply (scan_dirs_rows config fs force (to_relative f root)) in Hrows as [_ Hrows].
    + cbn [fst] in Hrows. apply Hrows.
      right. exists dir, files, f. split; [exact Hdir | split; [exact Hf | reflexivity]].
    + exact Hnd.
    + intros d fl g Hd Hg Heq.
      destruct (Hwalk d fl g Hd Hg) as (Hgex & Hgwf & Hgrel & Hgabs).
      assert (g = f) by exact (to_relative_inj root g f Hgabs Hgwf Hfwf Hfrel Heq).
      subst g. split; [exact Hfex | exists pages; exact Hval].
  - intros c _ Heq. right.
    destruct (to_absolute_wf root (c_path c) Hwfroot Habs) as [Hawf Haabs].
    assert (Ha : to_absolute (c_path c) root = f)
      by exact (to_relative_inj root _ f Haabs Hawf Hfwf Hfrel Heq).
    fold root. rewrite Ha. exact Hfex.
Qed.

(** ** path_utils.py: stored paths tell files apart *)

(** X4. Two different well-formed absolute paths, one of them under the
    library root, are never stored as the same string. *)
Theorem to_relative_distinct (root a f : Path) :
  absolute a = true -> wf a -> wf f -> is_relative_to f root = true ->
  a <> f -> to_relative a root <> to_relative f root.
Proof.
  intros Ha Hwa Hwf Hf Hne Heq. apply Hne.
  exact (to_relative_inj root a f Ha Hwa Hwf Hf Heq).
Qed.

(** ** repository.py: folders *)

Lemma find_app_last {A : Type} (P : A -> bool) (l : list A) (x : A) :
  P x = true -> exists y, List.find P (l ++ [x]) = Some y /\ P y = true.
Proof.
  intros Hx. destruct (List.find P (l ++ [x])) as [y|] eqn:Hf.
  - exists y. split; [reflexivity|]. apply List.find_some in Hf as [_ Hy]. exact Hy.
  - exfalso. pose proof (List.find_none _ _ Hf x) as Hn.
    rewrite Hn in Hx; [discriminate|]. apply List.in_or_app. right. left. reflexivity.
Qed.

Lemma get_or_create_folder_rec_row (root : Path) (abs : bool) (rparts : list string)
  (st : State) :
  let r := get_or_create_folder_rec root abs rparts st in
  let rel := to_relative (mkPath abs (List.rev rparts)) root in
  (exists f, folder_by_path (fst r) rel = Some f) /\
  f_path (snd r) = rel /\ In (snd r) (folders (fst r)) /\
  exists new, folders (fst r) = folders st ++ new.
Proof.
  revert st. induction rparts as [|x rparts IH]; intros st; cbn zeta.
  - cbn [get_or_create_folder_rec].
    destruct (folder_by_path st (to_relative (mkPath abs (List.rev [])) root))
      as [folder|] eqn:Hf.
    + cbn [fst snd]. split; [eauto|]. unfold folder_by_path in Hf.
      apply List.find_some in Hf as [Hin Hp]. apply String.eqb_eq in Hp.
      split; [exact Hp|]. split; [exact Hin|]. exists []. symmetry. apply List.app_nil_r.
    + assert (Hst1 : (if PathLib.eqb (mkPath abs (List.rev [])) root
                      then (st, @None Z) else (st, None)) = (st, None))
        by (destruct (PathLib.eqb _ root); reflexivity).
      rewrite Hst1. cbn [fst snd f_path folders tick set_folders].
      split; [|split; [reflexivity|split]].
      * unfold folder_by_path. cbn [folders tick set_folders].
        destruct (find_app_last
                    (fun f => String.eqb (f_path f)
                                (to_relative (mkPath abs (List.rev [])) root))
                    (folders st)
                    (mkFolder (next_id (List.map f_id (folders st)))
                       (if String.eqb (name (mkPath abs (List.rev []))) ""
                        then to_str (mkPath abs (List.rev []))
                        else name (mkPath abs (List.rev [])))
                       (to_relative (mkPath abs (List.rev [])) root) None
                       (now (ticks st)))) as (y & Hy & _).
        { cbn [f_path]. apply String.eqb_refl. }
        exists y. exact Hy.
      * apply List.in_or_app. right. left. reflexivity.
      * eexists. reflexivity.
  - cbn [get_or_create_folder_rec].
    destruct (folder_by_path st (to_relative (mkPath abs (List.rev (x :: rparts))) root))
      as [folder|] eqn:Hf.
    + cbn [fst snd]. split; [eauto|]. unfold folder_by_path in Hf.
      apply List.find_some in Hf as [Hin Hp]. apply String.eqb_eq in Hp.
      split; [exact Hp|]. split; [exact Hin|]. exists []. symmetry. apply List.app_nil_r.
    + assert (Hpar : exists st1 parent_id new1,
                (if PathLib.eqb (mkPath abs (List.rev (x :: rparts))) root
                 then (st, None)
                 else if is_relative_to (mkPath abs (List.rev rparts)) root
                      then let '(st', parent_folder) :=
                             get_or_create_folder_rec root abs rparts st in
                           (st', Some (f_id parent_folder))
                      else (st, None)) = (st1, parent_id)
                /\ folders st1 = folders st ++ new1).
      { destruct (PathLib.eqb _ root).
        - exists st, None, []. split; [reflexivity | symmetry; apply List.app_nil_r].
        - destruct (is_relative_to _ root).
          + specialize (IH st). cbn zeta in IH. destruct IH as (_ & _ & _ & new1 & Hnew1).
            destruct (get_or_create_folder_rec root abs rparts st) as [st' pf].
            exists st', (Some (f_id pf)), new1. split; [reflexivity | exact Hnew1].
          + exists st, None, []. split; [reflexivity | symmetry; apply List.app_nil_r]. }
      destruct Hpar as (st1 & parent_id & new1 & Hpar & Hnew1). rewrite Hpar.
      cbn [fst snd f_path folders tick set_folders].
      split; [|split; [reflexivity|split]].
      * unfold folder_by_path. cbn [folders tick set_folders].
        destruct (find_app_last
                    (fun f => String.eqb (f_path f)
                                (to_relative (mkPath abs (List.rev (x :: rparts))) root))
                    (folders st1)
                    (mkFolder (next_id (List.map f_id (folders st1)))
                       (if String.eqb (name (mkPath abs (List.rev (x :: rparts)))) ""
                        then to_str (mkPath abs (List.rev (x :: rparts)))
                        else name (mkPath abs (List.rev (x :: rparts))))
                       (to_relative (mkPath abs (List.rev (x :: rparts))) root) parent_id
                       (now (ticks st1)))) as (y & Hy & _).
        { cbn [f_path]. apply String.eqb_refl. }
        exists y. exact Hy.
      * apply List.in_or_app. right. left. reflexivity.
      * rewrite Hnew1, <- List.app_assoc. eexists. reflexivity.
Qed.

(** X5. [get_or_create_folder] returns a row stored under the relative path of
    its argument, keeps every folder row that was there, and never makes
    a second row for a path: a second call with the same path finds a row
    and changes nothing. *)
Theorem get_or_create_folder_idempotent (root path : Path) (st : State) :
  let r := get_or_create_folder root path st in
  f_path (snd r) = to_relative path root /\
  In (snd r) (folders (fst r)) /\
  (exists new, folders (fst r) = folders st ++ new) /\
  fst (get_or_create_folder root path (fst r)) = fst r /\
  f_path (snd (get_or_create_folder root path (fst r))) = to_relative path root.
Proof.
  cbn zeta.
  pose proof (get_or_create_folder_rec_row root (absolute path) (List.rev (parts path)) st)
    as H. cbn zeta in H.
  change (get_or_create_folder_rec root (absolute path) (List.rev (parts path)) st)
    with (get_or_create_folder root path st) in H.
  assert (Hrev : mkPath (absolute path) (List.rev (List.rev (parts path))) = path).
  { rewrite List.rev_involutive. destruct path; reflexivity. }
  rewrite Hrev in H. destruct H as ([f Hf] & Hpath & Hin & Hnew).
  split; [exact Hpath|]. split; [exact Hin|]. split; [exact Hnew|].
  rewrite (get_or_create_folder_found root path _ f Hf). cbn [fst snd].
  split; [reflexivity|]. unfold folder_by_path in Hf.
  apply List.find_some in Hf as [_ Hp]. apply String.eqb_eq, Hp.
Qed.

(** ** repository.py: items *)

(** X6. The row [upsert_comic] returns is the row a lookup by the same path
    finds afterwards, and it holds the values that were passed in. *)
Theorem upsert_comic_then_lookup (root : Path) (folder_id : Z) (path : Path)
  (filename fmt : string) (file_size page_count mtime : Z) (thumb : bool) (st : State) :
  let r := upsert_comic root folder_id path filename fmt file_size page_count mtime
                        thumb st in
  comic_by_path (fst r) (to_relative path root) = Some (snd r) /\
  c_path (snd r) = to_relative path root /\
  c_filename (snd r) = filename /\ c_format (snd r) = fmt /\
  c_file_size (snd r) = file_size /\ c_page_count (snd r) = page_count /\
  c_file_modified_at (snd r) = mtime /\ c_thumbnail_generated (snd r) = thumb /\
  c_folder_id (snd r) = Some folder_id /\
  c_last_scanned_at (snd r) = Some (now (ticks st)).
Proof.
  cbn zeta. unfold upsert_comic.
  destruct (comic_by_path (tick st) (to_relative path root)) as [comic|] eqn:Hfind.
  - cbn [fst snd]. pose proof (comic_by_path_in _ _ _ Hfind) as [_ Hpath].
    split; [|cbn; repeat split; exact Hpath].
    unfold comic_by_path in *. cbn [comics set_comics tick] in *.
    apply find_map_upsert; [exact Hpath | exact Hfind].
  - cbn [fst snd]. split; [|cbn; repeat split].
    unfold comic_by_path in *. cbn [comics set_comics set_metadata tick] in *.
    apply find_app_new; [exact Hfind|]. cbn [c_path]. apply String.eqb_refl.
Qed.

(** X7. After [delete_comic_by_path] no row is stored under the path, the rows
    stored under other paths are all still there, and no metadata row of a
    deleted item is left. *)
Theorem delete_comic_by_path_then_lookup (root path : Path) (st : State) :
  let r := delete_comic_by_path root path st in
  get_comic_by_path root path (fst r) = None /\
  (forall c, In c (comics (fst r)) <->
             In c (comics st) /\ c_path c <> to_relative path root) /\
  (forall m c, In m (metadata (fst r)) -> In c (comics st) ->
               c_path c = to_relative path root -> m_comic_id m <> c_id c) /\
  snd r = List.map c_uuid
            (List.filter (fun c => String.eqb (c_path c) (to_relative path root))
                         (comics st)).
Proof.
  cbn zeta. unfold delete_comic_by_path, delete_comics_where.
  cbn [fst snd]. split; [|split; [|split; [|reflexivity]]].
  - unfold get_comic_by_path, comic_by_path. cbn [comics set_comics set_metadata].
    destruct (List.find _ _) as [c|] eqn:Hf; [|reflexivity].
    apply List.find_some in Hf as [Hin Hp]. apply List.filter_In in Hin as [_ Hn].
    rewrite Hp in Hn. discriminate.
  - intros c. cbn [comics set_comics set_metadata]. rewrite List.filter_In.
    split; intros [Hin Hp]; (split; [exact Hin|]).
    + apply negb_true_iff, String.eqb_neq in Hp. exact Hp.
    + apply negb_true_iff, String.eqb_neq. exact Hp.
  - intros m c Hm Hc Hp Heq. cbn [metadata set_metadata set_comics] in Hm.
    apply List.filter_In in Hm as [_ Hm]. apply negb_true_iff in Hm.
    assert (Hex : List.existsb (Z.eqb (m_comic_id m))
                    (List.map c_id
                       (List.filter (fun c0 => String.eqb (c_path c0) (to_relative path root))
                                    (comics st))) = true).
    { apply List.existsb_exists. exists (c_id c). split; [|apply Z.eqb_eq, Heq].
      apply List.in_map. apply List.filter_In. split; [exact Hc|].
      apply String.eqb_eq, Hp. }
    rewrite Hex in Hm. discriminate.
Qed.

(** ** scanner.py: the counters of a scan *)







(** ** SQL patterns built from a stored path *)

Lemma like_percent (s : string) : Sql.like "%" s = true.
Proof.
  induction s as [|c s IH]; [reflexivity|].
  cbn [Sql.like] in *. cbn [Ascii.eqb Bool.eqb] in *. cbn beta iota in *.
  rewrite IH. apply orb_true_r.
Qed.

(** A pattern made of a string and a final "%" matches every string that
    starts with that string. *)
Lemma like_prefix (p t : string) :
  Sql.underscore_ok p = true -> Sql.like (p ++ "%") (p ++ t) = true.
Proof.
  induction p as [|c p IH]; intros Hok.
  - apply like_percent.
  - cbn [Sql.underscore_ok] in Hok. apply andb_true_iff in Hok as [Hc Hok].
    specialize (IH Hok).
    change (String c p ++ "%")%string with (String c (p ++ "%")).
    change (String c p ++ t)%string with (String c (p ++ t)).
    cbn [Sql.like].
    destruct (Ascii.eqb c "%") eqn:Hpct.
    + destruct (p ++ t)%string as [|d u] eqn:Hpt.
      * rewrite IH. rewrite orb_true_r. reflexivity.
      * rewrite IH. rewrite orb_true_r. reflexivity.
    + destruct (Ascii.eqb c "_") eqn:Hund.
      * destruct p as [|d p'].
        -- cbn [append]. apply like_percent.
        -- cbn [Sql.starts_char] in Hc. apply negb_true_iff in Hc.
           change (String d p' ++ t)%string with (String d (p' ++ t)) in *.
           cbn [Sql.skip_continuation]. rewrite Hc. exact IH.
      * rewrite Ascii.eqb_refl. exact IH.
Qed.

Lemma startswith_app (p s : string) :
  Py.startswith p s = true -> exists t, s = (p ++ t)%string.
Proof.
  revert s. induction p as [|a p IH]; intros s H.
  - exists s. reflexivity.
  - destruct s as [|b s]; [discriminate|]. cbn [Py.startswith] in H.
    destruct (Ascii.eqb a b) eqn:Hab; [|discriminate].
    apply Ascii.eqb_eq in Hab. subst b. destruct (IH s H) as [t ->].
    exists t. reflexivity.
Qed.

Lemma append_assoc (a b c : string) : ((a ++ b) ++ c = a ++ (b ++ c))%string.
Proof.
  induction a as [|x a IH]; [reflexivity|].
  change (String x ((a ++ b) ++ c) = String x (a ++ (b ++ c)))%string.
  f_equal. exact IH.
Qed.

Lemma like_descendant (rel path : string) :
  Sql.underscore_ok rel = true ->
  Py.startswith (rel ++ "/") path = true ->
  Sql.like (rel ++ "/%") path = true.
Proof.
  intros Hok Hst. apply startswith_app in Hst as [t ->].
  assert (Hok' : Sql.underscore_ok (rel ++ "/") = true).
  { clear t. induction rel as [|c rel IH]; [reflexivity|].
    cbn [Sql.underscore_ok] in Hok. apply andb_true_iff in Hok as [Hc Hok].
    change (String c rel ++ "/")%string with (String c (rel ++ "/")).
    cbn [Sql.underscore_ok]. rewrite (IH Hok), andb_true_r.
    destruct (Ascii.eqb c "_"); [|reflexivity].
    destruct rel as [|d rel']; [reflexivity | exact Hc]. }
  pose proof (like_prefix (rel ++ "/") t Hok') as H.
  rewrite !append_assoc in H. rewrite append_assoc. exact H.
Qed.

(** ** repository.py: what lies under a folder *)

(** X9. [delete_comics_under_path] misses no item of the folder: after it no
    row is left whose stored path starts with the folder's path and a
    slash; the rows the pattern does not match all stay. *)
Theorem delete_comics_under_path_complete (root base_path : Path) (st : State) :
  let rel := Py.rstrip_slash (to_relative base_path root) in
  let r := delete_comics_under_path root base_path st in
  Sql.underscore_ok rel = true ->
  (forall c, In c (comics (fst r)) -> Py.startswith (rel ++ "/") (c_path c) = false) /\
  (forall c, In c (comics st) -> Sql.like (rel ++ "/%") (c_path c) = false ->
             In c (comics (fst r))) /\
  (forall c, In c (comics (fst r)) -> In c (comics st)).
Proof.
  intros rel r Hok. subst r. unfold delete_comics_under_path, delete_comics_where.
  fold rel. cbn [fst comics set_comics set_metadata]. split; [|split].
  - intros c Hin. apply List.filter_In in Hin as [_ Hn]. apply negb_true_iff in Hn.
    destruct (Py.startswith (rel ++ "/") (c_path c)) eqn:Hst; [|reflexivity].
    rewrite (like_descendant rel (c_path c) Hok Hst) in Hn. discriminate.
  - intros c Hin Hn. apply List.filter_In. split; [exact Hin|]. rewrite Hn. reflexivity.
  - intros c Hin. apply List.filter_In in Hin as [Hin _]. exact Hin.
Qed.

(** ** repository.py: a folder that moves *)

Lemma flush_updates_ok {R : Type} (path_of : R -> string) (f : R -> R)
  (done todo l : list R) :
  flush_updates path_of f done todo = Ok l -> l = done ++ List.map f todo.
Proof.
  revert done. induction todo as [|r todo IH]; intros done H; cbn [flush_updates] in H.
  - injection H as <-. cbn [List.map]. symmetry. apply List.app_nil_r.
  - cbn [List.map].
    destruct (String.eqb (path_of (f r)) (path_of r)).
    + rewrite (IH _ H), <- List.app_assoc. reflexivity.
    + destruct (List.existsb _ (done ++ todo)); [discriminate|].
      rewrite (IH _ H), <- List.app_assoc. reflexivity.
Qed.

Lemma replace1_unfold (old new s : string) :
  Py.replace1 old new s
  = if Py.startswith old s then (new ++ Py.drop (String.length old) s)%string
    else match s with
         | EmptyString => EmptyString
         | String c s' => String c (Py.replace1 old new s')
         end.
Proof. destruct s; reflexivity. Qed.

Lemma startswith_prefix (p s : string) : Py.startswith p (p ++ s) = true.
Proof.
  induction p as [|a p IH]; [reflexivity|].
  change (String a p ++ s)%string with (String a (p ++ s)).
  cbn [Py.startswith]. rewrite Ascii.eqb_refl. exact IH.
Qed.

Lemma drop_prefix (p s : string) : Py.drop (String.length p) (p ++ s) = s.
Proof.
  induction p as [|a p IH]; [destruct s; reflexivity|].
  change (String a p ++ s)%string with (String a (p ++ s)).
  cbn [String.length Py.drop]. exact IH.
Qed.

Lemma replace1_prefix (old new s : string) :
  Py.replace1 old new (old ++ s) = (new ++ s)%string.
Proof. rewrite replace1_unfold, startswith_prefix, drop_prefix. reflexivity. Qed.

(** X10. When [update_comic_paths] returns, every item stored under the old
    folder path has the new folder path in its place and is otherwise as
    it was, every row the pattern does not match is untouched, and the
    ids and the other tables are as before. *)
Theorem update_comic_paths_descendants (root old_base new_base : Path) (st st' : State) :
  let old_rel := Py.rstrip_slash (to_relative old_base root) in
  let new_rel := Py.rstrip_slash (to_relative new_base root) in
  update_comic_paths root old_base new_base st = Ok st' ->
  (Sql.underscore_ok old_rel = true ->
   forall c t, In c (comics st) -> c_path c = (old_rel ++ "/" ++ t)%string ->
               In (Comic_with_path (new_rel ++ "/" ++ t) c) (comics st')) /\
  (forall c, In c (comics st) -> Sql.like (old_rel ++ "/%") (c_path c) = false ->
             In c (comics st')) /\
  List.map c_id (comics st') = List.map c_id (comics st) /\
  folders st' = folders st /\ metadata st' = metadata st /\
  thumbnails st' = thumbnails st.
Proof.
  intros old_rel new_rel H. unfold update_comic_paths in H. fold old_rel new_rel in H.
  unfold bind in H.
  destruct (flush_updates c_path _ [] (comics st)) as [cs|e] eqn:Hflush; [|discriminate].
  injection H as <-. apply flush_updates_ok in Hflush. cbn [app] in Hflush. subst cs.
  cbn [comics folders metadata thumbnails set_comics].
  split; [|split; [|split; [|split; [|split]]]]; try reflexivity.
  - intros Hok c t Hin Hp. apply List.in_map_iff. exists c. split; [|exact Hin].
    assert (Hlike : Sql.like (old_rel ++ "/%") (c_path c) = true).
    { apply like_descendant; [exact Hok|]. rewrite Hp, <- append_assoc.
      apply startswith_prefix. }
    rewrite Hlike, Hp, replace1_prefix. reflexivity.
  - intros c Hin Hn. apply List.in_map_iff. exists c. split; [|exact Hin].
    rewrite Hn. reflexivity.
  - rewrite List.map_map. apply List.map_ext. intros c.
    destruct (Sql.like _ _); reflexivity.
Qed.

(** The only error of [update_comic_paths] is the UNIQUE constraint of the
    path column. *)
Lemma update_comic_paths_error (root old_base new_base : Path) (st : State) (e : exn) :
  update_comic_paths root old_base new_base st = Raise e -> e = IntegrityError.
Proof.
  unfold update_comic_paths, bind.
  generalize (@nil Comic).
  induction (comics st) as [|c l IH]; intros done H; cbn [flush_updates] in H.
  - discriminate.
  - destruct (String.eqb _ _); [exact (IH _ H)|].
    destruct (List.existsb _ _).
    + injection H as <-. reflexivity.
    + exact (IH _ H).
Qed.

(** ** thumbnails.py: thumbnails with no item *)

Lemma cleanup_fold (valid : gset string) (l : list string) (acc : State * Z) :
  let r := List.fold_left
             (fun (acc : State * Z) comic_uuid =>
                if bool_decide (comic_uuid ∉ valid)
                then (set_thumbnails (thumbnails (fst acc) ∖ {[ comic_uuid ]}) (fst acc),
                      (snd acc + 1)%Z)
                else acc) l acc in
  (forall u, u ∈ thumbnails (fst r) <->
             u ∈ thumbnails (fst acc) /\ ~ (In u l /\ u ∉ valid)) /\
  snd r = (snd acc
           + Z.of_nat (List.length (List.filter (fun u => bool_decide (u ∉ valid)) l)))%Z /\
  comics (fst r) = comics (fst acc) /\ folders (fst r) = folders (fst acc) /\
  metadata (fst r) = metadata (fst acc).
Proof.
  revert acc. induction l as [|x l IH]; intros [s n]; cbn zeta.
  - cbn [List.fold_left fst snd List.filter List.length].
    split; [|split; [lia | repeat split]].
    intros u. split; [intros H; split; [exact H | intros [[] _]] | intros [H _]; exact H].
  - cbn [List.fold_left List.filter]. cbn [fst snd].
    destruct (bool_decide (x ∉ valid)) eqn:Hx.
    + apply bool_decide_eq_true in Hx.
      specialize (IH (set_thumbnails (thumbnails s ∖ {[ x ]}) s, (n + 1)%Z)).
      cbn zeta in IH. destruct IH as (IHt & IHn & IHc & IHf & IHm).
      cbn [fst snd thumbnails set_thumbnails comics folders metadata] in *.
      split; [|split; [|split; [exact IHc | split; [exact IHf | exact IHm]]]].
      * intros u. rewrite IHt, elem_of_difference, elem_of_singleton. split.
        -- intros [[Hu Hne] Hl]. split; [exact Hu|].
           intros [[Heq | Hin] Hv]; [apply Hne; symmetry; exact Heq | apply Hl; auto].
        -- intros [Hu Hl]. split; [split; [exact Hu|] |].
           ++ intros ->. apply Hl. split; [left; reflexivity | exact Hx].
           ++ intros [Hin Hv]. apply Hl. split; [right; exact Hin | exact Hv].
      * rewrite IHn. cbn [List.length]. rewrite Nat2Z.inj_succ. lia.
    + apply bool_decide_eq_false in Hx.
      specialize (IH (s, n)). cbn zeta in IH. destruct IH as (IHt & IHn & IHc & IHf & IHm).
      cbn [fst snd] in *.
      split; [|split; [exact IHn | split; [exact IHc | split; [exact IHf | exact IHm]]]].
      intros u. rewrite IHt. split; intros [Hu Hl]; (split; [exact Hu|]).
      * intros [[Heq | Hin] Hv]; [subst u; exact (Hx Hv) | apply Hl; auto].
      * intros [Hin Hv]. apply Hl. split; [right; exact Hin | exact Hv].
Qed.

Lemma valid_uuid_spec (st : State) (u : string) :
  u ∈ get_valid_thumbnail_uuids st <-> exists c, In c (comics st) /\ c_uuid c = u.
Proof.
  unfold get_valid_thumbnail_uuids. rewrite elem_of_list_to_set, list_elem_of_In.
  rewrite List.in_map_iff. split; intros (c & H1 & H2); exists c; auto.
Qed.

Lemma filter_none {A : Type} (P : A -> bool) (l : list A) :
  (forall x, In x l -> P x = false) -> List.filter P l = [].
Proof.
  induction l as [|x l IH]; intros H; [reflexivity|]. cbn [List.filter].
  rewrite (H x (or_introl eq_refl)). apply IH. intros y Hy. apply H. right. exact Hy.
Qed.

(** X11. [cleanup_orphaned_thumbnails] keeps exactly the thumbnails whose name
    is the uuid of an item, returns the number of files it removed, leaves
    the tables alone, and finds nothing to remove when it is run again. *)
Theorem cleanup_orphaned_thumbnails_spec (st : State) :
  let r := cleanup_orphaned_thumbnails st in
  (forall u, u ∈ thumbnails (fst r) <->
             u ∈ thumbnails st /\ exists c, In c (comics st) /\ c_uuid c = u) /\
  snd r = Z.of_nat (List.length
                      (List.filter
                         (fun u => bool_decide (u ∉ get_valid_thumbnail_uuids st))
                         (elements (thumbnails st)))) /\
  comics (fst r) = comics st /\ folders (fst r) = folders st /\
  metadata (fst r) = metadata st /\
  snd (cleanup_orphaned_thumbnails (fst r)) = 0%Z.
Proof.
  cbn zeta.
  assert (Hmain : forall s,
    (forall u, u ∈ thumbnails (fst (cleanup_orphaned_thumbnails s)) <->
               u ∈ thumbnails s /\ exists c, In c (comics s) /\ c_uuid c = u) /\
    snd (cleanup_orphaned_thumbnails s)
    = Z.of_nat (List.length
                  (List.filter
                     (fun u => bool_decide (u ∉ get_valid_thumbnail_uuids s))
                     (elements (thumbnails s)))) /\
    comics (fst (cleanup_orphaned_thumbnails s)) = comics s /\
    folders (fst (cleanup_orphaned_thumbnails s)) = folders s /\
    metadata (fst (cleanup_orphaned_thumbnails s)) = metadata s).
  { intros s.
    pose proof (cleanup_fold (get_valid_thumbnail_uuids s) (elements (thumbnails s))
                  (s, 0%Z)) as H.
    cbn zeta in H. destruct H as (Ht & Hn & Hc & Hf & Hm).
    unfold cleanup_orphaned_thumbnails, get_all_comics.
    fold (get_valid_thumbnail_uuids s). cbn [fst snd] in *.
    split; [|split; [rewrite Hn; lia | split; [exact Hc | split; [exact Hf | exact Hm]]]].
    intros u. rewrite Ht, <- valid_uuid_spec. split.
    - intros [Hu Hl]. split; [exact Hu|].
      destruct (decide (u ∈ get_valid_thumbnail_uuids s)) as [Hv | Hv]; [exact Hv|].
      exfalso. apply Hl. split; [|exact Hv]. apply list_elem_of_In, elem_of_elements, Hu.
    - intros [Hu Hv]. split; [exact Hu|]. intros [_ Hn']. exact (Hn' Hv). }
  destruct (Hmain st) as (Ht & Hn & Hc & Hf & Hm).
  split; [exact Ht|]. split; [exact Hn|]. split; [exact Hc|]. split; [exact Hf|].
  split; [exact Hm|].
  destruct (Hmain (fst (cleanup_orphaned_thumbnails st))) as (_ & Hn2 & _).
  rewrite Hn2, filter_none; [reflexivity|].
  intros u Hu. apply bool_decide_eq_false. intros Hnot. apply Hnot.
  apply list_elem_of_In, elem_of_elements in Hu. apply Ht in Hu as [_ (c & Hin & Huu)].
  apply valid_uuid_spec. exists c. split; [|exact Huu]. rewrite Hc. exact Hin.
Qed.

(** ** thumbnails.py: one thumbnail *)

(** X12. [generate_thumbnail_for_comic] either reports failure and changes
    nothing, or reports success; then the file is on disk, the thumbnail
    named by the uuid is there, the row with that uuid (if there is one) is
    flagged and no other field of any row has changed its path or id. *)
Theorem generate_thumbnail_for_comic_spec (fs : node) (comic_uuid : string)
  (comic_path : Path) (st : State) :
  let r := generate_thumbnail_for_comic fs comic_uuid comic_path st in
  (snd r = false /\ fst r = st) \/
  (snd r = true /\ exists_ fs comic_path = true /\
   thumbnails (fst r) = thumbnails st ∪ {[ comic_uuid ]} /\
   (forall c, get_comic_by_uuid comic_uuid st = Some c ->
              exists c', In c' (comics (fst r)) /\ c_id c' = c_id c /\
                         c_uuid c' = comic_uuid /\ c_thumbnail_generated c' = true) /\
   List.map c_path (comics (fst r)) = List.map c_path (comics st) /\
   List.map c_id (comics (fst r)) = List.map c_id (comics st) /\
   folders (fst r) = folders st /\ metadata (fst r) = metadata st).
Proof.
  cbn zeta. unfold generate_thumbnail_for_comic.
  destruct (exists_ fs comic_path) eqn:Hex; cbn [negb]; [|left; split; reflexivity].
  destruct (_extract_first_image_bytes fs comic_path) as [img|];
    [|left; split; reflexivity].
  destruct (String.eqb img ""); [left; split; reflexivity|].
  destruct (negb (save_thumbnail_ok img)); [left; split; reflexivity|].
  right.
  destruct (get_comic_by_uuid comic_uuid
              (set_thumbnails (thumbnails st ∪ {[ comic_uuid ]}) st)) as [comic|] eqn:Hc;
    cbn [fst snd].
  - split; [reflexivity|]. split; [reflexivity|]. split; [reflexivity|].
    pose proof (set_thumbnail_generated_frame (c_id comic) true
                  (set_thumbnails (thumbnails st ∪ {[ comic_uuid ]}) st)) as [Hp Hi].
    split; [|split; [exact Hp | split; [exact Hi | split; reflexivity]]].
    intros c Hc'. unfold get_comic_by_uuid in Hc, Hc'. cbn [comics set_thumbnails] in Hc.
    rewrite Hc in Hc'. injection Hc' as <-.
    apply List.find_some in Hc as [Hin Hu]. apply String.eqb_eq in Hu.
    eexists. split.
    + unfold set_thumbnail_generated. cbn [comics set_comics set_thumbnails].
      apply List.in_map_iff. exists comic. split; [|exact Hin].
      rewrite Z.eqb_refl. reflexivity.
    + cbn [c_id c_uuid c_thumbnail_generated]. auto.
  - split; [reflexivity|]. split; [reflexivity|]. split; [reflexivity|].
    split; [|repeat split].
    intros c Hc'. unfold get_comic_by_uuid in Hc, Hc'. cbn [comics set_thumbnails] in Hc.
    rewrite Hc in Hc'. discriminate.
Qed.

(** ** scanner.py: one path *)

(** X13. [delete_path] of a path that is not a directory and is there, or has
    one of the two comic suffixes: the row stored under it is gone, and so
    are its thumbnail and its metadata; the rows stored under other paths
    and the folders stay. *)
Theorem delete_path_file (config : IssuedConfig) (fs : node) (path : Path) (st : State) :
  let root := library_path config in
  let st' := delete_path config fs path st in
  is_dir fs path = false ->
  exists_ fs path = true \/ Archive.str_in (suffix path) COMIC_EXTENSIONS = true ->
  get_comic_by_path root path st' = None /\
  (forall c, In c (comics st) -> c_path c = to_relative path root ->
             (c_uuid c ∉ thumbnails st') /\
             forall m, In m (metadata st') -> m_comic_id m <> c_id c) /\
  (forall c, In c (comics st) -> c_path c <> to_relative path root -> In c (comics st')) /\
  folders st' = folders st.
Proof.
  intros root st' Hdir Hfile. subst st'. unfold delete_path. rewrite Hdir. cbn [orb].
  assert (Hcond : negb (exists_ fs path)
                  && negb (Archive.str_in (suffix path) COMIC_EXTENSIONS) = false).
  { destruct Hfile as [-> | ->]; [reflexivity | apply andb_false_r]. }
  rewrite Hcond. fold root.
  pose proof (delete_comic_by_path_paths root path st) as Hpaths.
  unfold delete_comic_by_path, delete_comics_where in *. cbn [fst] in Hpaths.
  set (gone := List.filter (fun c => String.eqb (c_path c) (to_relative path root))
                           (comics st)) in *.
  set (st1 := set_metadata _ _) in *.
  assert (Hst' : forall s, s = match List.map c_uuid gone with
                               | [] => st1
                               | _ :: _ => delete_thumbnails (List.map c_uuid gone) st1
                               end ->
                 comics s = comics st1 /\ metadata s = metadata st1 /\
                 folders s = folders st /\
                 forall u, In u (List.map c_uuid gone) -> u ∉ thumbnails s).
  { intros s ->. destruct (List.map c_uuid gone) as [|u us] eqn:Hm.
    - repeat split. intros u [].
    - repeat split. intros u' Hu'. apply delete_thumbnails_gone. exact Hu'. }
  destruct (Hst' _ eq_refl) as (Hc & Hm & Hf & Hth).
  split; [|split; [|split; [|exact Hf]]].
  - unfold get_comic_by_path, comic_by_path. rewrite Hc. subst st1.
    cbn [comics set_comics set_metadata].
    destruct (List.find _ _) as [c|] eqn:Hfind; [|reflexivity].
    apply List.find_some in Hfind as [Hin Hp]. apply List.filter_In in Hin as [_ Hn].
    rewrite Hp in Hn. discriminate.
  - intros c Hin Hp.
    assert (Hgone : In c gone).
    { apply List.filter_In. split; [exact Hin | apply String.eqb_eq, Hp]. }
    split; [apply Hth, List.in_map, Hgone|].
    intros m Hmin Heq. rewrite Hm in Hmin. subst st1.
    cbn [metadata set_metadata set_comics] in Hmin.
    apply List.filter_In in Hmin as [_ Hmn]. apply negb_true_iff in Hmn.
    assert (Hex : List.existsb (Z.eqb (m_comic_id m)) (List.map c_id gone) = true).
    { apply List.existsb_exists. exists (c_id c).
      split; [apply List.in_map, Hgone | apply Z.eqb_eq, Heq]. }
    rewrite Hex in Hmn. discriminate.
  - intros c Hin Hp. rewrite Hc. subst st1. cbn [comics set_comics set_metadata].
    apply List.filter_In. split; [exact Hin|]. apply negb_true_iff, String.eqb_neq, Hp.
Qed.


(** ** SQL patterns: the separators a pattern asks for *)

Lemma lower_ascii_slash (c : ascii) : Py.lower_ascii c = "/"%char -> c = "/"%char.
Proof.
  destruct c as [[] [] [] [] [] [] [] []]; vm_compute; intros H;
    first [reflexivity | discriminate].
Qed.

Lemma count_skip_continuation (c : ascii) (s : string) :
  Py.count c (Sql.skip_continuation s) <= Py.count c s.
Proof.
  induction s as [|a s IH]; [reflexivity|]. cbn [Sql.skip_continuation].
  destruct (Sql.is_continuation a); [|reflexivity]. cbn [Py.count]. lia.
Qed.

Lemma count_app (c : ascii) (s t : string) :
  Py.count c (s ++ t) = Py.count c s + Py.count c t.
Proof.
  induction s as [|a s IH]; [reflexivity|].
  change (String a s ++ t)%string with (String a (s ++ t)).
  cbn [Py.count]. rewrite IH. lia.
Qed.

(** A string a pattern matches holds at least as many slashes as the
    pattern does. *)
Lemma like_slashes (pat s : string) :
  Sql.like pat s = true -> Py.count "/" pat <= Py.count "/" s.
Proof.
  revert s. induction pat as [|p pat IH]; intros s H; [cbn [Py.count]; lia|].
  cbn [Sql.like] in H. destruct (Ascii.eqb p "%") eqn:Hpct.
  - apply Ascii.eqb_eq in Hpct. subst p.
    change (Py.count "/" (String "%" pat)) with (Py.count "/" pat).
    induction s as [|c s IHs].
    + apply orb_true_iff in H as [H | H]; [exact (IH _ H) | discriminate].
    + apply orb_true_iff in H as [H | H]; [exact (IH _ H)|].
      specialize (IHs H). cbn [Py.count]. lia.
  - destruct (Ascii.eqb p "_") eqn:Hund.
    + apply Ascii.eqb_eq in Hund. subst p.
      change (Py.count "/" (String "_" pat)) with (Py.count "/" pat).
      destruct s as [|c s]; [discriminate|]. specialize (IH _ H).
      pose proof (count_skip_continuation "/" s). cbn [Py.count]. lia.
    + destruct s as [|c s]; [discriminate|].
      apply andb_true_iff in H as [Hc H]. specialize (IH _ H). cbn [Py.count].
      destruct (Ascii.eqb p "/") eqn:Hp; [|lia].
      apply Ascii.eqb_eq in Hp. subst p. apply Ascii.eqb_eq in Hc.
      change (Py.lower_ascii "/") with "/"%char in Hc. symmetry in Hc.
      apply lower_ascii_slash in Hc. subst c. cbn [Ascii.eqb Bool.eqb]. lia.
Qed.

Lemma like_folder_not_itself (rel : string) : Sql.like (rel ++ "/%") rel = false.
Proof.
  destruct (Sql.like (rel ++ "/%") rel) eqn:H; [|reflexivity].
  apply like_slashes in H. rewrite count_app in H. cbn in H. lia.
Qed.

(** ** scanner.py: a deleted file that is taken for a folder *)

(** X15. [delete_path] tells a vanished file from a vanished folder by
    [path.suffix in COMIC_EXTENSIONS], with no [lower()]. So for a path
    that is gone and whose suffix is not literally ".cbz" or ".cbr", it
    takes the folder branch, and a row stored under the path itself stays
    in the index, with its id, uuid and path. *)
Theorem delete_path_vanished_other_suffix (config : IssuedConfig) (fs : node)
  (path : Path) (st : State) :
  let rel := to_relative path (library_path config) in
  exists_ fs path = false ->
  Archive.str_in (suffix path) COMIC_EXTENSIONS = false ->
  Py.rstrip_slash rel = rel ->
  forall c, In c (comics st) -> c_path c = rel ->
    exists c', In c' (comics (delete_path config fs path st)) /\
               c_path c' = rel /\ c_id c' = c_id c /\ c_uuid c' = c_uuid c.
Proof.
  intros rel Hex Hsuf Hstrip c Hin Hp. unfold delete_path.
  assert (Hdir : is_dir fs path = false).
  { unfold is_dir. unfold exists_ in Hex. destruct (lookup_path fs path); [discriminate|].
    reflexivity. }
  rewrite Hdir, Hex, Hsuf. cbn [negb andb orb].
  unfold delete_comics_under_path, delete_comics_where. fold rel. rewrite Hstrip.
  set (st1 := set_metadata _ _).
  assert (Hin1 : In c (comics st1)).
  { subst st1. cbn [comics set_metadata set_comics]. apply List.filter_In.
    split; [exact Hin|]. rewrite Hp, like_folder_not_itself. reflexivity. }
  assert (Hin2 : exists c', In c' (comics (delete_folder_by_path (library_path config)
                                             path st1))
                            /\ c_path c' = rel /\ c_id c' = c_id c /\ c_uuid c' = c_uuid c).
  { unfold delete_folder_by_path, delete_folders_where. cbn [comics set_comics set_folders].
    eexists. split; [apply List.in_map; exact Hin1|].
    destruct (opt_in _ _); cbn [c_path c_id c_uuid]; auto. }
  destruct Hin2 as (c' & Hc' & Hrest). exists c'. split; [|exact Hrest].
  destruct (List.map c_uuid _); [exact Hc' | exact Hc'].
Qed.

(** ** scanner.py: what the walk yields *)

Lemma walk_names (patterns : list string) :
  (forall n dir_path d files f,
     In (d, files) (walk_node patterns dir_path n) -> In f files ->
     exists nm, f = child d nm /\ _should_ignore nm patterns = false
                /\ is_comic_file (of_str nm) = true) /\
  (forall es dir_path,
     (forall f, In f (comic_files_of dir_path patterns es) ->
        exists nm, f = child dir_path nm /\ _should_ignore nm patterns = false
                   /\ is_comic_file (of_str nm) = true) /\
     (forall d files f,
        In (d, files) (walk_entries patterns dir_path es) -> In f files ->
        exists nm, f = child d nm /\ _should_ignore nm patterns = false
                   /\ is_comic_file (of_str nm) = true)).
Proof.
  apply node_entries_mutind.
  - intros i dir_path d files f [].
  - intros st es IH dir_path d files f Hin Hf. cbn [walk_node] in Hin.
    destruct (IH dir_path) as [Hfiles Hsub].
    destruct Hin as [Heq | Hin].
    + injection Heq as <- <-. exact (Hfiles f Hf).
    + exact (Hsub d files f Hin Hf).
  - intros dir_path. split; [intros f [] | intros d files f []].
  - intros nm n IHn rest IHrest dir_path. destruct (IHrest dir_path) as [Hfiles Hsub].
    split.
    + intros f Hf. cbn [comic_files_of] in Hf.
      destruct (negb (is_dir_node n) && negb (_should_ignore nm patterns)
                && is_comic_file (of_str nm)) eqn:Hc; [|exact (Hfiles f Hf)].
      destruct Hf as [<- | Hf]; [|exact (Hfiles f Hf)].
      apply andb_true_iff in Hc as [Hc Hcomic]. apply andb_true_iff in Hc as [_ Hign].
      apply negb_true_iff in Hign. exists nm. auto.
    + intros d files f Hin Hf. cbn [walk_entries] in Hin.
      apply List.in_app_or in Hin as [Hin | Hin]; [|exact (Hsub d files f Hin Hf)].
      destruct (is_dir_node n && negb (_should_ignore nm patterns)); [|destruct Hin].
      exact (IHn _ d files f Hin Hf).
Qed.

(** X16. Every file [walk_library] yields is on disk under the base, sits
    directly in the directory it is yielded with, has a name the ignore
    patterns let through and ends in a comic suffix. *)
Theorem walk_library_yields_comic_files (fs : node) (base : Path)
  (patterns : list string) (d : Path) (files : list Path) (f : Path) :
  fs_ok fs -> wf base ->
  In (d, files) (walk_library fs base patterns) -> In f files ->
  exists_ fs f = true /\ wf f /\ is_relative_to f base = true /\
  exists nm, f = child d nm /\ _should_ignore nm patterns = false
             /\ is_comic_file (of_str nm) = true.
Proof.
  intros Hfs Hwf Hd Hf.
  destruct (walk_library_good fs base patterns d files f Hfs Hwf Hd Hf) as (H1 & H2 & H3).
  split; [exact H1|]. split; [exact H2|]. split; [exact H3|].
  unfold walk_library in Hd. destruct (lookup_path fs base) as [n|]; [|destruct Hd].
  exact (proj1 (walk_names patterns) n base d files f Hd Hf).
Qed.

(** ** scanner.py: a file that moves *)

Lemma flush_rename (id0 : Z) (comic' : Comic) (todo done : list Comic) :
  List.NoDup (List.map c_id todo) ->
  (forall c, In c todo -> c_path c <> c_path comic') ->
  ((exists c, In c todo /\ c_id c = id0) ->
   forall x, In x done -> c_path x <> c_path comic') ->
  flush_updates c_path (fun c => if Z.eqb (c_id c) id0 then comic' else c) done todo
  = Ok (done ++ List.map (fun c => if Z.eqb (c_id c) id0 then comic' else c) todo).
Proof.
  revert done. induction todo as [|r todo IH]; intros done Hnd Hfree Hdone.
  - cbn [flush_updates List.map]. rewrite List.app_nil_r. reflexivity.
  - cbn [flush_updates List.map]. cbn [List.map] in Hnd.
    inversion Hnd as [|? ? Hr Hnd']; subst.
    assert (Hne := Hfree r (or_introl eq_refl)).
    destruct (Z.eqb (c_id r) id0) eqn:Hid.
    + apply Z.eqb_eq in Hid.
      assert (Hneq : String.eqb (c_path comic') (c_path r) = false).
      { apply String.eqb_neq. intros Heq. apply Hne. symmetry. exact Heq. }
      rewrite Hneq.
      assert (Hex : List.existsb (fun x => String.eqb (c_path x) (c_path comic'))
                                 (done ++ todo) = false).
      { destruct (List.existsb _ (done ++ todo)) eqn:He; [|reflexivity]. exfalso.
        apply List.existsb_exists in He as (x & Hx & Hp). apply String.eqb_eq in Hp.
        apply List.in_app_or in Hx as [Hx | Hx].
        - apply (Hdone (ex_intro _ r (conj (or_introl eq_refl) Hid)) x Hx Hp).
        - exact (Hfree x (or_intror Hx) Hp). }
      rewrite Hex. rewrite IH.
      * rewrite <- List.app_assoc. reflexivity.
      * exact Hnd'.
      * intros c Hc. exact (Hfree c (or_intror Hc)).
      * intros (c & Hc & Hcid). exfalso. apply Hr. rewrite Hid, <- Hcid.
        apply List.in_map, Hc.
    + rewrite String.eqb_refl. rewrite IH.
      * rewrite <- List.app_assoc. reflexivity.
      * exact Hnd'.
      * intros c Hc. exact (Hfree c (or_intror Hc)).
      * intros (c & Hc & Hcid) x Hx. apply List.in_app_or in Hx as [Hx | [<- | []]].
        -- exact (Hdone (ex_intro _ c (conj (or_intror Hc) Hcid)) x Hx).
        -- exact Hne.
Qed.

Lemma find_map_rename (rel : string) (comic comic' : Comic) (l : list Comic) :
  c_path comic' = rel -> In comic l ->
  (forall c, In c l -> c_path c <> rel) ->
  List.find (fun c => String.eqb (c_path c) rel)
            (List.map (fun c => if Z.eqb (c_id c) (c_id comic) then comic' else c) l)
  = Some comic'.
Proof.
  intros Hrel. induction l as [|x l IH]; intros Hin Hfree; [destruct Hin|].
  cbn [List.map List.find]. destruct (Z.eqb (c_id x) (c_id comic)) eqn:Hid.
  - rewrite Hrel, String.eqb_refl. reflexivity.
  - assert (Hx : String.eqb (c_path x) rel = false)
      by (apply String.eqb_neq, Hfree; left; reflexivity).
    rewrite Hx. apply IH.
    + destruct Hin as [-> | Hin]; [rewrite Z.eqb_refl in Hid; discriminate | exact Hin].
    + intros c Hc. apply Hfree. right. exact Hc.
Qed.

(** X17. A comic file that is renamed or moved keeps its row: when the source
    has a row, the destination has none and is a comic file, [move_path]
    stores the row under the destination with the new filename and the
    folder of the destination, and with the id, the uuid and every other
    field it had; no row is left under the source, and the metadata and the
    thumbnails are untouched. *)
Theorem move_path_file_keeps_row (config : IssuedConfig) (fs : node)
  (src_path dest_path : Path) (st : State) (comic : Comic) (m : option ComicMetadata) :
  let root := library_path config in
  let st' := move_path config fs src_path dest_path st in
  (if exists_ fs dest_path then is_dir fs dest_path
   else negb (Archive.str_in (suffix src_path) COMIC_EXTENSIONS)) = false ->
  is_comic_file dest_path = true ->
  get_comic_by_path root src_path st = Some (comic, m) ->
  comic_by_path st (to_relative dest_path root) = None ->
  comic_ids_unique st -> List.NoDup (comic_paths st) ->
  (exists folder,
     In folder (folders st') /\ f_path folder = to_relative (parent dest_path) root /\
     comic_by_path st' (to_relative dest_path root)
     = Some (mkComic (c_id comic) (c_uuid comic) (name dest_path)
                     (to_relative dest_path root) (c_format comic) (c_file_size comic)
                     (c_page_count comic) (c_file_modified_at comic)
                     (c_last_scanned_at comic) (c_thumbnail_generated comic)
                     (Some (f_id folder)) (c_created_at comic))) /\
  comic_by_path st' (to_relative src_path root) = None /\
  List.map c_id (comics st') = List.map c_id (comics st) /\
  metadata st' = metadata st /\ thumbnails st' = thumbnails st.
Proof.
  intros root st' Hkind Hcomic Hget Hfree Hids Hpaths. subst st'. unfold move_path.
  rewrite Hkind, Hcomic. cbn [negb]. fold root. rewrite Hget.
  unfold get_comic_by_path in Hget.
  destruct (comic_by_path st (to_relative src_path root)) as [c0|] eqn:Hsrc;
    [|discriminate].
  injection Hget as -> _. apply comic_by_path_in in Hsrc as [Hin Hsrcp].
  pose proof (get_or_create_folder_frame root (parent dest_path) st) as Hframe.
  pose proof (get_or_create_folder_rec_row root (absolute (parent dest_path))
                (List.rev (parts (parent dest_path))) st) as Hrow.
  cbn zeta in Hrow.
  change (get_or_create_folder_rec root (absolute (parent dest_path))
            (List.rev (parts (parent dest_path))) st)
    with (get_or_create_folder root (parent dest_path) st) in Hrow.
  assert (Hrev : mkPath (absolute (parent dest_path))
                        (List.rev (List.rev (parts (parent dest_path)))) = parent dest_path).
  { rewrite List.rev_involutive. destruct (parent dest_path); reflexivity. }
  rewrite Hrev in Hrow.
  destruct (get_or_create_folder root (parent dest_path) st) as [st1 folder].
  cbn [fst snd] in Hframe, Hrow. destruct Hframe as (Hc & Hm & Ht).
  destruct Hrow as (_ & Hfp & Hfin & _).
  set (comic' := mkComic (c_id comic) (c_uuid comic) (name dest_path)
                         (to_relative dest_path root) (c_format comic) (c_file_size comic)
                         (c_page_count comic) (c_file_modified_at comic)
                         (c_last_scanned_at comic) (c_thumbnail_generated comic)
                         (Some (f_id folder)) (c_created_at comic)).
  assert (Hnone : forall c, In c (comics st) -> c_path c <> to_relative dest_path root).
  { intros c Hcin Hp. unfold comic_by_path in Hfree.
    pose proof (List.find_none _ _ Hfree c Hcin) as Hn. cbn beta in Hn.
    rewrite Hp, String.eqb_refl in Hn. discriminate. }
  rewrite (flush_rename (c_id comic) comic' (comics st1) []).
  - cbn [app comics folders metadata thumbnails set_comics]. rewrite Hc.
    split; [|split; [|split; [|split; [exact Hm | exact Ht]]]].
    + exists folder. split; [exact Hfin|]. split; [exact Hfp|].
      unfold comic_by_path. cbn [comics set_comics].
      apply find_map_rename; [reflexivity | exact Hin | exact Hnone].
    + unfold comic_by_path. cbn [comics set_comics].
      destruct (List.find _ _) as [x|] eqn:Hf; [|reflexivity]. exfalso.
      apply List.find_some in Hf as [Hx Hxp]. apply String.eqb_eq in Hxp.
      apply List.in_map_iff in Hx as (y & Hy & Hyin).
      destruct (Z.eqb (c_id y) (c_id comic)) eqn:Hid.
      * subst x. cbn [c_path comic'] in Hxp. apply (Hnone comic Hin).
        rewrite Hsrcp. symmetry. exact Hxp.
      * subst x.
        assert (y = comic).
        { apply (NoDup_map_inj c_path (comics st) y comic Hpaths Hyin Hin).
          rewrite Hxp, Hsrcp. reflexivity. }
        subst y. rewrite Z.eqb_refl in Hid. discriminate.
    + rewrite List.map_map. apply List.map_ext. intros c.
      destruct (Z.eqb (c_id c) (c_id comic)) eqn:Hid; [|reflexivity].
      cbn [c_id comic']. symmetry. apply Z.eqb_eq, Hid.
  - rewrite Hc. exact Hids.
  - rewrite Hc. intros c Hcin. cbn [c_path comic']. exact (Hnone c Hcin).
  - intros _ x [].
Qed.

(** ** monitor.py: a batch that is already optimised *)

Section MonitorIdempotence.

Import Monitor.

Lemma by_action_action (act : string) (tasks : list MonitorTask) (p : Path)
  (t : MonitorTask) :
  In (p, t) (by_action act tasks) -> action t = act.
Proof.
  intros Hin. apply In_dict_lookup in Hin; [|apply by_action_NoDup].
  rewrite by_action_lookup in Hin. apply last_task_inv in Hin. apply Hin.
Qed.

Lemma final_of_incl (d : taskdict) (p : Path) (t : MonitorTask) :
  In (p, t) (final_of d) -> In (p, t) d.
Proof.
  intros Hin. unfold final_of in Hin. apply prune_from in Hin as [[] | [_ Hl]].
  apply dict_lookup_In, Hl.
Qed.

Lemma fold_by_action_other (act a : string) (l : list MonitorTask) (d : taskdict) :
  (forall t, In t l -> action t = a) -> String.eqb a act = false ->
  List.fold_left
    (fun d t => if String.eqb (action t) act then dict_set (path t) t d else d) l d = d.
Proof.
  intros Hl Ha. revert d. induction l as [|t l IH]; intros d; [reflexivity|].
  cbn [List.fold_left]. rewrite (Hl t (or_introl eq_refl)), Ha.
  apply IH. intros t' Ht'. apply Hl. right. exact Ht'.
Qed.

Lemma dict_set_fresh (k : Path) (v : MonitorTask) (d : taskdict) :
  ~ In k (keys d) -> dict_set k v d = d ++ [(k, v)].
Proof.
  induction d as [|[k' v'] d IH]; intros Hk; [reflexivity|].
  cbn [dict_set List.app]. cbn [keys List.map fst] in Hk.
  rewrite bool_decide_eq_false_2.
  - f_equal. apply IH. intros Hin. apply Hk. right. exact Hin.
  - intros ->. apply Hk. left. reflexivity.
Qed.

Lemma fold_by_action_fresh (act : string) (l : list MonitorTask) (d : taskdict) :
  (forall t, In t l -> action t = act) ->
  List.NoDup (keys d ++ List.map path l) ->
  List.fold_left
    (fun d t => if String.eqb (action t) act then dict_set (path t) t d else d) l d
  = d ++ List.map (fun t => (path t, t)) l.
Proof.
  intros Hl. revert d. induction l as [|t l IH]; intros d Hnd.
  - cbn [List.fold_left List.map]. symmetry. apply List.app_nil_r.
  - cbn [List.fold_left List.map] in *.
    rewrite (Hl t (or_introl eq_refl)), String.eqb_refl.
    assert (Hfresh : ~ In (path t) (keys d)).
    { intros Hin. apply List.NoDup_remove_2 in Hnd. apply Hnd.
      apply List.in_or_app. left. exact Hin. }
    rewrite (dict_set_fresh _ _ _ Hfresh), IH.
    + rewrite <- List.app_assoc. reflexivity.
    + intros t' Ht'. apply Hl. right. exact Ht'.
    + rewrite keys_app. cbn [keys List.map fst]. rewrite <- List.app_assoc. exact Hnd.
Qed.

Lemma pairs_values (d : taskdict) :
  (forall p t, In (p, t) d -> path t = p) ->
  List.map (fun t => (path t, t)) (values d) = d.
Proof.
  intros H. unfold values. rewrite List.map_map.
  rewrite <- (List.map_id d) at 2. apply List.map_ext_in.
  intros [p t] Hin. cbn [snd]. rewrite (H p t Hin). reflexivity.
Qed.

Lemma prune_all (d rest final : taskdict) :
  (forall p t, In (p, t) rest -> dict_lookup p d = Some t) ->
  antichain (keys final ++ keys rest) ->
  prune d (keys rest) final = final ++ rest.
Proof.
  revert final. induction rest as [|[p t] rest IH]; intros final Hl Hanti.
  - cbn [keys List.map prune]. symmetry. apply List.app_nil_r.
  - cbn [keys List.map fst prune].
    assert (Hanc : has_kept_ancestor p final = false).
    { destruct (has_kept_ancestor p final) eqn:H; [|reflexivity]. exfalso.
      apply has_kept_ancestor_spec in H as (q & Hq & Hcov).
      apply (Hanti p q); [| |exact Hcov].
      - apply List.in_or_app. right. left. reflexivity.
      - apply List.in_or_app. left. exact Hq. }
    rewrite Hanc, (Hl p t (or_introl eq_refl)).
    change (List.map fst rest) with (keys rest). rewrite IH.
    + rewrite <- List.app_assoc. reflexivity.
    + intros p' t' Hin. apply Hl. right. exact Hin.
    + rewrite keys_app. cbn [keys List.map fst]. rewrite <- List.app_assoc. exact Hanti.
Qed.

Lemma final_of_antichain (d : taskdict) : antichain (keys (final_of d)).
Proof.
  unfold final_of. apply prune_antichain.
  - cbn [keys List.map List.app]. apply (sorted_sorted id).
  - intros p q [].
Qed.

Lemma final_of_idem (d : taskdict) :
  List.NoDup (keys d) -> final_of (final_of d) = final_of d.
Proof.
  intros Hnd. unfold final_of at 1.
  rewrite (sorted_id id (keys (final_of d))); [|apply final_of_keys_sorted].
  apply (prune_all (final_of d) (final_of d) []).
  - intros p t Hin. apply In_dict_lookup; [apply final_of_keys_NoDup, Hnd | exact Hin].
  - cbn [keys List.map List.app]. apply final_of_antichain.
Qed.

Lemma filter_all {A : Type} (P : A -> bool) (l : list A) :
  (forall x, In x l -> P x = true) -> List.filter P l = l.
Proof.
  induction l as [|x l IH]; intros H; [reflexivity|]. cbn [List.filter].
  rewrite (H x (or_introl eq_refl)). f_equal. apply IH.
  intros y Hy. apply H. right. exact Hy.
Qed.

Lemma filter_filter {A : Type} (P : A -> bool) (l : list A) :
  List.filter P (List.filter P l) = List.filter P l.
Proof.
  apply filter_all. intros x Hx. apply List.filter_In in Hx as [_ Hx]. exact Hx.
Qed.

Lemma optimize_tasks_unfold (tasks : list MonitorTask) :
  optimize_tasks tasks
  = values (final_deletes tasks) ++ moves tasks
      ++ values (final_scan_folders tasks) ++ final_scan_files tasks.
Proof.
  destruct (final_by_action "scan_folder" tasks) as [Hfk _].
  fold (final_scan_folders tasks) in Hfk.
  assert (Hsorted : StronglySorted (key_le path) (values (final_scan_folders tasks))).
  { apply map_key_sorted. rewrite Hfk. apply final_of_keys_sorted. }
  unfold optimize_tasks. destruct tasks as [|t0 tasks]; [reflexivity|].
  rewrite (sorted_id path _ Hsorted). reflexivity.
Qed.

(** X18. Optimising a batch that [optimize_tasks] returned changes nothing. *)
Theorem optimize_tasks_idempotent (tasks : list MonitorTask) :
  optimize_tasks (optimize_tasks tasks) = optimize_tasks tasks.
Proof.
  rewrite (optimize_tasks_unfold (optimize_tasks tasks)).
  rewrite (optimize_tasks_unfold tasks).
  set (D := values (final_deletes tasks)). set (M := moves tasks).
  set (F := values (final_scan_folders tasks)). set (S := final_scan_files tasks).
  set (out := D ++ M ++ F ++ S).
  assert (HD : forall t, In t D -> action t = "delete").
  { intros t Ht. apply List.in_map_iff in Ht as ([p t'] & <- & Hin).
    apply final_of_incl in Hin. exact (by_action_action _ _ _ _ Hin). }
  assert (HF : forall t, In t F -> action t = "scan_folder").
  { intros t Ht. apply List.in_map_iff in Ht as ([p t'] & <- & Hin).
    apply final_of_incl in Hin. exact (by_action_action _ _ _ _ Hin). }
  assert (HM : forall t, In t M -> action t = "move").
  { intros t Ht. apply List.filter_In in Ht as [_ Ht]. apply String.eqb_eq, Ht. }
  assert (HS : forall t, In t S -> action t = "scan_file").
  { intros t Ht. apply List.in_map_iff in Ht as ([p t'] & <- & Hin).
    apply List.filter_In in Hin as [Hin _]. exact (by_action_action _ _ _ _ Hin). }
  assert (HpD : forall p t, In (p, t) (final_deletes tasks) -> path t = p).
  { intros p t Hin. apply final_of_incl in Hin. exact (by_action_path _ _ _ _ Hin). }
  assert (HpF : forall p t, In (p, t) (final_scan_folders tasks) -> path t = p).
  { intros p t Hin. apply final_of_incl in Hin. exact (by_action_path _ _ _ _ Hin). }
  destruct (final_by_action "delete" tasks) as [HDk _].
  destruct (final_by_action "scan_folder" tasks) as [HFk _].
  fold (final_deletes tasks) in HDk. fold (final_scan_folders tasks) in HFk.
  fold D in HDk. fold F in HFk.
  assert (HndD : List.NoDup (List.map path D))
    by (rewrite HDk; apply final_of_keys_NoDup, by_action_NoDup).
  assert (HndF : List.NoDup (List.map path F))
    by (rewrite HFk; apply final_of_keys_NoDup, by_action_NoDup).
  assert (HndS : List.NoDup (List.map path S)) by apply final_scan_files_NoDup.
  assert (Hdel : by_action "delete" out = final_deletes tasks).
  { unfold by_action, out. rewrite !List.fold_left_app.
    rewrite (fold_by_action_fresh "delete" D []); [|exact HD | exact HndD].
    rewrite (fold_by_action_other "delete" "move" M); [|exact HM | reflexivity].
    rewrite (fold_by_action_other "delete" "scan_folder" F); [|exact HF | reflexivity].
    rewrite (fold_by_action_other "delete" "scan_file" S); [|exact HS | reflexivity].
    cbn [List.app]. apply pairs_values, HpD. }
  assert (Hfold : by_action "scan_folder" out = final_scan_folders tasks).
  { unfold by_action, out. rewrite !List.fold_left_app.
    rewrite (fold_by_action_other "scan_folder" "delete" D); [|exact HD | reflexivity].
    rewrite (fold_by_action_other "scan_folder" "move" M); [|exact HM | reflexivity].
    rewrite (fold_by_action_fresh "scan_folder" F []); [|exact HF | exact HndF].
    rewrite (fold_by_action_other "scan_folder" "scan_file" S); [|exact HS | reflexivity].
    cbn [List.app]. apply pairs_values, HpF. }
  set (g := fun kv : Path * MonitorTask =>
              negb (List.existsb (fun folder_path => is_relative_to (fst kv) folder_path)
                                 (keys (final_scan_folders tasks)))).
  assert (Hfile : by_action "scan_file" out
                  = List.filter g (by_action "scan_file" tasks)).
  { unfold by_action at 1. unfold out. rewrite !List.fold_left_app.
    rewrite (fold_by_action_other "scan_file" "delete" D); [|exact HD | reflexivity].
    rewrite (fold_by_action_other "scan_file" "move" M); [|exact HM | reflexivity].
    rewrite (fold_by_action_other "scan_file" "scan_folder" F); [|exact HF | reflexivity].
    rewrite (fold_by_action_fresh "scan_file" S []); [|exact HS | exact HndS].
    cbn [List.app]. unfold S, final_scan_files. fold g.
    apply (pairs_values (List.filter g (by_action "scan_file" tasks))).
    intros p t Hin. apply List.filter_In in Hin as [Hin _].
    exact (by_action_path _ _ _ _ Hin). }
  assert (Hmov : moves out = M).
  { unfold moves at 1. unfold out. rewrite !List.filter_app.
    rewrite (filter_none _ D), (filter_none _ F), (filter_none _ S).
    - rewrite List.app_nil_r. cbn [List.app]. apply filter_filter.
    - intros t Ht. rewrite (HS t Ht). reflexivity.
    - intros t Ht. rewrite (HF t Ht). reflexivity.
    - intros t Ht. rewrite (HD t Ht). reflexivity. }
  assert (Hfd : final_deletes out = final_deletes tasks).
  { unfold final_deletes at 1. rewrite Hdel. apply final_of_idem, by_action_NoDup. }
  assert (Hff : final_scan_folders out = final_scan_folders tasks).
  { unfold final_scan_folders at 1. rewrite Hfold. apply final_of_idem, by_action_NoDup. }
  assert (Hfs : final_scan_files out = S).
  { unfold final_scan_files at 1. rewrite Hff, Hfile. fold g.
    rewrite filter_filter. reflexivity. }
  rewrite Hfd, Hmov, Hff, Hfs. reflexivity.
Qed.

End MonitorIdempotence.

(** ** scanner.py: a folder that is deleted *)

(** X19. [delete_path] of a directory, or of a path that is gone and has no
    comic suffix, takes the folder branch: afterwards no item is stored
    under the folder, no folder row is stored at or under its path, the
    thumbnails of the deleted items are gone, and the items the pattern
    does not match are all still there. *)
Theorem delete_path_folder (config : IssuedConfig) (fs : node) (path : Path) (st : State) :
  let root := library_path config in
  let rel := Py.rstrip_slash (to_relative path root) in
  let st' := delete_path config fs path st in
  is_dir fs path = true
  \/ (exists_ fs path = false /\ Archive.str_in (suffix path) COMIC_EXTENSIONS = false) ->
  Sql.underscore_ok rel = true ->
  List.NoDup (List.map f_path (folders st)) ->
  (forall c, In c (comics st') -> Py.startswith (rel ++ "/") (c_path c) = false) /\
  (forall f, In f (folders st') ->
             f_path f <> rel /\ Py.startswith (rel ++ "/") (f_path f) = false) /\
  (forall c, In c (comics st) -> Sql.like (rel ++ "/%") (c_path c) = true ->
             c_uuid c ∉ thumbnails st') /\
  (forall c, In c (comics st) -> Sql.like (rel ++ "/%") (c_path c) = false ->
             In (c_path c) (comic_paths st')).
Proof.
  intros root rel st' Hkind Hok Hnd. subst st'. unfold delete_path.
  assert (Hcond : is_dir fs path
                  || negb (exists_ fs path)
                     && negb (Archive.str_in (suffix path) COMIC_EXTENSIONS) = true).
  { destruct Hkind as [-> | [-> ->]]; [reflexivity | apply orb_true_r]. }
  rewrite Hcond. fold root.
  unfold delete_comics_under_path, delete_comics_where. fold rel.
  set (gone := List.filter (fun c => Sql.like (rel ++ "/%") (c_path c)) (comics st)).
  set (st1 := set_metadata _ _).
  set (st2 := delete_folder_by_path root path st1).
  assert (Hc1 : comics st1
                = List.filter (fun c => negb (Sql.like (rel ++ "/%") (c_path c)))
                              (comics st)) by reflexivity.
  assert (Hp2 : comic_paths st2 = comic_paths st1)
    by apply delete_folder_by_path_paths.
  assert (Hst' : forall s, s = match List.map c_uuid gone with
                               | [] => st2
                               | _ :: _ => delete_thumbnails (List.map c_uuid gone) st2
                               end ->
                 comics s = comics st2 /\ folders s = folders st2 /\
                 forall u, In u (List.map c_uuid gone) -> u ∉ thumbnails s).
  { intros s ->. destruct (List.map c_uuid gone) as [|u us] eqn:Hm.
    - repeat split. intros u [].
    - repeat split. intros u' Hu'. apply delete_thumbnails_gone. exact Hu'. }
  destruct (Hst' _ eq_refl) as (Hc & Hf & Hth).
  split; [|split; [|split]].
  - intros c Hin. rewrite Hc in Hin.
    assert (Hp : In (c_path c) (comic_paths st1)).
    { rewrite <- Hp2. unfold comic_paths. apply List.in_map, Hin. }
    unfold comic_paths in Hp. rewrite Hc1 in Hp.
    apply List.in_map_iff in Hp as (c1 & Hc1p & Hc1in).
    apply List.filter_In in Hc1in as [_ Hn]. apply negb_true_iff in Hn.
    rewrite <- Hc1p.
    destruct (Py.startswith (rel ++ "/") (c_path c1)) eqn:Hs; [|reflexivity].
    rewrite (like_descendant rel (c_path c1) Hok Hs) in Hn. discriminate.
  - intros f Hin. rewrite Hf in Hin. subst st2.
    unfold delete_folder_by_path, delete_folders_where in Hin. fold rel in Hin.
    cbn [folders set_comics set_folders] in Hin.
    apply List.in_map_iff in Hin as (f0 & Hf0 & Hin).
    apply List.filter_In in Hin as [Hin Hsel]. apply negb_true_iff in Hsel.
    apply orb_false_iff in Hsel as [Hlike Hexact].
    assert (Hpath : f_path f = f_path f0).
    { rewrite <- Hf0. destruct (opt_in _ _); reflexivity. }
    rewrite Hpath. change (folders st1) with (folders st) in Hin.
    split.
    + intros Heq. unfold folder_by_path in Hexact.
      change (folders st1) with (folders st) in Hexact.
      destruct (List.find (fun f1 => String.eqb (f_path f1) rel) (folders st))
        as [fx|] eqn:Hfind.
      * cbn [option_map] in Hexact. apply List.find_some in Hfind as [Hfx Hfxp].
        apply String.eqb_eq in Hfxp.
        assert (f0 = fx).
        { apply (NoDup_map_inj f_path (folders st) f0 fx Hnd Hin Hfx). congruence. }
        subst fx. rewrite Z.eqb_refl in Hexact. discriminate.
      * pose proof (List.find_none _ _ Hfind f0 Hin) as Hn. cbn beta in Hn.
        rewrite Heq, String.eqb_refl in Hn. discriminate.
    + destruct (Py.startswith (rel ++ "/") (f_path f0)) eqn:Hs; [|reflexivity].
      rewrite (like_descendant rel (f_path f0) Hok Hs) in Hlike. discriminate.
  - intros c Hin Hlike. apply Hth. apply List.in_map. apply List.filter_In. auto.
  - intros c Hin Hlike. unfold comic_paths at 1. rewrite Hc.
    fold (comic_paths st2). rewrite Hp2. unfold comic_paths. rewrite Hc1.
    apply List.in_map. apply List.filter_In. split; [exact Hin|].
    rewrite Hlike. reflexivity.
Qed.

(** ** comicinfo.py: the elements the parser reads *)

Lemma find_app {A : Type} (P : A -> bool) (l1 l2 : list A) :
  List.find P (l1 ++ l2)
  = match List.find P l1 with Some x => Some x | None => List.find P l2 end.
Proof.
  induction l1 as [|x l1 IH]; [reflexivity|]. cbn [List.app List.find].
  destruct (P x); [reflexivity | exact IH].
Qed.

Lemma find_rev_filter {A : Type} (P Q : A -> bool) (l : list A) :
  (forall x, P x = true -> Q x = true) ->
  List.find P (List.rev (List.filter Q l)) = List.find P (List.rev l).
Proof.
  intros HPQ. induction l as [|x l IH]; [reflexivity|].
  cbn [List.filter List.rev]. destruct (Q x) eqn:Hq.
  - cbn [List.rev]. rewrite !find_app, IH. reflexivity.
  - rewrite find_app, IH. cbn [List.find].
    assert (Hp : P x = false).
    { destruct (P x) eqn:Hp; [|reflexivity]. rewrite (HPQ x Hp) in Hq. discriminate. }
    rewrite Hp. destruct (List.find P (List.rev l)); reflexivity.
Qed.

Lemma by_lower_get_filter (k : string) (keep : string * option string -> bool)
  (children : list (string * option string)) :
  (forall e, String.eqb (_local_name (fst e)) k = true -> keep e = true) ->
  by_lower_get k (List.filter keep children) = by_lower_get k children.
Proof.
  intros H. unfold by_lower_get.
  rewrite (find_rev_filter (fun e => String.eqb (_local_name (fst e)) k) keep children H).
  reflexivity.
Qed.

Lemma parse_loop_filter (keep : string * option string -> bool)
  (children : list (string * option string)) (tags : list (string * string))
  (raw : pydict) :
  (forall tag key, In (tag, key) tags ->
     forall e, String.eqb (_local_name (fst e)) tag = true -> keep e = true) ->
  parse_loop (List.filter keep children) tags raw = parse_loop children tags raw.
Proof.
  revert raw. induction tags as [|[tag key] tags IH]; intros raw H; [reflexivity|].
  cbn [parse_loop].
  rewrite (by_lower_get_filter tag keep children (H tag key (or_introl eq_refl))).
  assert (IH' : forall raw', parse_loop (List.filter keep children) tags raw'
                             = parse_loop children tags raw').
  { intros raw'. apply IH. intros tag' key' Hin. apply (H tag' key'). right. exact Hin. }
  destruct (match by_lower_get tag children with
            | Some t => _text t
            | None => None
            end) as [t|]; [|apply IH'].
  destruct (is_int_key key); [|apply IH'].
  destruct (_int_or_none (Some t)); apply IH'.
Qed.

(** X20. The record [parse_comicinfo_xml] builds depends only on the children
    of the root whose local name, in lower case, is one of the twelve
    tags of [TAG_MAP]; "series" is not one of them. So two sidecars whose
    trees agree on these children give the same record. *)
Theorem parse_comicinfo_xml_reads_mapped_tags (xml1 xml2 : string)
  (children1 children2 : list (string * option string)) :
  let mapped (e : string * option string) :=
    Archive.str_in (_local_name (fst e)) (List.map fst TAG_MAP) in
  ET_fromstring xml1 = Ok children1 ->
  ET_fromstring xml2 = Ok children2 ->
  List.filter mapped children1 = List.filter mapped children2 ->
  parse_comicinfo_xml xml1 = parse_comicinfo_xml xml2 /\
  mapped ("Series", None) = false.
Proof.
  intros mapped H1 H2 Heq. split; [|reflexivity].
  unfold parse_comicinfo_xml. rewrite H1, H2. f_equal.
  assert (Hkeep : forall tag key, In (tag, key) TAG_MAP ->
            forall e, String.eqb (_local_name (fst e)) tag = true -> mapped e = true).
  { intros tag key Hin e He. unfold mapped, Archive.str_in.
    apply List.existsb_exists. exists tag. split; [|exact He].
    apply (List.in_map fst TAG_MAP (tag, key) Hin). }
  rewrite <- (parse_loop_filter mapped children1 TAG_MAP [] Hkeep).
  rewrite <- (parse_loop_filter mapped children2 TAG_MAP [] Hkeep).
  rewrite Heq. reflexivity.
Qed.

(** ** thumbnails.py: the thumbnails of the whole index *)

Lemma generate_thumbnails_fold (config : IssuedConfig) (fs : node) (l : list Comic)
  (s : State) :
  let r := List.fold_left
             (fun s comic =>
                let path := to_absolute (c_path comic) (library_path config) in
                if negb (exists_ fs path) then s
                else match _extract_first_image_bytes fs path with
                     | None => s
                     | Some img_bytes =>
                         if String.eqb img_bytes "" then s
                         else if negb (save_thumbnail_ok img_bytes) then s
                         else set_thumbnail_generated (c_id comic) true
                                (set_thumbnails (thumbnails s ∪ {[ c_uuid comic ]}) s)
                     end) l s in
  thumbnails s ⊆ thumbnails r /\
  (forall u, u ∈ thumbnails r ->
     u ∈ thumbnails s \/
     exists c, In c l /\ c_uuid c = u /\
               exists_ fs (to_absolute (c_path c) (library_path config)) = true) /\
  List.map c_path (comics r) = List.map c_path (comics s) /\
  List.map c_id (comics r) = List.map c_id (comics s) /\
  List.map c_uuid (comics r) = List.map c_uuid (comics s) /\
  (forall c', In c' (comics r) -> c_thumbnail_generated c' = true ->
     (exists c, In c (comics s) /\ c_id c = c_id c' /\ c_thumbnail_generated c = true) \/
     exists c0, In c0 l /\ c_id c0 = c_id c' /\ c_uuid c0 ∈ thumbnails r) /\
  folders r = folders s /\ metadata r = metadata s.
Proof.
  revert s. induction l as [|c l IH]; intros s; cbn zeta.
  - cbn [List.fold_left]. split; [reflexivity|]. split; [auto|].
    split; [reflexivity|]. split; [reflexivity|]. split; [reflexivity|].
    split; [|split; reflexivity]. intros c' Hin Hflag. left. exists c'. auto.
  - cbn [List.fold_left].
    set (step := if negb (exists_ fs (to_absolute (c_path c) (library_path config))) then s
                 else _).
    assert (Hstep : step = s \/
              (exists_ fs (to_absolute (c_path c) (library_path config)) = true /\
               step = set_thumbnail_generated (c_id c) true
                        (set_thumbnails (thumbnails s ∪ {[ c_uuid c ]}) s))).
    { subst step.
      destruct (exists_ fs (to_absolute (c_path c) (library_path config))); cbn [negb];
        [|left; reflexivity].
      destruct (_extract_first_image_bytes fs _) as [img|]; [|left; reflexivity].
      destruct (String.eqb img ""); [left; reflexivity|].
      destruct (negb (save_thumbnail_ok img)); [left; reflexivity|].
      right. split; reflexivity. }
    specialize (IH step). cbn zeta in IH.
    destruct IH as (I1 & I2 & I3 & I4 & I5 & I6 & I7 & I8).
    destruct Hstep as [Hsame | [Hex Hnew]].
    + rewrite Hsame in *. split; [exact I1|]. split.
      { intros u Hu. destruct (I2 u Hu) as [H | (c0 & Hc0 & Hrest)]; [left; exact H|].
        right. exists c0. split; [right; exact Hc0 | exact Hrest]. }
      split; [exact I3|]. split; [exact I4|]. split; [exact I5|].
      split; [|split; [exact I7 | exact I8]].
      intros c' Hin Hflag.
      destruct (I6 c' Hin Hflag) as [H | (c0 & Hc0 & Hrest)]; [left; exact H|].
      right. exists c0. split; [right; exact Hc0 | exact Hrest].
    + assert (Hth : thumbnails step = thumbnails s ∪ {[ c_uuid c ]})
        by (rewrite Hnew; reflexivity).
      assert (Hcs : comics step
                    = List.map (fun x =>
                        if Z.eqb (c_id x) (c_id c)
                        then mkComic (c_id x) (c_uuid x) (c_filename x) (c_path x)
                               (c_format x) (c_file_size x) (c_page_count x)
                               (c_file_modified_at x) (c_last_scanned_at x) true
                               (c_folder_id x) (c_created_at x)
                        else x) (comics s))
        by (rewrite Hnew; reflexivity).
      assert (Hfm : folders step = folders s /\ metadata step = metadata s)
        by (rewrite Hnew; split; reflexivity).
      assert (Hu_new : c_uuid c ∈ thumbnails step)
        by (rewrite Hth; apply elem_of_union_r, elem_of_singleton; reflexivity).
      split.
      { intros u Hu. apply I1. rewrite Hth. apply elem_of_union_l, Hu. }
      split.
      { intros u Hu. destruct (I2 u Hu) as [H | (c0 & Hc0 & Hrest)].
        - rewrite Hth in H. apply elem_of_union in H as [H | H]; [left; exact H|].
          apply elem_of_singleton in H. right. exists c.
          split; [left; reflexivity | split; [symmetry; exact H | exact Hex]].
        - right. exists c0. split; [right; exact Hc0 | exact Hrest]. }
      split.
      { rewrite I3, Hcs, List.map_map. apply List.map_ext. intros x.
        destruct (Z.eqb (c_id x) (c_id c)); reflexivity. }
      split.
      { rewrite I4, Hcs, List.map_map. apply List.map_ext. intros x.
        destruct (Z.eqb (c_id x) (c_id c)); reflexivity. }
      split.
      { rewrite I5, Hcs, List.map_map. apply List.map_ext. intros x.
        destruct (Z.eqb (c_id x) (c_id c)); reflexivity. }
      split; [|destruct Hfm as [Hf Hm]; split; [rewrite I7; exact Hf | rewrite I8; exact Hm]].
      intros c' Hin Hflag.
      destruct (I6 c' Hin Hflag) as [(x' & Hx' & Hid & Hfl) | (c0 & Hc0 & Hrest)].
      * rewrite Hcs in Hx'. apply List.in_map_iff in Hx' as (x & Hx & Hxin).
        destruct (Z.eqb (c_id x) (c_id c)) eqn:Heq.
        -- right. exists c. split; [left; reflexivity|]. apply Z.eqb_eq in Heq.
           split; [rewrite <- Hid, <- Hx; cbn [c_id]; symmetry; exact Heq|].
           apply I1. exact Hu_new.
        -- left. exists x. subst x'. auto.
      * right. exists c0. split; [right; exact Hc0 | exact Hrest].
Qed.

(** X21. [generate_thumbnails] only adds: no thumbnail goes; a new one is named
    by the uuid of a row it was asked to do whose file is on disk; a row is
    flagged only if it was flagged before or a row with its id had its
    thumbnail written; and no path, id or uuid, folder or metadata row
    changes. *)
Theorem generate_thumbnails_spec (config : IssuedConfig) (fs : node) (regenerate : bool)
  (st : State) :
  let st' := generate_thumbnails config fs regenerate st in
  let todo := if regenerate then get_all_comics st
              else get_missing_thumbnails_comics st in
  thumbnails st ⊆ thumbnails st' /\
  (forall u, u ∈ thumbnails st' ->
     u ∈ thumbnails st \/
     exists c, In c todo /\ c_uuid c = u /\
               exists_ fs (to_absolute (c_path c) (library_path config)) = true) /\
  List.map c_path (comics st') = List.map c_path (comics st) /\
  List.map c_id (comics st') = List.map c_id (comics st) /\
  List.map c_uuid (comics st') = List.map c_uuid (comics st) /\
  (forall c', In c' (comics st') -> c_thumbnail_generated c' = true ->
     (exists c, In c (comics st) /\ c_id c = c_id c' /\ c_thumbnail_generated c = true) \/
     exists c0, In c0 todo /\ c_id c0 = c_id c' /\ c_uuid c0 ∈ thumbnails st') /\
  folders st' = folders st /\ metadata st' = metadata st.
Proof.
  cbn zeta. unfold generate_thumbnails.
  exact (generate_thumbnails_fold config fs
           (if regenerate then get_all_comics st else get_missing_thumbnails_comics st) st).
Qed.

(** ** archive.py: what [get_archive] returns *)

(** X22. An archive [get_archive] returns is what one of the two libraries made
    of a regular file with a comic suffix; a path that is not there raises
    [FileNotFoundError], and a file with another suffix [ValueError]. *)
Theorem get_archive_cases (fs : node) (path : Path) :
  match Archive.get_archive rarfile fs path with
  | Ok a =>
      exists i, lookup_path fs path = Some (File i) /\
                (as_zip i = Ok a \/ (rarfile = true /\ as_rar i = Ok a)) /\
                Archive.str_in (Py.lower (suffix path)) [".cbz"; ".cbr"] = true
  | Raise e =>
      (exists_ fs path = false -> e = FileNotFoundError) /\
      (exists_ fs path = true ->
       Archive.str_in (Py.lower (suffix path)) [".cbz"; ".cbr"] = false ->
       e = ValueError)
  end.
Proof.
  unfold Archive.get_archive, Archive.ZipArchiveWrapper, Archive.RarArchiveWrapper,
    exists_, Archive.str_in.
  cbn [List.existsb].
  rewrite (String.eqb_sym (Py.lower (suffix path)) ".cbz"),
    (String.eqb_sym (Py.lower (suffix path)) ".cbr").
  destruct (lookup_path fs path) as [[i | st es]|] eqn:Hlook; cbn [negb];
    [| |split; [reflexivity | discriminate]];
    destruct (String.eqb ".cbz" (Py.lower (suffix path))) eqn:Hz;
    destruct (String.eqb ".cbr" (Py.lower (suffix path))) eqn:Hr;
    cbn [orb];
    destruct (negb rarfile) eqn:Hrar;
    try (split; [discriminate | first [reflexivity | intros _ H; discriminate]]);
    try apply negb_false_iff in Hrar.
  all: destruct (as_zip i) as [a|e] eqn:Hzip;
    try (exists i; split; [reflexivity|]; split; [left; exact Hzip | reflexivity]);
    try (split; [discriminate | intros _ H; discriminate]).
  all: destruct (as_rar i) as [a'|e'] eqn:Hrr;
    try (exists i; split; [reflexivity|];
         split; [right; split; [exact Hrar | exact Hrr] | reflexivity]);
    try (exists i; split; [reflexivity|]; split; [left; exact Hzip | reflexivity]);
    try (split; [discriminate | intros _ H; discriminate]).
Qed.

(** ** scanner.py: a new folder *)






End Environment.

(** * The properties at work on the example library *)

Lemma to_absolute_to_relative_witness :
  wf (ex_under ["Marvel"; "X-Men.cbz"]) /\
  is_relative_to (ex_under ["Marvel"; "X-Men.cbz"]) ex_root = true /\
  to_absolute (to_relative (ex_under ["Marvel"; "X-Men.cbz"]) ex_root) ex_root
  = ex_under ["Marvel"; "X-Men.cbz"].
Proof.
  assert (Hwf : wf (ex_under ["Marvel"; "X-Men.cbz"])).
  { unfold wf. cbn. repeat constructor. }
  split; [exact Hwf|]. split; [reflexivity|].
  apply (to_absolute_to_relative (ex_under ["Marvel"; "X-Men.cbz"]) ex_root Hwf).
  reflexivity.
Defined.


Lemma update_comic_metadata_additive_witness :
  pydict_fits (ComicMetadataUpdate_dump ex_payload) = true /\
  exists st' meta',
    update_comic_metadata 1 ex_payload ex_indexed_state = Ok st' /\
    metadata_of st' 1 = Some meta' /\
    m_attrs meta' !! "series" = Some (VStr "Series") /\
    m_attrs meta' !! "issue_number" = Some (VInt 3) /\
    m_attrs meta' !! "title" = Some (VStr "Family Feud").
Proof.
  split; [reflexivity|].
  destruct (update_comic_metadata_additive 1 ex_payload ex_indexed_state)
    as (Hok & _ & _).
  destruct Hok as (st' & meta' & Hup & Hrow & _ & Hattrs & _).
  - left. discriminate.
  - reflexivity.
  - exists st', meta'. split; [exact Hup|]. split; [exact Hrow|].
    rewrite !Hattrs. repeat split.
Defined.

(** C8, as stated, fails: for the item of the example index and a payload
    that supplies the year 2^63 the update raises, and the year is not
    written. *)
Lemma update_comic_metadata_overflow :
  get_comic_by_id 1 ex_indexed_state = Some ex_comic /\
  payload_field ex_payload_big "year" = Some (VInt (2 ^ 63)) /\
  update_comic_metadata 1 ex_payload_big ex_indexed_state = Raise OverflowError.
Proof. repeat split. Qed.

Lemma skip_iff_all_four_witness :
  let p := ex_under ["Series"; "issue01.cbz"] in
  let process_comic' :=
    process_comic true ex_ET_fromstring ex_str_strip ex_py_int ex_save_thumbnail_ok
                  ex_now ex_uuid4 ex_config ex_fs p 2 in
  stat ex_fs p = Ok (10%Z, 1000%Z) /\
  process_comic' false ex_indexed_state
  = mkEnded None (Ok (ex_indexed_state, (None, true, true, false))) /\
  exists st' c thumb,
    value (process_comic' true ex_indexed_state)
    = Ok (st', (Some (c_uuid c), true, false, thumb)) /\
    durable (process_comic' true ex_indexed_state) = Some st' /\
    comic_by_path st' "Series/issue01.cbz" = Some c /\
    c_file_modified_at c = 10%Z /\ c_file_size c = 1000%Z /\ c_page_count c = 1%Z /\
    c_last_scanned_at c = Some 5%Z.
Proof.
  intros p process_comic'. split; [reflexivity|].
  destruct (skip_iff_all_four true ex_ET_fromstring ex_str_strip ex_py_int
              ex_save_thumbnail_ok ex_now ex_uuid4 ex_config ex_fs
              p 2 false ex_indexed_state 10 1000 eq_refl) as (_ & Hskip & _).
  destruct (skip_iff_all_four true ex_ET_fromstring ex_str_strip ex_py_int
              ex_save_thumbnail_ok ex_now ex_uuid4 ex_config ex_fs
              p 2 true ex_indexed_state 10 1000 eq_refl) as (_ & _ & Hforce).
  split.
  - apply Hskip. exists ex_comic, ex_meta. repeat split.
  - destruct Hforce as (_ & Hvalid).
    { intros (comic & meta & _ & _ & Hf). discriminate Hf. }
    destruct (Hvalid 1%Z eq_refl) as (Hok & _).
    destruct (value (process_comic' true ex_indexed_state)) as [[st' o]|e] eqn:Hv.
    + destruct (Hok st' o Hv) as (Hdur & c & thumb & -> & Hrow & Hm & Hs & Hp & Hl).
      exists st', c, thumb. repeat split; assumption.
    + exfalso. vm_compute in Hv. discriminate Hv.
Defined.

Lemma corrupt_archive_removed_witness :
  exists st',
    stat ex_fs (ex_under ["bad.cbz"]) = Ok (12%Z, 1000%Z) /\
    validate_and_count_pages true ex_fs (ex_under ["bad.cbz"]) = Raise ArchiveError /\
    process_comic true ex_ET_fromstring ex_str_strip ex_py_int ex_save_thumbnail_ok
                  ex_now ex_uuid4 ex_config ex_fs (ex_under ["bad.cbz"]) 1 false
                  ex_stale_state
    = mkEnded (Some st') (Ok (st', (None, true, true, false))) /\
    comic_by_path st' "bad.cbz" = None /\
    ("bad-uuid" ∉ thumbnails st').
Proof.
  destruct (corrupt_archive_removed true ex_ET_fromstring ex_str_strip ex_py_int
              ex_save_thumbnail_ok ex_now ex_uuid4 ex_config ex_fs
              (ex_under ["bad.cbz"]) 1 false ex_stale_state 12 1000 ArchiveError
              eq_refl eq_refl eq_refl) as (st' & Hproc & Hrow & Hthumb & _).
  exists st'. split; [reflexivity|]. split; [reflexivity|].
  split; [exact Hproc|]. split; [exact Hrow|].
  apply (Hthumb ex_bad_comic); [left; reflexivity | reflexivity].
Defined.

(** C6 at a failing input: the sidecar of [Manga/vol1.cbz] declares the
    encoding shift_jis. The parser raises [ValueError], and so do
    [read_comicinfo_from_archive], [process_comic] and the scan of the
    library. *)
Lemma read_comicinfo_parser_error_escapes_witness :
  let p := ex_under ["Manga"; "vol1.cbz"] in
  ex_ET_fromstring ex_sidecar_sjis = Raise ValueError /\
  read_comicinfo_from_archive true ex_ET_fromstring ex_str_strip ex_py_int ex_fs_sjis p
  = Raise ValueError /\
  value (process_comic true ex_ET_fromstring ex_str_strip ex_py_int ex_save_thumbnail_ok
                       ex_now ex_uuid4 ex_config ex_fs_sjis p 2 false ex_empty_state)
  = Raise ValueError /\
  scan_library true ex_ET_fromstring ex_str_strip ex_py_int ex_save_thumbnail_ok
               ex_now ex_uuid4 ex_config ex_fs_sjis None false ex_empty_state
  = Raise ValueError.
Proof.
  intros p. split; [reflexivity|].
  destruct (read_comicinfo_parser_error_escapes true ex_ET_fromstring ex_str_strip
              ex_py_int ex_save_thumbnail_ok ex_now ex_uuid4 ex_config ex_fs_sjis p
              ex_sjis_archive "ComicInfo.xml" ex_sidecar_sjis ValueError
              eq_refl eq_refl eq_refl eq_refl eq_refl)
    as (Hread & Hproc).
  { discriminate. }
  split; [exact Hread|]. split.
  - exact (proj1 (Hproc 2%Z false ex_empty_state 20%Z 1000%Z eq_refl eq_refl)).
  - vm_compute. reflexivity.
Defined.

(** The two files of [Manga], one after the other, as the monitor hands
    them to [scan_file]. The row of the first is committed with its
    thumbnail before the sidecar is read, and stays; the second has no page,
    so nothing is committed and the index is as it was. Both calls end with
    [ValueError]. *)
Lemma scan_file_unreadable_sidecar :
  let scan_file' :=
    scan_file true ex_ET_fromstring ex_str_strip ex_py_int ex_save_thumbnail_ok
              ex_now ex_uuid4 ex_config ex_fs_sjis in
  snd (scan_file' (ex_under ["Manga"; "vol1.cbz"]) ex_empty_state) = Some ValueError /\
  List.map c_path (comics (fst (scan_file' (ex_under ["Manga"; "vol1.cbz"])
                                           ex_empty_state)))
  = ["Manga/vol1.cbz"] /\
  scan_file' (ex_under ["Manga"; "vol2.cbz"]) ex_empty_state
  = (ex_empty_state, Some ValueError).
Proof. vm_compute. repeat split. Qed.

Lemma optimize_tasks_spec_witness :
  In (Monitor.mkTask "scan_folder" (mkPath true ["z"]) None)
     (Monitor.values (Monitor.final_scan_folders ex_batch)) /\
  Monitor.last_task "scan_folder" (mkPath true ["z"]) ex_batch
  = Some (Monitor.mkTask "scan_folder" (mkPath true ["z"]) None).
Proof.
  assert (Hin : In (Monitor.mkTask "scan_folder" (mkPath true ["z"]) None)
                   (Monitor.values (Monitor.final_scan_folders ex_batch))).
  { vm_compute. right. left. reflexivity. }
  split; [exact Hin|].
  destruct (optimize_tasks_spec ex_batch) as (_ & _ & Hfolders & _).
  apply (Hfolders (Monitor.mkTask "scan_folder" (mkPath true ["z"]) None)) in Hin.
  apply Hin.
Defined.

(** C5, as stated, fails twice on one batch: of the two equal file scans
    one is dropped though no kept folder scan covers it, and the folder
    scan of depth two comes before the one of depth one. *)
Lemma optimize_tasks_merges_and_orders_by_name :
  Monitor.optimize_tasks ex_batch
  = [ Monitor.mkTask "scan_folder" (mkPath true ["a"; "b"]) None;
      Monitor.mkTask "scan_folder" (mkPath true ["z"]) None;
      Monitor.mkTask "scan_file" (mkPath true ["comics"; "x.cbz"]) None ] /\
  is_relative_to (mkPath true ["comics"; "x.cbz"]) (mkPath true ["a"; "b"]) = false /\
  is_relative_to (mkPath true ["comics"; "x.cbz"]) (mkPath true ["z"]) = false /\
  (List.length (parts (mkPath true ["z"]))
   < List.length (parts (mkPath true ["a"; "b"])))%nat.
Proof.
  split; [vm_compute; reflexivity|].
  split; [reflexivity|]. split; [reflexivity|]. cbn. lia.
Qed.

(** C9 at a failing input. The folder [a_b] moves to [a-b/a-b]. The
    pattern "a_b/%" also selects the comic [a-b/a_b 001.cbz] of the
    neighbouring folder, whose path is then rewritten at the first
    occurrence of "a_b": one item lay under the old path, two lie under the
    new one, and the file of the second is still where it was. *)
Lemma move_folder_rewrites_an_outsider :
  let st' := move_path true ex_ET_fromstring ex_str_strip ex_py_int
               ex_save_thumbnail_ok ex_now ex_uuid4 ex_config ex_fs_moved
               (ex_under ["a_b"]) (ex_under ["a-b"; "a-b"]) ex_two_folders_state in
  List.map f_path (folders st') = ["."; "a-b/a-b"; "a-b"] /\
  List.map c_path (comics st') = ["a-b/a-b/1.cbz"; "a-b/a-b/a-b 001.cbz"] /\
  paths_under "a_b" (List.map c_path (comics ex_two_folders_state)) = ["a_b/1.cbz"] /\
  paths_under "a-b/a-b" (List.map c_path (comics st'))
  = ["a-b/a-b/1.cbz"; "a-b/a-b/a-b 001.cbz"] /\
  exists_ ex_fs_moved (ex_under ["a-b"; "a_b 001.cbz"]) = true /\
  exists_ ex_fs_moved (ex_under ["a-b"; "a-b"; "a-b 001.cbz"]) = false.
Proof. vm_compute. repeat split. Qed.

(** A second scan of [Series], which is as the index has it. *)
Lemma rescan_unchanged_witness :
  exists stats,
    scan_library true ex_ET_fromstring ex_str_strip ex_py_int ex_save_thumbnail_ok
                 ex_now ex_uuid4 ex_config ex_fs (Some (ex_under ["Series"])) false
                 ex_indexed_state
    = Ok (ex_indexed_state, stats)
    /\ added stats = 0%Z /\ updated stats = 0%Z /\ deleted stats = 0%Z.
Proof.
  apply (rescan_unchanged true ex_ET_fromstring ex_str_strip ex_py_int
           ex_save_thumbnail_ok ex_now ex_uuid4 ex_config ex_fs
           (Some (ex_under ["Series"])) ex_indexed_state).
  - reflexivity.
  - reflexivity.
  - intros dir files Hin. vm_compute in Hin. destruct Hin as [Hin | []].
    injection Hin as <- <-. split; [vm_compute; discriminate|].
    intros f [<- | []] file_mtime file_size Hstat.
    vm_compute in Hstat. injection Hstat as <- <-.
    exists ex_comic, ex_meta. split; reflexivity.
  - intros c Hin. vm_compute in Hin. destruct Hin as [<- | []]. reflexivity.
  - intros f Hin. vm_compute in Hin. destruct Hin as [<- | []]. reflexivity.
Defined.

Lemma ex_fs_ok : fs_ok ex_fs.
Proof.
  cbn. repeat split;
    repeat (first [ apply List.NoDup_nil | apply List.Forall_nil
                  | apply List.NoDup_cons | apply List.Forall_cons ]);
    try reflexivity; cbn; intuition discriminate.
Qed.

(** A first scan of the example library. *)
Lemma scan_library_rows_on_disk_witness :
  exists st' stats,
    scan_library true ex_ET_fromstring ex_str_strip ex_py_int ex_save_thumbnail_ok
                 ex_now ex_uuid4 ex_config ex_fs None false ex_empty_state
    = Ok (st', stats) /\
    forall c, In c (select_comics ex_config ex_root st') ->
              canonical ex_root (c_path c) ->
              exists_ ex_fs (to_absolute (c_path c) ex_root) = true.
Proof.
  destruct (scan_library true ex_ET_fromstring ex_str_strip ex_py_int
              ex_save_thumbnail_ok ex_now ex_uuid4 ex_config ex_fs None false
              ex_empty_state) as [[st' stats]|e] eqn:Hscan.
  - exists st', stats. split; [reflexivity|].
    apply (scan_library_rows_on_disk true ex_ET_fromstring ex_str_strip ex_py_int
             ex_save_thumbnail_ok ex_now ex_uuid4 ex_config ex_fs None false
             ex_empty_state st' stats).
    + exact ex_fs_ok.
    + repeat constructor.
    + exact Hscan.
  - exfalso. vm_compute in Hscan. discriminate Hscan.
Defined.

Lemma scan_library_files_indexed_witness :
  exists st' stats,
    scan_library true ex_ET_fromstring ex_str_strip ex_py_int ex_save_thumbnail_ok
                 ex_now ex_uuid4 ex_config ex_fs None false ex_empty_state
    = Ok (st', stats) /\
    forall dir files f pages,
      In (dir, files) (walk_library ex_fs ex_root (ignore_patterns ex_config)) ->
      In f files ->
      validate_and_count_pages true ex_fs f = Ok pages ->
      exists c, comic_by_path st' (to_relative f ex_root) = Some c.
Proof.
  destruct (scan_library true ex_ET_fromstring ex_str_strip ex_py_int
              ex_save_thumbnail_ok ex_now ex_uuid4 ex_config ex_fs None false
              ex_empty_state) as [[st' stats]|e] eqn:Hscan.
  - exists st', stats. split; [reflexivity|].
    apply (scan_library_files_indexed true ex_ET_fromstring ex_str_strip ex_py_int
             ex_save_thumbnail_ok ex_now ex_uuid4 ex_config ex_fs None false
             ex_empty_state st' stats).
    + exact ex_fs_ok.
    + reflexivity.
    + repeat constructor.
    + reflexivity.
    + constructor.
    + exact Hscan.
  - exfalso. vm_compute in Hscan. discriminate Hscan.
Defined.

Lemma to_relative_distinct_witness :
  is_relative_to (ex_under ["a-b"; "a_b 001.cbz"]) ex_root = true /\
  to_relative (ex_under ["a_b"; "1.cbz"]) ex_root
  <> to_relative (ex_under ["a-b"; "a_b 001.cbz"]) ex_root.
Proof.
  split; [reflexivity|].
  apply (to_relative_distinct ex_root (ex_under ["a_b"; "1.cbz"])
           (ex_under ["a-b"; "a_b 001.cbz"])).
  - reflexivity.
  - repeat constructor.
  - repeat constructor.
  - reflexivity.
  - discriminate.
Defined.


(** The folder [a_b] of the example index is deleted, and is moved. *)
Lemma delete_comics_under_path_complete_witness :
  let r := delete_comics_under_path ex_root (ex_under ["a_b"]) ex_two_folders_state in
  (forall c, In c (comics (fst r)) -> Py.startswith "a_b/" (c_path c) = false) /\
  (forall c, In c (comics ex_two_folders_state) ->
             Sql.like "a_b/%" (c_path c) = false -> In c (comics (fst r))) /\
  (forall c, In c (comics (fst r)) -> In c (comics ex_two_folders_state)).
Proof.
  apply (delete_comics_under_path_complete ex_root (ex_under ["a_b"]) ex_two_folders_state).
  reflexivity.
Defined.

Lemma update_comic_paths_descendants_witness :
  exists st',
    update_comic_paths ex_root (ex_under ["a_b"]) (ex_under ["moved"]) ex_two_folders_state
    = Ok st' /\
    (forall c t, In c (comics ex_two_folders_state) ->
                 c_path c = ("a_b" ++ "/" ++ t)%string ->
                 In (Comic_with_path ("moved" ++ "/" ++ t) c) (comics st')) /\
    List.map c_id (comics st') = List.map c_id (comics ex_two_folders_state).
Proof.
  eexists. split; [reflexivity|].
  destruct (update_comic_paths_descendants ex_root (ex_under ["a_b"]) (ex_under ["moved"])
              ex_two_folders_state _ eq_refl) as (Hd & _ & Hids & _).
  split; [exact (Hd eq_refl) | exact Hids].
Defined.

(** The indexed issue is deleted, and is scanned into an empty index. *)
Lemma delete_path_file_witness :
  let p := ex_under ["Series"; "issue01.cbz"] in
  let st' := delete_path ex_config ex_fs p ex_indexed_state in
  get_comic_by_path ex_root p st' = None /\
  (forall c, In c (comics ex_indexed_state) -> c_path c = to_relative p ex_root ->
             (c_uuid c ∉ thumbnails st') /\
             forall m, In m (metadata st') -> m_comic_id m <> c_id c) /\
  (forall c, In c (comics ex_indexed_state) -> c_path c <> to_relative p ex_root ->
             In c (comics st')) /\
  folders st' = folders ex_indexed_state.
Proof.
  apply (delete_path_file ex_config ex_fs (ex_under ["Series"; "issue01.cbz"])
           ex_indexed_state).
  - reflexivity.
  - left. reflexivity.
Defined.


(** [Series/ISSUE.CBZ] was indexed and has been removed from the disk. *)
Lemma delete_path_vanished_other_suffix_witness :
  let p := ex_under ["Series"; "ISSUE.CBZ"] in
  let c := mkComic 1 "uu" "ISSUE.CBZ" "Series/ISSUE.CBZ" "cbz" 1000 1 10 (Some 0%Z)
                   true (Some 2%Z) 2 in
  is_comic_file p = true /\
  exists_ ex_fs p = false /\
  exists c', In c' (comics (delete_path ex_config ex_fs p (set_comics [c] ex_indexed_state)))
             /\ c_path c' = "Series/ISSUE.CBZ" /\ c_id c' = 1%Z /\ c_uuid c' = "uu".
Proof.
  cbn zeta. split; [reflexivity|]. split; [reflexivity|].
  apply (delete_path_vanished_other_suffix ex_config ex_fs
           (ex_under ["Series"; "ISSUE.CBZ"])
           (set_comics [mkComic 1 "uu" "ISSUE.CBZ" "Series/ISSUE.CBZ" "cbz" 1000 1 10
                                (Some 0%Z) true (Some 2%Z) 2] ex_indexed_state)
           eq_refl eq_refl eq_refl _ (or_introl eq_refl) eq_refl).
Defined.

Lemma walk_library_yields_comic_files_witness :
  let f := ex_under ["Series"; "issue01.cbz"] in
  exists_ ex_fs f = true /\ wf f /\ is_relative_to f ex_root = true /\
  exists nm, f = child (ex_under ["Series"]) nm
             /\ _should_ignore nm (ignore_patterns ex_config) = false
             /\ is_comic_file (of_str nm) = true.
Proof.
  apply (walk_library_yields_comic_files ex_fs ex_root (ignore_patterns ex_config)
           (ex_under ["Series"]) [ex_under ["Series"; "issue01.cbz"]]).
  - exact ex_fs_ok.
  - repeat constructor.
  - vm_compute. right. left. reflexivity.
  - left. reflexivity.
Defined.

(** [Series/issue01.cbz] is renamed to [Series/issue02.cbz]. *)
Lemma move_path_file_keeps_row_witness :
  let src := ex_under ["Series"; "issue01.cbz"] in
  let dest := ex_under ["Series"; "issue02.cbz"] in
  let st' := move_path true ex_ET_fromstring ex_str_strip ex_py_int ex_save_thumbnail_ok
                       ex_now ex_uuid4 ex_config ex_fs src dest ex_indexed_state in
  (exists folder,
     In folder (folders st') /\ f_path folder = to_relative (parent dest) ex_root /\
     comic_by_path st' (to_relative dest ex_root)
     = Some (mkComic (c_id ex_comic) (c_uuid ex_comic) (name dest)
                     (to_relative dest ex_root) (c_format ex_comic) (c_file_size ex_comic)
                     (c_page_count ex_comic) (c_file_modified_at ex_comic)
                     (c_last_scanned_at ex_comic) (c_thumbnail_generated ex_comic)
                     (Some (f_id folder)) (c_created_at ex_comic))) /\
  comic_by_path st' (to_relative src ex_root) = None /\
  List.map c_id (comics st') = List.map c_id (comics ex_indexed_state) /\
  metadata st' = metadata ex_indexed_state /\ thumbnails st' = thumbnails ex_indexed_state.
Proof.
  apply (move_path_file_keeps_row true ex_ET_fromstring ex_str_strip ex_py_int
           ex_save_thumbnail_ok ex_now ex_uuid4 ex_config ex_fs
           (ex_under ["Series"; "issue01.cbz"]) (ex_under ["Series"; "issue02.cbz"])
           ex_indexed_state ex_comic (Some ex_meta)).
  - reflexivity.
  - reflexivity.
  - reflexivity.
  - reflexivity.
  - constructor; [intros [] | constructor].
  - constructor; [intros [] | constructor].
Defined.

(** The folder [a_b] of the example library is deleted. *)
Lemma delete_path_folder_witness :
  let st' := delete_path ex_config ex_fs (ex_under ["a_b"]) ex_two_folders_state in
  (forall c, In c (comics st') -> Py.startswith "a_b/" (c_path c) = false) /\
  (forall f, In f (folders st') ->
             f_path f <> "a_b" /\ Py.startswith "a_b/" (f_path f) = false) /\
  (forall c, In c (comics ex_two_folders_state) -> Sql.like "a_b/%" (c_path c) = true ->
             c_uuid c ∉ thumbnails st') /\
  (forall c, In c (comics ex_two_folders_state) -> Sql.like "a_b/%" (c_path c) = false ->
             In (c_path c) (comic_paths st')).
Proof.
  apply (delete_path_folder ex_config ex_fs (ex_under ["a_b"]) ex_two_folders_state).
  - left. reflexivity.
  - reflexivity.
  - repeat (apply List.NoDup_cons; [cbn; intuition discriminate|]). apply List.NoDup_nil.
Defined.

(** Two sidecars that differ in their [Series] element. *)
Lemma parse_comicinfo_xml_reads_mapped_tags_witness :
  let parser (s : string) : result (list (string * option string)) :=
    if String.eqb s "A" then Ok [("Title", Some "T"); ("Series", Some "S")]
    else if String.eqb s "B" then Ok [("Title", Some "T")]
    else Raise XMLParseError in
  parse_comicinfo_xml parser ex_str_strip ex_py_int "A"
  = parse_comicinfo_xml parser ex_str_strip ex_py_int "B" /\
  Archive.str_in (_local_name (fst ("Series", @None string))) (List.map fst TAG_MAP)
  = false.
Proof.
  cbn zeta.
  apply (parse_comicinfo_xml_reads_mapped_tags
           (fun s => if String.eqb s "A" then Ok [("Title", Some "T"); ("Series", Some "S")]
                     else if String.eqb s "B" then Ok [("Title", Some "T")]
                     else Raise XMLParseError)
           ex_str_strip ex_py_int "A" "B"
           [("Title", Some "T"); ("Series", Some "S")] [("Title", Some "T")]).
  - reflexivity.
  - reflexivity.
  - reflexivity.
Defined.


(** A file on disk that no library opens has no row after a scan. *)
Lemma scan_library_leaves_corrupt_file_unindexed :
  exists_ ex_fs (ex_under ["bad.cbz"]) = true /\
  match scan_library true ex_ET_fromstring ex_str_strip ex_py_int ex_save_thumbnail_ok
                     ex_now ex_uuid4 ex_config ex_fs None false ex_empty_state with
  | Ok (st', _) => comic_by_path st' (to_relative (ex_under ["bad.cbz"]) ex_root) = None
  | Raise _ => False
  end.
Proof. split; [reflexivity | vm_compute; reflexivity]. Qed.
